(* ===================================================================== *)
(* classify_all_natcomm_gemma_006.py: batch classification of data       *)
(* availability statements with a local language model.                  *)
(*                                                                       *)
(* Shallow embedding of the script and proofs about its behaviour.       *)
(* ===================================================================== *)

From Stdlib Require Import ZArith NArith Ascii String DecimalString.
From stdpp Require Import base option list gmap fin_maps.

Set Default Proof Using "Type".
Set Warnings "-register-all".
Unset Elimination Schemes.
Local Open Scope N_scope.

(* ===================================================================== *)
(* 1. Text                                                               *)
(* ===================================================================== *)

(* A Python str is a sequence of Unicode code points.  Lone surrogates
   (U+D800 .. U+DFFF) are legal members of a str, which matters below:
   json.loads can produce them and the utf-8 codec refuses them. *)
Module Text.

Abbreviation str := (list N).

(* A literal: the code points of an ASCII string constant. *)
Definition u (s : string) : str := N_of_ascii <$> list_ascii_of_string s.

Definition dquote : N := 34.
Definition newline : N := 10.

Definition str_eqb (a b : str) : bool := bool_decide (a = b).

Fixpoint startswith (p s : str) : bool :=
  match p, s with
  | [], _ => true
  | _ :: _, [] => false
  | a :: p', b :: s' => (a =? b) && startswith p' s'
  end.

(* str.replace(old, new) for a non-empty old: occurrences are taken from
   left to right and do not overlap.  skip counts the characters of the
   occurrence just replaced that are still to be passed over. *)
Fixpoint replace_from (old new : str) (skip : nat) (s : str) : str :=
  match s with
  | [] => []
  | c :: s' =>
      match skip with
      | S k => replace_from old new k s'
      | O =>
          if startswith old s
          then new ++ replace_from old new (pred (length old)) s'
          else c :: replace_from old new 0 s'
      end
  end.

Definition replace (old new s : str) : str := replace_from old new 0 s.

(* Py_UNICODE_ISSPACE: the characters str.strip() removes. *)
Definition isspace (c : N) : bool :=
  ((9 <=? c) && (c <=? 13)) || ((28 <=? c) && (c <=? 32))
  || (c =? 133) || (c =? 160) || (c =? 5760)
  || ((8192 <=? c) && (c <=? 8202))
  || (c =? 8232) || (c =? 8233) || (c =? 8239) || (c =? 8287) || (c =? 12288).

Fixpoint lstrip (s : str) : str :=
  match s with
  | c :: s' => if isspace c then lstrip s' else s
  | [] => []
  end.

Definition rstrip (s : str) : str := reverse (lstrip (reverse s)).

Definition strip (s : str) : str := rstrip (lstrip s).

(* str(n) for a natural number *)
Definition decimal (n : nat) : str := u (NilEmpty.string_of_uint (Nat.to_uint n)).

End Text.
Import Text.

(* ===================================================================== *)
(* 2. The regular expression of extract_json                             *)
(* ===================================================================== *)

Module Regex.

Definition lbrace : N := 123.
Definition rbrace : N := 125.

(* Greedy ".*}" with re.DOTALL, anchored at the start of s: the longest
   prefix of s that ends in a closing brace. *)
Fixpoint through_last_rbrace (s : str) : option str :=
  match s with
  | [] => None
  | c :: s' =>
      match through_last_rbrace s' with
      | Some m => Some (c :: m)
      | None => if c =? rbrace then Some [c] else None
      end
  end.

(* re.match(r"\{.*\}", s, re.DOTALL) *)
Definition match_braces (s : str) : option str :=
  match s with
  | c :: s' => if c =? lbrace then (c ::.) <$> through_last_rbrace s' else None
  | [] => None
  end.

(* re.search(r"\{.*\}", s, re.DOTALL).group(0): the match at the leftmost
   position where one exists. *)
Fixpoint search_braces (s : str) : option str :=
  match match_braces s with
  | Some m => Some m
  | None => match s with
            | [] => None
            | _ :: s' => search_braces s'
            end
  end.

End Regex.
Import Regex.

(* ===================================================================== *)
(* 3. extract_json                                                       *)
(* ===================================================================== *)

Definition fence_json : str := u "```json".
Definition fence : str := u "```".

Definition strip_fences (text : str) : str :=
  replace fence [] (replace fence_json [] text).

(* def extract_json(text): None is Python's None *)
Definition extract_json (text : str) : option str :=
  let text := replace fence_json [] text in
  let text := replace fence [] text in
  search_braces text.

(* ===================================================================== *)
(* 4. Python values and json.loads                                       *)
(* ===================================================================== *)

(* The Python objects that json.loads builds and that the cells of a
   DataFrame hold.  A float is kept as the token it was read from; the
   not-a-number float has its own constructor because an empty CSV cell
   is that same value. *)
Inductive pyval :=
  | PNone
  | PBool (b : bool)
  | PInt (z : Z)
  | PFloat (token : str)
  | PNaN
  | PStr (s : str)
  | PList (items : list pyval)
  | PDict (entries : list (str * pyval)).

Module Json.

Definition backslash : N := 92.
Definition lbracket : N := 91.
Definition rbracket : N := 93.
Definition colon : N := 58.
Definition comma : N := 44.

(* WHITESPACE of json.decoder: space, tab, line feed, carriage return *)
Definition is_ws (c : N) : bool :=
  (c =? 32) || (c =? 9) || (c =? 10) || (c =? 13).

Fixpoint skip_ws (s : str) : str :=
  match s with
  | c :: s' => if is_ws c then skip_ws s' else s
  | [] => []
  end.

Definition isdigit (c : N) : bool := (48 <=? c) && (c <=? 57).

Definition hexval (c : N) : option N :=
  if isdigit c then Some (c - 48)
  else if (97 <=? c) && (c <=? 102) then Some (c - 87)
  else if (65 <=? c) && (c <=? 70) then Some (c - 55)
  else None.

Definition hex4 (a b c d : N) : option N :=
  match hexval a, hexval b, hexval c, hexval d with
  | Some x, Some y, Some z, Some t => Some (((x * 16 + y) * 16 + z) * 16 + t)
  | _, _, _, _ => None
  end.

Definition is_high_surrogate (c : N) : bool := (55296 <=? c) && (c <=? 56319).
Definition is_low_surrogate (c : N) : bool := (56320 <=? c) && (c <=? 57343).
Definition is_surrogate (c : N) : bool := (55296 <=? c) && (c <=? 57343).

Definition join_surrogates (hi lo : N) : N :=
  65536 + (hi - 55296) * 1024 + (lo - 56320).

(* BACKSLASH table of the decoder *)
Definition unescape (e : N) : option N :=
  if e =? dquote then Some dquote
  else if e =? backslash then Some backslash
  else if e =? 47 then Some 47
  else if e =? 98 then Some 8
  else if e =? 102 then Some 12
  else if e =? 110 then Some 10
  else if e =? 114 then Some 13
  else if e =? 116 then Some 9
  else None.

Definition push (c : N) (r : option (str * str)) : option (str * str) :=
  match r with
  | Some (k, rest) => Some (c :: k, rest)
  | None => None
  end.

(* scanstring, strict mode: s starts just after the opening quote; the
   result is the decoded string and the text after the closing quote.
   A \uXXXX escape in the surrogate range is kept as it is unless a high
   one is directly followed by a low one, in which case the two are
   joined. *)
Fixpoint scanstring (s : str) : option (str * str) :=
  match s with
  | [] => None
  | c :: s1 =>
      if c =? dquote then Some ([], s1)
      else if c =? backslash then
        match s1 with
        | [] => None
        | e :: s2 =>
            if e =? 117 then
              match s2 with
              | a :: b :: c' :: d :: s3 =>
                  match hex4 a b c' d with
                  | None => None
                  | Some cp =>
                      if is_high_surrogate cp then
                        match s3 with
                        | x :: y :: a2 :: b2 :: c2 :: d2 :: s4 =>
                            if (x =? backslash) && (y =? 117) then
                              match hex4 a2 b2 c2 d2 with
                              | None => None
                              | Some lo =>
                                  if is_low_surrogate lo
                                  then push (join_surrogates cp lo) (scanstring s4)
                                  else push cp (scanstring s3)
                              end
                            else push cp (scanstring s3)
                        | _ => push cp (scanstring s3)
                        end
                      else push cp (scanstring s3)
                  end
              | _ => None
              end
            else
              match unescape e with
              | Some ch => push ch (scanstring s2)
              | None => None
              end
        end
      else if c <? 32 then None
      else push c (scanstring s1)
  end.

Fixpoint span_digits (s : str) : str * str :=
  match s with
  | c :: s' =>
      if isdigit c then let '(ds, rest) := span_digits s' in (c :: ds, rest)
      else ([], s)
  | [] => ([], [])
  end.

Definition digits_value (ds : str) : Z :=
  foldl (fun acc c => (acc * 10 + Z.of_N (c - 48))%Z) 0%Z ds.

(* NUMBER_RE: an optional minus sign; the integer part, which is 0 or a
   run of digits not starting with 0; an optional fraction, a dot and at
   least one digit; an optional exponent, e or E, an optional sign and at
   least one digit. *)
Definition scan_int_part (s : str) : option (str * str) :=
  match s with
  | c :: s' =>
      if c =? 48 then Some ([c], s')
      else if isdigit c then let '(ds, rest) := span_digits s' in Some (c :: ds, rest)
      else None
  | [] => None
  end.

Definition scan_frac (s : str) : str * str :=
  match s with
  | p :: d :: s' =>
      if (p =? 46) && isdigit d
      then let '(ds, rest) := span_digits s' in (p :: d :: ds, rest)
      else ([], s)
  | _ => ([], s)
  end.

Definition scan_exp (s : str) : str * str :=
  match s with
  | e :: s' =>
      if (e =? 101) || (e =? 69) then
        let '(sign, s1) :=
          match s' with
          | g :: s'' => if (g =? 43) || (g =? 45) then ([g], s'') else ([], s')
          | [] => ([], s')
          end in
        match span_digits s1 with
        | ([], _) => ([], s)
        | (ds, rest) => (e :: sign ++ ds, rest)
        end
      else ([], s)
  | [] => ([], s)
  end.

Definition scan_number (s : str) : option (pyval * str) :=
  let '(sign, s0) :=
    match s with
    | c :: s' => if c =? 45 then ([c], s') else ([], s)
    | [] => ([], s)
    end in
  match scan_int_part s0 with
  | None => None
  | Some (int, s1) =>
      let '(frac, s2) := scan_frac s1 in
      let '(exp, s3) := scan_exp s2 in
      match frac, exp with
      | [], [] =>
          let v := digits_value int in
          Some (PInt (match sign with [] => v | _ => - v end)%Z, s3)
      | _, _ => Some (PFloat (sign ++ int ++ frac ++ exp), s3)
      end
  end.

(* dict[key] = value: a key already present keeps its place *)
Fixpoint dict_set (k : str) (v : pyval) (d : list (str * pyval)) : list (str * pyval) :=
  match d with
  | [] => [(k, v)]
  | (k', v') :: d' => if str_eqb k' k then (k, v) :: d' else (k', v') :: dict_set k v d'
  end.

Fixpoint dict_get (k : str) (d : list (str * pyval)) : option pyval :=
  match d with
  | [] => None
  | (k', v) :: d' => if str_eqb k' k then Some v else dict_get k d'
  end.

(* scan_once, JSONObject and JSONArray.  What json.loads does by
   recursion on the nesting of the document is done here by recursion on
   fuel; two calls in a row pass over at least one character, so fuel
   above twice the length of the text is never used up (fuel_enough
   below).  The limit Python puts on the depth of the nesting and on the
   number of digits of an integer is outside the model. *)
Fixpoint scan_once (fuel : nat) (s : str) : option (pyval * str) :=
  match fuel with
  | O => None
  | S f =>
      match s with
      | [] => None
      | c :: s' =>
          if c =? dquote then
            match scanstring s' with
            | Some (k, rest) => Some (PStr k, rest)
            | None => None
            end
          else if c =? lbrace then
            match skip_ws s' with
            | c1 :: r1 =>
                if c1 =? rbrace then Some (PDict [], r1)
                else parse_members f [] (c1 :: r1)
            | [] => None
            end
          else if c =? lbracket then
            match skip_ws s' with
            | c1 :: r1 =>
                if c1 =? rbracket then Some (PList [], r1)
                else parse_elements f [] (c1 :: r1)
            | [] => None
            end
          else if startswith (u "null") s then Some (PNone, drop 4 s)
          else if startswith (u "true") s then Some (PBool true, drop 4 s)
          else if startswith (u "false") s then Some (PBool false, drop 5 s)
          else if startswith (u "NaN") s then Some (PNaN, drop 3 s)
          else if startswith (u "Infinity") s then Some (PFloat (u "Infinity"), drop 8 s)
          else if startswith (u "-Infinity") s then Some (PFloat (u "-Infinity"), drop 9 s)
          else scan_number s
      end
  end
with parse_members (fuel : nat) (acc : list (str * pyval)) (s : str)
  : option (pyval * str) :=
  match fuel with
  | O => None
  | S f =>
      match s with
      | [] => None
      | c :: s' =>
          if c =? dquote then
            match scanstring s' with
            | None => None
            | Some (k, r) =>
                match skip_ws r with
                | c2 :: r2 =>
                    if c2 =? colon then
                      match scan_once f (skip_ws r2) with
                      | None => None
                      | Some (v, r3) =>
                          let acc' := dict_set k v acc in
                          match skip_ws r3 with
                          | c4 :: r4 =>
                              if c4 =? rbrace then Some (PDict acc', r4)
                              else if c4 =? comma then parse_members f acc' (skip_ws r4)
                              else None
                          | [] => None
                          end
                      end
                    else None
                | [] => None
                end
            end
          else None
      end
  end
with parse_elements (fuel : nat) (acc : list pyval) (s : str)
  : option (pyval * str) :=
  match fuel with
  | O => None
  | S f =>
      match scan_once f s with
      | None => None
      | Some (v, r) =>
          match skip_ws r with
          | c :: r' =>
              if c =? rbracket then Some (PList (acc ++ [v]), r')
              else if c =? comma then parse_elements f (acc ++ [v]) (skip_ws r')
              else None
          | [] => None
          end
      end
  end.

Definition fuel_for (s : str) : nat := (2 * length s + 2)%nat.

(* json.loads(s): None stands for any exception it raises (a
   JSONDecodeError); the caller catches them all alike. *)
Definition loads (s : str) : option pyval :=
  if startswith [65279] s then None
  else
    match scan_once (fuel_for s) (skip_ws s) with
    | Some (v, rest) =>
        match skip_ws rest with
        | [] => Some v
        | _ :: _ => None
        end
    | None => None
    end.

(* obj[key] for a str key: KeyError and TypeError both come out as None *)
Definition getitem (obj : pyval) (key : str) : option pyval :=
  match obj with
  | PDict d => dict_get key d
  | _ => None
  end.

End Json.

Definition q (s : str) : str := [dquote] ++ s ++ [dquote].

(* ===================================================================== *)
(* 5. Configuration                                                      *)
(* ===================================================================== *)

Module Path.

Definition slash : N := 47.

(* os.path.join(a, b) on a POSIX system *)
Definition join (a b : str) : str :=
  if startswith [slash] b then b
  else match reverse a with
       | [] => b
       | c :: _ => if c =? slash then a ++ b else a ++ [slash] ++ b
       end.

(* os.path.split(p): the cut is after the last slash *)
Fixpoint split_last (p : str) : str * str :=
  match p with
  | [] => ([], [])
  | c :: p' =>
      let '(head, tail) := split_last p' in
      if (c =? slash) || negb (bool_decide (head = [])) then (c :: head, tail)
      else ([], c :: tail)
  end.

Fixpoint rstrip_slashes_rev (r : str) : str :=
  match r with
  | c :: r' => if c =? slash then rstrip_slashes_rev r' else r
  | [] => []
  end.

Definition basename (p : str) : str := (split_last p).2.

Definition dirname (p : str) : str :=
  let head := (split_last p).1 in
  match rstrip_slashes_rev (reverse head) with
  | [] => head
  | r => reverse r
  end.

End Path.

Definition BASE_DIR : str := u "data_availability_project".
Definition INPUT_DIR : str := Path.join BASE_DIR (u "data_availability_all_1_1a").
Definition OUTPUT_DIR : str := Path.join BASE_DIR (u "classified_natcomm_2023_by_gemma").
Definition FINAL_OUTPUT : str :=
  Path.join BASE_DIR (u "classified_natcomm_2023_by_gemma_all.csv").

Definition MAX_RETRY : nat := 3.
Definition MAX_WORKERS : nat := 6.
Definition DATA_COLUMN : str := u "data".

Definition unlines (ls : list str) : str := ls ≫= (λ l, l ++ [newline]).

(* The seven categories, in the order of the prompt *)
Definition TAXONOMY : list str :=
  [ u "Fully Public Repository Deposition";
    u "Public Within Article / Supplement Only";
    u "Reuse of Public Third-Party Data Only";
    u "Mixed Public Deposit + Author Request";
    u "Controlled-Access Repository Data";
    u "Author Upon Request Only";
    u "No Data Generated / Not Applicable" ].

Definition numbered (ls : list str) : list str :=
  imap (λ i l, decimal (S i) ++ u ". " ++ l) ls.

Definition CATEGORY_PROMPT : str :=
  unlines
    ([ [];
       u "You must classify the Data Availability statement into EXACTLY ONE category.";
       [];
       u "Categories ordered from highest to lowest public accessibility:";
       [] ]
     ++ numbered TAXONOMY ++
     [ [];
       u "Strict rules:";
       u "- Choose EXACTLY ONE category.";
       u "- Follow the accessibility hierarchy.";
       u "- Output ONLY valid JSON.";
       u "- Do not use markdown.";
       u "- Do not wrap in ```json.";
       u "- Do not add explanations outside JSON.";
       [];
       u "Output format:";
       u "{";
       u "  " ++ q (u "category") ++ u ": " ++ q (u "EXACT CATEGORY NAME") ++ u ",";
       u "  " ++ q (u "reason") ++ u ": " ++ q (u "short explanation");
       u "}" ]).

Definition triple_quote : str := [dquote; dquote; dquote].

(* the f-string of classify_text *)
Definition build_prompt (text : str) : str :=
  unlines
    [ [];
      CATEGORY_PROMPT;
      [];
      u "Data Availability Statement:";
      triple_quote ++ text ++ triple_quote;
      [];
      u "Classify now." ].

(* ===================================================================== *)
(* 6. The world the script runs in                                       *)
(* ===================================================================== *)

(* An exception: its class and the text str(e) gives *)
Inductive exn := Exn (cls msg : str).

Definition exn_str (e : exn) : str := match e with Exn _ msg => msg end.

(* A pandas DataFrame with the default row index: column labels and the
   rows, each row a list of cells in column order. *)
Record DataFrame := { columns : list str; rows : list (list pyval) }.

(* What a path in the file system holds: a CSV file is identified with
   the table pandas.read_csv reads from it; Opaque is any other content,
   on which read_csv raises e (an empty file, undecodable bytes, a
   directory). *)
Inductive file :=
  | Csv (t : DataFrame)
  | Opaque (e : exn).

(* What the run leaves behind for an observer, in order of occurrence *)
Inductive event :=
  | Invoke (prompt : str)   (* one `ollama run gemma:2b` process *)
  | Sleep                   (* time.sleep(0.5) *)
  | Submit (path : str)     (* executor.submit(process_file, path) *)
  | Print (line : str)
  | PrintElapsed.           (* the total-time line; its number is wall-clock *)

(* Directories by path, each a map from entry name to content *)
Record World := { fs : gmap str (gmap str file); log : list event }.

(* The parts of the surroundings that the script does not determine.
   ollama k prompt: what the k-th model process of the run (counted from
   0) does on this prompt: the text on its standard output, or the
   exception subprocess.run raises.
   render row cells: str() of what df.iloc[0][DATA_COLUMN] yields in the
   cases other than a single str or missing cell (numbers, whose text
   depends on the dtype the row is given; several columns of that name).
   assign_container v n: what pandas makes of df[col] = v for a list or
   dict v on a frame of n rows: an exception, or the cell of each row. *)
Record Env := {
  ollama : nat → str → exn + str;
  render : list pyval → list pyval → str;
  assign_container : pyval → nat → exn + (nat → pyval)
}.

Inductive result (A : Type) :=
  | Ok (a : A)
  | Raise (e : exn).
Arguments Ok {A} a.
Arguments Raise {A} e.

(* Computations that read and change the world and may raise *)
Definition M (A : Type) : Type := World → result A * World.

Definition ret {A} (a : A) : M A := λ w, (Ok a, w).

Definition raise {A} (e : exn) : M A := λ w, (Raise e, w).

Definition bind {A B} (m : M A) (k : A → M B) : M B :=
  λ w, match m w with
       | (Ok a, w') => k a w'
       | (Raise e, w') => (Raise e, w')
       end.

Notation "x <- m ;; k" := (bind m (λ x, k))
  (at level 20, m at level 99, k at level 200, only parsing).
Notation "' p <- m ;; k" := (bind m (λ x, match x with p => k end))
  (at level 20, p pattern, m at level 99, k at level 200, only parsing).
Notation "m ;; k" := (bind m (λ _, k))
  (at level 100, k at level 200, only parsing, right associativity).

Definition emit (e : event) : M unit :=
  λ w, (Ok tt, {| fs := fs w; log := log w ++ [e] |}).

Definition print (line : str) : M unit := emit (Print line).

Definition is_invoke (e : event) : bool :=
  match e with Invoke _ => true | _ => false end.

(* number of model processes started so far *)
Definition invocations (l : list event) : nat := length (filter is_invoke l).

(* ===================================================================== *)
(* 7. The file system and pandas                                         *)
(* ===================================================================== *)

Definition lookup_file (path : str) (w : World) : option file :=
  d ← fs w !! Path.dirname path; d !! Path.basename path.

Definition write_file (path : str) (f : file) (w : World) : World :=
  let dir := Path.dirname path in
  {| fs := <[dir := <[Path.basename path := f]> (default ∅ (fs w !! dir))]> (fs w);
     log := log w |}.

Definition FileNotFoundError (path : str) : exn :=
  Exn (u "FileNotFoundError") (u "[Errno 2] No such file or directory: '" ++ path ++ u "'").
Definition IndexError : exn :=
  Exn (u "IndexError") (u "single positional indexer is out-of-bounds").
Definition EmptyDataError : exn :=
  Exn (u "EmptyDataError") (u "No columns to parse from file").
Definition NoParentError (path : str) : exn :=
  Exn (u "OSError")
      (u "Cannot save file into a non-existent directory: '" ++ Path.dirname path ++ u "'").
(* the codec's message also names the character and its position *)
Definition UnicodeEncodeError : exn :=
  Exn (u "UnicodeEncodeError") (u "'utf-8' codec can't encode character: surrogates not allowed").
Definition SystemExit (code : nat) : exn := Exn (u "SystemExit") (decimal code).

(* pd.read_csv(path) *)
Definition read_csv (path : str) : M DataFrame := λ w,
  match lookup_file path w with
  | Some (Csv t) => (Ok t, w)
  | Some (Opaque e) => (Raise e, w)
  | None => (Raise (FileNotFoundError path), w)
  end.

(* df.columns = df.columns.str.strip() *)
Definition strip_columns (df : DataFrame) : DataFrame :=
  {| columns := strip <$> columns df; rows := rows df |}.

(* name in df.columns *)
Definition has_column (name : str) (df : DataFrame) : bool :=
  bool_decide (name ∈ columns df).

(* df.iloc[0] *)
Definition iloc0 (df : DataFrame) : M (list pyval) :=
  match rows df with
  | [] => raise IndexError
  | r :: _ => ret r
  end.

(* row[name]: the cells of the row under the columns of that name *)
Fixpoint select (name : str) (cols : list str) (row : list pyval) : list pyval :=
  match cols, row with
  | c :: cols', v :: row' =>
      if str_eqb c name then v :: select name cols' row' else select name cols' row'
  | _, _ => []
  end.

(* str(row[name]) *)
Definition cell_text (env : Env) (name : str) (cols : list str) (row : list pyval) : str :=
  match select name cols row with
  | [PStr s] => s
  | [PNaN] => u "nan"
  | cells => render env row cells
  end.

(* The cells df[name] = value gives to the rows of a frame with n rows: a
   scalar is repeated down the column. *)
Definition column_cells (env : Env) (value : pyval) (n : nat) : result (nat → pyval) :=
  match value with
  | PList _ | PDict _ =>
      match assign_container env value n with
      | inl e => Raise e
      | inr cells => Ok cells
      end
  | scalar => Ok (λ _, scalar)
  end.

Fixpoint put (name : str) (v : pyval) (cols : list str) (row : list pyval) : list pyval :=
  match cols, row with
  | c :: cols', x :: row' =>
      (if str_eqb c name then v else x) :: put name v cols' row'
  | _, _ => row
  end.

(* The frame after df[name] = value, given the cells the value provides:
   an existing column (every column of that name) is overwritten,
   otherwise the column is added at the end. *)
Definition with_column (name : str) (cells : nat → pyval) (df : DataFrame) : DataFrame :=
  if has_column name df
  then {| columns := columns df;
          rows := imap (λ i r, put name (cells i) (columns df) r) (rows df) |}
  else {| columns := columns df ++ [name];
          rows := imap (λ i r, r ++ [cells i]) (rows df) |}.

(* df[name] = value *)
Definition set_column (env : Env) (name : str) (value : pyval) (df : DataFrame)
  : M DataFrame :=
  match column_cells env value (length (rows df)) with
  | Raise e => raise e
  | Ok cells => ret (with_column name cells df)
  end.

(* What the utf-8 codec accepts *)
Definition encodable (s : str) : bool := forallb (λ c, negb (Json.is_surrogate c)) s.

(* A str cell is written as it is; any other cell is written as ASCII
   text (str() of a container escapes the surrogates inside it). *)
Definition cell_encodable (v : pyval) : bool :=
  match v with
  | PStr s => encodable s
  | _ => true
  end.

Fixpoint encodable_prefix (rs : list (list pyval)) : list (list pyval) :=
  match rs with
  | r :: rs' => if forallb cell_encodable r then r :: encodable_prefix rs' else []
  | [] => []
  end.

Definition IsADirectoryError (path : str) : exn :=
  Exn (u "IsADirectoryError") (u "[Errno 21] Is a directory: '" ++ path ++ u "'").

(* df.to_csv(path, index=False).  pandas checks that the directory
   exists, opens the file for writing, which creates or empties it, and
   writes the header and then the rows one by one.  When a row cannot be
   encoded the exception leaves the file with what was written before
   it.  The stored table is the frame as it was written. *)
Definition to_csv (df : DataFrame) (path : str) : M unit := λ w,
  match fs w !! Path.dirname path with
  | None => (Raise (NoParentError path), w)
  | Some _ =>
      if bool_decide (Path.basename path = []) then (Raise (IsADirectoryError path), w)
      else if forallb encodable (columns df) then
        let written := encodable_prefix (rows df) in
        let w' := write_file path (Csv {| columns := columns df; rows := written |}) w in
        if length written =? length (rows df) then (Ok tt, w')
        else (Raise UnicodeEncodeError, w')
      else (Raise UnicodeEncodeError, write_file path (Opaque EmptyDataError) w)
  end%nat.

Fixpoint add_new (seen : list str) (cols : list str) : list str :=
  match cols with
  | c :: cols' =>
      if bool_decide (c ∈ seen) then add_new seen cols' else add_new (seen ++ [c]) cols'
  | [] => seen
  end.

Fixpoint cell_of (name : str) (cols : list str) (row : list pyval) : pyval :=
  match cols, row with
  | c :: cols', v :: row' => if str_eqb c name then v else cell_of name cols' row'
  | _, _ => PNaN
  end.

(* pd.concat(dfs, ignore_index=True): the columns are those of all
   frames in order of first appearance, the rows follow each other, and a
   cell a frame has no column for is missing. *)
Definition concat (dfs : list DataFrame) : DataFrame :=
  let cols := foldl (λ seen df, add_new seen (columns df)) [] dfs in
  {| columns := cols;
     rows := dfs ≫= (λ df, (λ r, (λ c, cell_of c (columns df) r) <$> cols) <$> rows df) |}.

Definition endswith (suffix s : str) : bool := startswith (reverse suffix) (reverse s).

(* fnmatch of a name against *.csv, with glob's rule that a pattern not
   starting with a dot does not match a name starting with one *)
Definition matches_csv (name : str) : bool :=
  endswith (u ".csv") name && negb (startswith (u ".") name).

Definition listdir (dir : str) (w : World) : list str :=
  match fs w !! dir with
  | Some d => (map_to_list d).*1
  | None => []
  end.

(* glob(os.path.join(dir, "*.csv")) *)
Definition glob_csv (dir : str) : M (list str) := λ w,
  (Ok (Path.join dir <$> filter (λ n, matches_csv n) (listdir dir w)), w).

(* os.path.exists(path) *)
Definition path_exists (path : str) : M bool := λ w,
  (Ok (bool_decide (is_Some (fs w !! path)) || bool_decide (is_Some (lookup_file path w))), w).

(* os.makedirs(OUTPUT_DIR, exist_ok=True) *)
Definition makedirs_output : M unit := λ w,
  match lookup_file OUTPUT_DIR w with
  | Some _ => (Raise (Exn (u "FileExistsError") OUTPUT_DIR), w)
  | None =>
      let mk dir (m : gmap str (gmap str file)) :=
        match m !! dir with Some _ => m | None => <[dir := ∅]> m end in
      (Ok tt, {| fs := mk OUTPUT_DIR (mk BASE_DIR (fs w)); log := log w |})
  end.

(* ===================================================================== *)
(* 8. The script                                                         *)
(* ===================================================================== *)

(* def call_llama(prompt) *)
Definition call_llama (env : Env) (prompt : str) : M str := λ w,
  let w' := {| fs := fs w; log := log w ++ [Invoke prompt] |} in
  match ollama env (invocations (log w)) prompt with
  | inr stdout => (Ok (strip stdout), w')
  | inl e => (Raise e, w')
  end.

(* The try block of classify_text: json.loads and the two subscripts.
   None stands for any exception, all of which the except clause
   swallows. *)
Definition fields_of (cleaned_json : str) : option (pyval * pyval) :=
  parsed ← Json.loads cleaned_json;
  category ← Json.getitem parsed (u "category");
  reason ← Json.getitem parsed (u "reason");
  Some (category, reason).

(* One pass through the body of the retry loop after the model has
   answered: extract_json, the test of its result and the try block. *)
Definition parse_answer (output : str) : option (pyval * pyval) :=
  match extract_json output with
  | None | Some [] => None
  | Some cleaned_json => fields_of cleaned_json
  end.

(* for _ in range(n): ... ; return "ERROR", output
   output is the variable the loop assigns; it is unbound before the
   first pass, which range(MAX_RETRY) always makes. *)
Fixpoint retry (env : Env) (prompt : str) (n : nat) (output : str) : M (pyval * pyval) :=
  match n with
  | O => ret (PStr (u "ERROR"), PStr output)
  | S n' =>
      output <- call_llama env prompt ;;
      match parse_answer output with
      | Some answer => ret answer
      | None => emit Sleep ;; retry env prompt n' output
      end
  end.

(* def classify_text(text) *)
Definition classify_text (env : Env) (text : str) : M (pyval * pyval) :=
  retry env (build_prompt text) MAX_RETRY [].

(* the body of the try block of process_file *)
Definition process_body (env : Env) (input_path filename output_path : str) : M str :=
  df <- read_csv input_path ;;
  let df := strip_columns df in
  if negb (has_column DATA_COLUMN df) then ret (u "Column missing: " ++ filename)
  else
    row <- iloc0 df ;;
    let text := cell_text env DATA_COLUMN (columns df) row in
    ' (category, reason) <- classify_text env text ;;
    df <- set_column env (u "Category") category df ;;
    df <- set_column env (u "Reason") reason df ;;
    to_csv df output_path ;;
    ret (u "Done: " ++ filename).

(* def process_file(input_path): returns the status line *)
Definition process_file (env : Env) (input_path : str) (w : World) : str * World :=
  let filename := Path.basename input_path in
  let output_path := Path.join OUTPUT_DIR filename in
  match process_body env input_path filename output_path w with
  | (Ok status, w') => (status, w')
  | (Raise e, w') => (u "Error in " ++ filename ++ u ": " ++ exn_str e, w')
  end.

Fixpoint read_all (files : list str) : M (list DataFrame) :=
  match files with
  | [] => ret []
  | f :: files' =>
      df <- read_csv f ;;
      dfs <- read_all files' ;;
      ret (df :: dfs)
  end.

(* def merge_outputs() *)
Definition merge_outputs : M unit :=
  csv_files <- glob_csv OUTPUT_DIR ;;
  match csv_files with
  | [] => print (u "No classified files found.")
  | _ :: _ =>
      df_list <- read_all csv_files ;;
      let merged_df := concat df_list in
      to_csv merged_df FINAL_OUTPUT ;;
      print ([newline] ++ u "Final merged file saved to: " ++ FINAL_OUTPUT)
  end.

(* The worker pool.  Every file is submitted first; the workers are then
   run one after the other in the order of submission, each result
   printed as it arrives.  Workers write to different paths, so only the
   order of the log lines and the numbering of the model processes
   depend on that choice. *)
Fixpoint run_workers (env : Env) (files : list str) : M unit :=
  match files with
  | [] => ret tt
  | f :: files' =>
      status <- (λ w, let '(s, w') := process_file env f w in (Ok s, w')) ;;
      print status ;;
      run_workers env files'
  end.

Fixpoint submit_all (files : list str) : M unit :=
  match files with
  | [] => ret tt
  | f :: files' => emit (Submit f) ;; submit_all files'
  end.

(* the files of the input directory that main hands to the pool *)
Definition remaining_files (input_files output_files : list str) : list str :=
  let processed_files : gset str := list_to_set (Path.basename <$> output_files) in
  filter (λ f, Path.basename f ∉ processed_files) input_files.

(* def main() *)
Definition main (env : Env) : M unit :=
  found <- path_exists INPUT_DIR ;;
  if negb found then
    print (u "Input directory not found: " ++ INPUT_DIR) ;; raise (SystemExit 1)
  else
    input_files <- glob_csv INPUT_DIR ;;
    match input_files with
    | [] => print (u "No CSV files found.") ;; raise (SystemExit 1)
    | _ :: _ =>
        output_files <- glob_csv OUTPUT_DIR ;;
        let processed : gset str := list_to_set (Path.basename <$> output_files) in
        let remaining := remaining_files input_files output_files in
        print (u "Total files: " ++ decimal (length input_files)) ;;
        print (u "Already processed: " ++ decimal (size processed)) ;;
        print (u "Remaining: " ++ decimal (length remaining)) ;;
        print (u "Using " ++ decimal MAX_WORKERS ++ u " workers" ++ [newline]) ;;
        submit_all remaining ;;
        run_workers env remaining ;;
        merge_outputs ;;
        emit PrintElapsed
    end.

(* Running the file as a program: the module level, then main() *)
Definition script (env : Env) : M unit := makedirs_output ;; main env.

(* ===================================================================== *)
(* 9. Vocabulary of the statements                                       *)
(* ===================================================================== *)

Local Close Scope N_scope.

(* The trace of k passes through the loop that did not return *)
Fixpoint failed (prompt : str) (k : nat) : list event :=
  match k with
  | O => []
  | S k' => Invoke prompt :: Sleep :: failed prompt k'
  end.

(* The model process started as attempt number k (from 0) after w prints
   text from which no answer is obtained. *)
Definition attempt_fails (env : Env) (prompt : str) (w : World) (k : nat) : Prop :=
  ∃ stdout, ollama env (invocations (log w) + k) prompt = inr stdout
            ∧ parse_answer (strip stdout) = None.

(* ... prints text from which this answer is obtained *)
Definition attempt_gives (env : Env) (prompt : str) (w : World) (k : nat)
    (answer : pyval * pyval) : Prop :=
  ∃ stdout, ollama env (invocations (log w) + k) prompt = inr stdout
            ∧ parse_answer (strip stdout) = Some answer.

(* ... prints this text *)
Definition attempt_prints (env : Env) (prompt : str) (w : World) (k : nat)
    (output : str) : Prop :=
  ∃ stdout, ollama env (invocations (log w) + k) prompt = inr stdout
            ∧ strip stdout = output.

Definition logged (w : World) (evs : list event) : World :=
  {| fs := fs w; log := log w ++ evs |}.

(* A directory path as the script writes them: not empty, no slash at
   the end *)
Definition plain_dir (dir : str) : Prop :=
  ∃ c r, reverse dir = c :: r ∧ c ≠ Path.slash.

(* where process_file writes the unit read from input_path *)
Definition output_path (input_path : str) : str :=
  Path.join OUTPUT_DIR (Path.basename input_path).

(* the three kinds of status line *)
Definition done_status (filename : str) : str := u "Done: " ++ filename.
Definition missing_status (filename : str) : str := u "Column missing: " ++ filename.
Definition error_status (filename : str) (e : exn) : str :=
  u "Error in " ++ filename ++ u ": " ++ exn_str e.

(* the statements of process_file after the call of classify_text *)
Definition persist (env : Env) (filename out : str) (df : DataFrame)
    (answer : pyval * pyval) : M str :=
  df <- set_column env (u "Category") answer.1 df ;;
  df <- set_column env (u "Reason") answer.2 df ;;
  to_csv df out ;;
  ret (u "Done: " ++ filename).

(* every row has a cell for every column *)
Definition rectangular (df : DataFrame) : Prop :=
  Forall (λ r, length r = length (columns df)) (rows df).

(* the cells each row has under the columns of that name *)
Definition column_of (name : str) (df : DataFrame) : list (list pyval) :=
  select name (columns df) <$> rows df.

(* column labels and cells can all be written *)
Definition encodable_frame (df : DataFrame) : Prop :=
  Forall (λ c, encodable c = true) (columns df)
  ∧ Forall (Forall (λ v, cell_encodable v = true)) (rows df).

(* The frame process_file writes when the classifier returned answer and
   pandas gave these cells for the two values *)
Definition output_frame (df : DataFrame) (category reason : nat → pyval) : DataFrame :=
  with_column (u "Reason") reason (with_column (u "Category") category (strip_columns df)).

(* the text of a unit: str() of the data cell of its first row *)
Definition unit_text (env : Env) (df : DataFrame) : str :=
  match rows df with
  | r :: _ => cell_text env DATA_COLUMN (strip <$> columns df) r
  | [] => []
  end.

(* a value that pandas repeats down the column *)
Definition is_scalar (v : pyval) : Prop :=
  match v with
  | PList _ | PDict _ => False
  | _ => True
  end.

(* the entries of a directory; a directory that is not there has none *)
Definition entries (m : gmap str (gmap str file)) (dir : str) : gmap str file :=
  default ∅ (m !! dir).

(* m' differs from m at most in the entries A names *)
Definition changed_only (A : str → str → Prop) (m m' : gmap str (gmap str file)) : Prop :=
  ∀ dir n, ¬ A dir n → entries m' dir !! n = entries m dir !! n.

(* the paths main gets from glob for a directory *)
Definition csv_files (dir : str) (w : World) : list str :=
  Path.join dir <$> filter (λ n, matches_csv n) (listdir dir w).

(* the number of rows of the table at a path *)
Definition row_count (w : World) (path : str) : nat :=
  match lookup_file path w with
  | Some (Csv t) => length (rows t)
  | _ => 0
  end.

(* the paths of the Submit events of a trace *)
Definition submitted (evs : list event) : list str :=
  omap (λ e, match e with Submit p => Some p | _ => None end) evs.

(* no entry of the input or output directory has a slash in its name *)
Definition wf_names (w : World) : Prop :=
  forallb (λ n, negb (bool_decide (Path.slash ∈ n)))
          (listdir INPUT_DIR w ++ listdir OUTPUT_DIR w) = true.

Definition no_outputs_line : str := u "No classified files found.".
Definition merged_line : str := [newline] ++ u "Final merged file saved to: " ++ FINAL_OUTPUT.

Definition final_name : str := u "classified_natcomm_2023_by_gemma_all.csv".

(* the entries a run that dispatches these files can write *)
Definition may_write (files : list str) (dir n : str) : Prop :=
  (dir = OUTPUT_DIR ∧ n ∈ Path.basename <$> files) ∨ (dir = BASE_DIR ∧ n = final_name).

(* the inputs a run dispatches from w *)
Definition dispatch (w : World) : list str :=
  remaining_files (csv_files INPUT_DIR w) (csv_files OUTPUT_DIR w).

(* the inputs for which w holds no output file *)
Definition pending (w : World) : list str :=
  filter (λ f, lookup_file (output_path f) w = None) (csv_files INPUT_DIR w).

(* old occurs in s *)
Definition occurs (old s : str) : Prop := ∃ a b, s = a ++ old ++ b.

(* the text has an opening brace with a closing brace somewhere after it *)
Definition has_span (text : str) : Prop :=
  ∃ a b c, text = a ++ lbrace :: b ++ rbrace :: c.

(* a string that stands for itself between double quotes in JSON *)
Definition plain (s : str) : Prop :=
  Forall (λ c, c ≠ dquote ∧ c ≠ Json.backslash ∧ (32 ≤ c)%N) s.

Definition backtick : N := 96%N.

(* Sample surroundings for the concrete instances below *)

(* the answer the prompt asks for *)
Definition answer_json (category reason : str) : str :=
  u "{" ++ q (u "category") ++ u ": " ++ q category ++ u ", "
  ++ q (u "reason") ++ u ": " ++ q reason ++ u "}".

(* a model that prints the given texts one process after the other, and
   a pandas that refuses lists and dicts as column values *)
Definition scripted (outputs : list str) : Env :=
  {| ollama := λ k _, inr (nth k outputs []);
     render := λ _ _, [];
     assign_container := λ _ _,
       inl (Exn (u "ValueError") (u "Length of values does not match length of index")) |}.

Definition world_of (inputs outputs : list (str * file)) : World :=
  {| fs := {[ BASE_DIR := ∅;
              INPUT_DIR := list_to_map inputs;
              OUTPUT_DIR := list_to_map outputs ]};
     log := [] |}.

Definition statement_unit : DataFrame :=
  {| columns := [u "doi"; u " data "];
     rows := [[PStr (u "10.1000/1"); PStr (u "All data are deposited in Zenodo.")]] |}.

Definition two_row_unit : DataFrame :=
  {| columns := [u "doi"; u "data"];
     rows := [[PStr (u "10.1000/2"); PStr (u "Data are available on request.")];
              [PStr (u "10.1000/3"); PStr (u "No data were generated.")]] |}.

Definition null_unit : DataFrame :=
  {| columns := [u "doi"; u "data"]; rows := [[PStr (u "10.1000/4"); PNaN]] |}.

Definition other_unit : DataFrame :=
  {| columns := [u "doi"; u "statement"];
     rows := [[PStr (u "10.1000/5"); PStr (u "See the supplement.")]] |}.

(* Three units of one row each, and a model whose first output is an
   answer, whose fourth is the next answer and whose others are not *)
Definition unit_of (text : str) : DataFrame :=
  {| columns := [u "data"]; rows := [[PStr text]] |}.

Definition three_units : World :=
  world_of [(u "A.csv", Csv (unit_of (u "Deposited in GEO.")));
            (u "B.csv", Csv (unit_of (u "Available from the authors.")));
            (u "C.csv", Csv (unit_of (u "Not applicable.")))] [].

Definition three_units_model : Env :=
  scripted [answer_json (u "Fully Public Repository Deposition") (u "GEO");
            u "I am not sure."; u "{oops";
            answer_json (u "Author Upon Request Only") (u "authors");
            u "1"; u "2"; u "3"].

(* the table of the final file, if there is one *)
Definition final_table (w : World) : option DataFrame :=
  match lookup_file FINAL_OUTPUT w with
  | Some (Csv t) => Some t
  | _ => None
  end.

Definition a_csv : str := Path.join INPUT_DIR (u "a.csv").

(* the lines of the Print events of a trace *)
Definition printed (evs : list event) : list str :=
  omap (λ e, match e with Print line => Some line | _ => None end) evs.

(* a status line of the unit at a path *)
Definition is_status (path line : str) : Prop :=
  line = done_status (Path.basename path)
  ∨ line = missing_status (Path.basename path)
  ∨ ∃ e, line = error_status (Path.basename path) e.

(* A machine on which the program ollama is not installed: subprocess.run
   raises for every call. *)
Definition no_ollama : Env :=
  {| ollama := λ _ _,
       inl (Exn (u "FileNotFoundError") (u "[Errno 2] No such file or directory: 'ollama'"));
     render := λ _ _, [];
     assign_container := λ _ _,
       inl (Exn (u "ValueError") (u "Length of values does not match length of index")) |}.

(* a table with its header and no rows *)
Definition header_only : DataFrame :=
  {| columns := [u "doi"; u "data"]; rows := [] |}.

(* ===================================================================== *)
(* 10. The parser and the extractor on examples                          *)
(* ===================================================================== *)

Section Examples.

Local Open Scope N_scope.

Example extract_json_plain :
  extract_json (u "ok ```json{a}``` bye") = Some (u "{a}").
Proof. vm_compute. reflexivity. Qed.

Example loads_two_fields :
  Json.loads (u "{" ++ q (u "category") ++ u ": " ++ q (u "AA\n") ++ u ", "
              ++ q (u "reason") ++ u ":[1, -2.5e3, null, {}]} ")
  = Some (PDict [(u "category", PStr [65; 65; 10]);
                 (u "reason", PList [PInt 1; PFloat (u "-2.5e3"); PNone; PDict []])]).
Proof. vm_compute. reflexivity. Qed.

Example loads_lone_surrogate :
  Json.loads (q (u "\ud83d")) = Some (PStr [55357]).
Proof. vm_compute. reflexivity. Qed.

Example loads_surrogate_pair :
  Json.loads (q (u "\ud83d\ude00")) = Some (PStr [128512]).
Proof. vm_compute. reflexivity. Qed.

Example loads_trailing_garbage : Json.loads (u "{} x") = None.
Proof. vm_compute. reflexivity. Qed.

End Examples.

(* ===================================================================== *)
(* 11. json.loads never runs out of fuel                                 *)
(* ===================================================================== *)

Section Fuel.

Import Json.

Lemma skip_ws_length s : length (skip_ws s) ≤ length s.
Proof. induction s as [|c s IH]; simpl; [done|]. destruct (is_ws c); simpl; lia. Qed.

Lemma push_Some c x k r : push c x = Some (k, r) → ∃ k', x = Some (k', r).
Proof. destruct x as [[k' r']|]; simpl; [|done]. intros. simplify_eq. eauto. Qed.

Lemma scanstring_length n : ∀ s k r,
  length s ≤ n → scanstring s = Some (k, r) → length r < length s.
Proof.
  induction n as [|n IH]; intros s k r Hn H.
  - destruct s; [done|simpl in Hn; lia].
  - destruct s as [|c s1]; [done|]. cbn [scanstring] in H. cbn [length] in Hn.
    repeat (case_match; simplify_eq; try done);
      cbn [length] in *; try lia;
      match goal with
      | H : push _ _ = Some _ |- _ =>
          apply push_Some in H as [? H]; apply IH in H; cbn [length] in *; lia
      end.
Qed.

Lemma span_digits_length s : ∀ ds r, span_digits s = (ds, r) → length r ≤ length s.
Proof.
  induction s as [|c s IH]; intros ds r H; simpl in H; [by simplify_eq|].
  destruct (isdigit c); [|by simplify_eq].
  destruct (span_digits s) as [ds' r'] eqn:E. simplify_eq.
  specialize (IH _ _ eq_refl). simpl. lia.
Qed.

Lemma scan_number_length s v r : scan_number s = Some (v, r) → length r < length s.
Proof.
  unfold scan_number, scan_int_part, scan_frac, scan_exp. intros H.
  repeat (case_match; simplify_eq; try done);
    repeat match goal with
    | H : span_digits _ = _ |- _ => apply span_digits_length in H
    end; cbn [length] in *; lia.
Qed.

Lemma startswith_at_least old s : startswith old s = true → length old ≤ length s.
Proof.
  revert s. induction old as [|o old IH]; intros [|x s] H; simpl in *; try done; try lia.
  apply andb_true_iff in H as [_ H]. apply IH in H. lia.
Qed.

Lemma constant_length (word s : str) n :
  startswith word s = true → 0 < n → n ≤ length word → length (drop n s) < length s.
Proof.
  intros H Hn Hw. apply startswith_at_least in H. rewrite length_drop. lia.
Qed.

Lemma scan_lengths f :
  (∀ s v r, scan_once f s = Some (v, r) → length r < length s)
  ∧ (∀ acc s v r, parse_members f acc s = Some (v, r) → length r < length s)
  ∧ (∀ acc s v r, parse_elements f acc s = Some (v, r) → length r < length s).
Proof.
  induction f as [|f (IHv & IHm & IHe)]; [done|]. split_and!.
  - intros [|c s'] v r H; [done|]. cbn [scan_once] in H.
    repeat (case_match; simplify_eq; try done);
      repeat match goal with
      | H : scanstring _ = Some _ |- _ => apply (scanstring_length _ _ _ _ (le_n _)) in H
      | H : parse_members f _ _ = Some _ |- _ => apply IHm in H
      | H : parse_elements f _ _ = Some _ |- _ => apply IHe in H
      | H : scan_number _ = Some _ |- _ => apply scan_number_length in H
      | H : skip_ws ?x = _ |- _ =>
          pose proof (skip_ws_length x); rewrite H in *; clear H
      | H : startswith _ _ = true |- _ =>
          eapply constant_length in H; [exact H|lia|vm_compute; lia]
      end; cbn [length] in *; lia.
  - intros acc [|c s'] v r H; [done|]. cbn [parse_members] in H.
    repeat (case_match; simplify_eq; try done);
      repeat match goal with
      | H : scanstring _ = Some _ |- _ => apply (scanstring_length _ _ _ _ (le_n _)) in H
      | H : parse_members f _ _ = Some _ |- _ => apply IHm in H
      | H : scan_once f _ = Some _ |- _ => apply IHv in H
      end;
      repeat match goal with
      | H : skip_ws ?x = _ |- _ =>
          pose proof (skip_ws_length x); rewrite H in *; clear H
      | H : context [skip_ws ?x] |- _ =>
          lazymatch goal with
          | _ : length (skip_ws x) ≤ length x |- _ => fail
          | _ => pose proof (skip_ws_length x)
          end
      end; cbn [length] in *; lia.
  - intros acc s v r H. cbn [parse_elements] in H.
    repeat (case_match; simplify_eq; try done);
      repeat match goal with
      | H : parse_elements f _ _ = Some _ |- _ => apply IHe in H
      | H : scan_once f _ = Some _ |- _ => apply IHv in H
      end;
      repeat match goal with
      | H : skip_ws ?x = _ |- _ =>
          pose proof (skip_ws_length x); rewrite H in *; clear H
      | H : context [skip_ws ?x] |- _ =>
          lazymatch goal with
          | _ : length (skip_ws x) ≤ length x |- _ => fail
          | _ => pose proof (skip_ws_length x)
          end
      end; cbn [length] in *; lia.
Qed.

Ltac skip_ws_bounds :=
  repeat match goal with
  | H : skip_ws ?x = _ |- _ =>
      pose proof (skip_ws_length x); rewrite H in *; clear H
  | |- context [skip_ws ?x] =>
      lazymatch goal with
      | _ : length (skip_ws x) ≤ length x |- _ => fail
      | _ => pose proof (skip_ws_length x)
      end
  end.

Lemma fuel_stable f :
  (∀ s f', 2 * length s < f → f ≤ f' → scan_once f' s = scan_once f s)
  ∧ (∀ acc s f', 2 * length s + 1 < f → f ≤ f' →
       parse_members f' acc s = parse_members f acc s)
  ∧ (∀ acc s f', 2 * length s + 1 < f → f ≤ f' →
       parse_elements f' acc s = parse_elements f acc s).
Proof.
  induction f as [|f (IHv & IHm & IHe)]; [split_and!; intros; lia|].
  destruct (scan_lengths f) as (Lv & Lm & Le).
  split_and!.
  - intros [|c s'] [|f'] Hlen Hf; [lia|done|lia|]. cbn [scan_once length] in *.
    repeat (case_match; try done).
    + apply IHm; [|lia]. skip_ws_bounds. cbn [length] in *. lia.
    + apply IHe; [|lia]. skip_ws_bounds. cbn [length] in *. lia.
  - intros acc [|c s'] [|f'] Hlen Hf; [lia|done|lia|]. cbn [parse_members length] in *.
    destruct (c =? dquote)%N; [|done].
    destruct (scanstring s') as [[k r]|] eqn:Hk; [|done].
    apply (scanstring_length _ _ _ _ (le_n _)) in Hk.
    destruct (skip_ws r) as [|c2 r2] eqn:Hr; [done|].
    destruct (c2 =? colon)%N; [|done].
    skip_ws_bounds. cbn [length] in *.
    rewrite (IHv (skip_ws r2) f') by lia.
    destruct (scan_once f (skip_ws r2)) as [[v r3]|] eqn:Hv; [|done].
    apply Lv in Hv.
    destruct (skip_ws r3) as [|c4 r4] eqn:Hr3; [done|].
    destruct (c4 =? rbrace)%N; [done|]. destruct (c4 =? comma)%N; [|done].
    skip_ws_bounds. cbn [length] in *. apply IHm; lia.
  - intros acc s [|f'] Hlen Hf; [lia|]. cbn [parse_elements] in *.
    rewrite (IHv s f') by lia.
    destruct (scan_once f s) as [[v r]|] eqn:Hv; [|done].
    apply Lv in Hv.
    destruct (skip_ws r) as [|c r'] eqn:Hr; [done|].
    destruct (c =? rbracket)%N; [done|]. destruct (c =? comma)%N; [|done].
    skip_ws_bounds. cbn [length] in *. apply IHe; lia.
Qed.

(* More fuel than loads gives changes nothing. *)
Lemma fuel_enough s f :
  fuel_for s ≤ f → scan_once f (skip_ws s) = scan_once (fuel_for s) (skip_ws s).
Proof.
  intros Hf. destruct (fuel_stable (fuel_for s)) as (H & _).
  apply H; [|done]. pose proof (skip_ws_length s). unfold fuel_for. lia.
Qed.

End Fuel.

(* ===================================================================== *)
(* 12. The retry loop of classify_text                                   *)
(* ===================================================================== *)

Section Classifier.

Context (env : Env).

Lemma invocations_app l1 l2 :
  invocations (l1 ++ l2) = invocations l1 + invocations l2.
Proof. unfold invocations. by rewrite filter_app, length_app. Qed.

Lemma invocations_cons e l :
  invocations (e :: l) = (if is_invoke e then 1 else 0) + invocations l.
Proof.
  unfold invocations.
  destruct e; simpl; [done|..]; by rewrite filter_cons_False by (simpl; auto).
Qed.

Lemma invocations_failed prompt k : invocations (failed prompt k) = k.
Proof.
  induction k as [|k IH]; [done|].
  cbn [failed]. rewrite !invocations_cons. simpl. by rewrite IH.
Qed.

Lemma failed_snoc prompt k :
  failed prompt (S k) = failed prompt k ++ [Invoke prompt; Sleep].
Proof. induction k as [|k IH]; [done|]. simpl in *. by rewrite IH. Qed.

Lemma logged_logged w l1 l2 : logged (logged w l1) l2 = logged w (l1 ++ l2).
Proof. unfold logged. simpl. by rewrite app_assoc. Qed.

Lemma logged_nil w : logged w [] = w.
Proof. destruct w. unfold logged. simpl. by rewrite app_nil_r. Qed.

Lemma call_llama_prints prompt w stdout :
  ollama env (invocations (log w)) prompt = inr stdout →
  call_llama env prompt w = (Ok (strip stdout), logged w [Invoke prompt]).
Proof. intros H. unfold call_llama. by rewrite H. Qed.

Lemma call_llama_raises prompt w e :
  ollama env (invocations (log w)) prompt = inl e →
  call_llama env prompt w = (Raise e, logged w [Invoke prompt]).
Proof. intros H. unfold call_llama. by rewrite H. Qed.

Lemma attempt_shift prompt w k (P : exn + str → Prop) :
  P (ollama env (invocations (log w) + S k) prompt) →
  P (ollama env (invocations (log (logged w [Invoke prompt; Sleep])) + k) prompt).
Proof.
  cbn [logged log]. rewrite invocations_app, !invocations_cons. simpl.
  change (invocations []) with 0.
  by replace (invocations (log w) + 1 + k) with (invocations (log w) + S k) by lia.
Qed.

(* A pass that gets no answer leaves the loop where it was, one pass
   shorter. *)
Lemma retry_step_fails prompt n output w :
  attempt_fails env prompt w 0 →
  ∃ output', attempt_prints env prompt w 0 output' ∧
    retry env prompt (S n) output w
    = retry env prompt n output' (logged w [Invoke prompt; Sleep]).
Proof.
  intros (stdout & Hout & Hparse). rewrite Nat.add_0_r in Hout.
  exists (strip stdout). split.
  { exists stdout. by rewrite Nat.add_0_r. }
  simpl. unfold bind at 1. rewrite (call_llama_prints _ _ _ Hout), Hparse.
  unfold bind, emit. simpl. unfold logged. simpl.
  by rewrite <- app_assoc.
Qed.

(* The first answer ends the loop at once. *)
Lemma retry_succeeds prompt n : ∀ k output w answer,
  k < n →
  (∀ j, j < k → attempt_fails env prompt w j) →
  attempt_gives env prompt w k answer →
  retry env prompt n output w
  = (Ok answer, logged w (failed prompt k ++ [Invoke prompt])).
Proof.
  induction n as [|n IH]; intros k output w answer Hk Hfail Hgive; [lia|].
  destruct k as [|k].
  - destruct Hgive as (stdout & Hout & Hparse). rewrite Nat.add_0_r in Hout.
    simpl. unfold bind. by rewrite (call_llama_prints _ _ _ Hout), Hparse.
  - destruct (retry_step_fails prompt n output w) as (output' & _ & ->).
    { apply Hfail. lia. }
    rewrite (IH k output' _ answer); [|lia| |].
    + by rewrite logged_logged.
    + intros j Hj. destruct (Hfail (S j)) as (stdout & Hout & Hparse); [lia|].
      exists stdout. split; [|done].
      by apply (attempt_shift prompt w j (λ r, r = inr stdout)).
    + destruct Hgive as (stdout & Hout & Hparse).
      exists stdout. split; [|done].
      by apply (attempt_shift prompt w k (λ r, r = inr stdout)).
Qed.

(* When no pass gets an answer the loop ends with the text of the last
   one. *)
Lemma retry_exhausted prompt n : ∀ output w last,
  (∀ j, j < S n → attempt_fails env prompt w j) →
  attempt_prints env prompt w n last →
  retry env prompt (S n) output w
  = (Ok (PStr (u "ERROR"), PStr last), logged w (failed prompt (S n))).
Proof.
  induction n as [|n IH]; intros output w last Hfail Hlast.
  - destruct (retry_step_fails prompt 0 output w) as (output' & Hprints & ->).
    { apply Hfail. lia. }
    destruct Hprints as (s1 & Hs1 & <-). destruct Hlast as (s2 & Hs2 & <-).
    rewrite Hs1 in Hs2. by injection Hs2 as ->.
  - destruct (retry_step_fails prompt (S n) output w) as (output' & _ & ->).
    { apply Hfail. lia. }
    rewrite (IH output' _ last).
    + by rewrite logged_logged.
    + intros j Hj. destruct (Hfail (S j)) as (stdout & Hout & Hparse); [lia|].
      exists stdout. split; [|done].
      by apply (attempt_shift prompt w j (λ r, r = inr stdout)).
    + destruct Hlast as (stdout & Hout & Hstrip).
      exists stdout. split; [|done].
      by apply (attempt_shift prompt w n (λ r, r = inr stdout)).
Qed.

(* Whatever the model does, the loop only adds model processes for this
   prompt and pauses to the log, at most n processes, and touches no
   file. *)
Lemma retry_trace prompt n : ∀ output w,
  ∃ evs, (retry env prompt n output w).2 = logged w evs
         ∧ invocations evs ≤ n
         ∧ Forall (λ e, e = Invoke prompt ∨ e = Sleep) evs.
Proof.
  induction n as [|n IH]; intros output w.
  - exists []. simpl. by rewrite logged_nil.
  - simpl. unfold bind at 1, call_llama.
    destruct (ollama env (invocations (log w)) prompt) as [e|stdout].
    + exists [Invoke prompt]. simpl. split_and!; [done|unfold invocations; simpl; lia|].
      constructor; [by left|done].
    + destruct (parse_answer (strip stdout)) as [answer|].
      * exists [Invoke prompt]. simpl. split_and!; [done|unfold invocations; simpl; lia|].
        constructor; [by left|done].
      * unfold bind, emit. simpl.
        match goal with |- context [retry env prompt n ?o ?w1] =>
          destruct (IH o w1) as (evs & Hw & Hn & Hall) end.
        exists (Invoke prompt :: Sleep :: evs). rewrite Hw. split_and!.
        -- unfold logged. simpl. by rewrite <- !app_assoc.
        -- change (Invoke prompt :: Sleep :: evs) with ([Invoke prompt; Sleep] ++ evs).
           rewrite invocations_app. unfold invocations at 1. simpl. lia.
        -- constructor; [by left|]. constructor; [by right|done].
Qed.

(* One pass of the loop *)
Lemma retry_unfold prompt n output w :
  retry env prompt (S n) output w
  = match ollama env (invocations (log w)) prompt with
    | inl e => (Raise e, logged w [Invoke prompt])
    | inr stdout =>
        match parse_answer (strip stdout) with
        | Some answer => (Ok answer, logged w [Invoke prompt])
        | None => retry env prompt n (strip stdout) (logged w [Invoke prompt; Sleep])
        end
    end.
Proof.
  simpl. unfold bind at 1, call_llama.
  destruct (ollama env (invocations (log w)) prompt) as [e|stdout]; [done|].
  destruct (parse_answer (strip stdout)); [done|].
  unfold bind, emit, logged. simpl. by rewrite <- app_assoc.
Qed.

Lemma attempt_index prompt w k :
  invocations (log (logged w [Invoke prompt; Sleep])) + k
  = invocations (log w) + S k.
Proof.
  cbn [logged log]. rewrite invocations_app, !invocations_cons. simpl.
  change (invocations []) with 0. lia.
Qed.

(* An answer that is returned is the text ERROR or was obtained from one
   of the model processes. *)
Lemma retry_result prompt n : ∀ output w category reason w',
  retry env prompt n output w = (Ok (category, reason), w') →
  category = PStr (u "ERROR")
  ∨ ∃ k, k < n ∧ attempt_gives env prompt w k (category, reason).
Proof.
  induction n as [|n IH]; intros output w category reason w' Hret.
  - left. simpl in Hret. unfold ret in Hret. congruence.
  - rewrite retry_unfold in Hret.
    destruct (ollama env (invocations (log w)) prompt) as [e|stdout] eqn:Hout; [done|].
    destruct (parse_answer (strip stdout)) as [answer|] eqn:Hparse.
    + right. exists 0. split; [lia|]. exists stdout.
      rewrite Nat.add_0_r. split; [done|]. congruence.
    + apply IH in Hret as [->|(k & Hk & stdout' & Hout' & Hparse')]; [by left|].
      right. exists (S k). split; [lia|]. exists stdout'.
      by rewrite <- (attempt_index prompt).
Qed.

(* The files play no part in the loop. *)
Lemma retry_files prompt n : ∀ output w1 w2,
  log w1 = log w2 →
  (retry env prompt n output w1).1 = (retry env prompt n output w2).1
  ∧ log (retry env prompt n output w1).2 = log (retry env prompt n output w2).2.
Proof.
  induction n as [|n IH]; intros output w1 w2 Hlog; [done|].
  rewrite !retry_unfold, Hlog.
  destruct (ollama env (invocations (log w2)) prompt) as [e|stdout];
    [by simpl; rewrite Hlog|].
  destruct (parse_answer (strip stdout)); [by simpl; rewrite Hlog|].
  apply IH. simpl. by rewrite Hlog.
Qed.

End Classifier.

(* ===================================================================== *)
(* 12a. Every way through the retry loop                                 *)
(* ===================================================================== *)

Section Outcomes.

Context (env : Env).

Lemma attempt_fails_shift prompt w j :
  attempt_fails env prompt (logged w [Invoke prompt; Sleep]) j
  ↔ attempt_fails env prompt w (S j).
Proof. unfold attempt_fails. by rewrite attempt_index. Qed.

Lemma attempt_gives_shift prompt w j answer :
  attempt_gives env prompt (logged w [Invoke prompt; Sleep]) j answer
  ↔ attempt_gives env prompt w (S j) answer.
Proof. unfold attempt_gives. by rewrite attempt_index. Qed.

Lemma attempt_prints_shift prompt w j output :
  attempt_prints env prompt (logged w [Invoke prompt; Sleep]) j output
  ↔ attempt_prints env prompt w (S j) output.
Proof. unfold attempt_prints. by rewrite attempt_index. Qed.

Lemma fails_below_S prompt w k :
  attempt_fails env prompt w 0 →
  (∀ j, j < k → attempt_fails env prompt (logged w [Invoke prompt; Sleep]) j) →
  ∀ j, j < S k → attempt_fails env prompt w j.
Proof.
  intros H0 Hk [|j] Hj; [done|]. apply attempt_fails_shift, Hk. lia.
Qed.

(* A model process that cannot be run ends the loop with its exception:
   call_llama is called outside the try block. *)
Lemma retry_raises prompt n : ∀ k output w e,
  k < n →
  (∀ j, j < k → attempt_fails env prompt w j) →
  ollama env (invocations (log w) + k) prompt = inl e →
  retry env prompt n output w
  = (Raise e, logged w (failed prompt k ++ [Invoke prompt])).
Proof.
  induction n as [|n IH]; intros k output w e Hk Hfail Hraise; [lia|].
  destruct k as [|k].
  - rewrite Nat.add_0_r in Hraise. by rewrite retry_unfold, Hraise.
  - destruct (retry_step_fails env prompt n output w) as (output' & _ & ->).
    { apply Hfail. lia. }
    rewrite (IH k output' _ e); [|lia| |].
    + by rewrite logged_logged.
    + intros j Hj. apply attempt_fails_shift, Hfail. lia.
    + by rewrite attempt_index.
Qed.

(* Every way through the loop: the first attempt that yields an answer
   ends it with that answer, the first model process that cannot be run
   ends it with the exception, and when every attempt has been made in
   vain the result is ERROR with the last output. *)
Lemma retry_outcomes prompt n : ∀ output w,
  (∃ k answer, k < n
     ∧ (∀ j, j < k → attempt_fails env prompt w j)
     ∧ attempt_gives env prompt w k answer
     ∧ retry env prompt n output w
       = (Ok answer, logged w (failed prompt k ++ [Invoke prompt])))
  ∨ (∃ k e, k < n
       ∧ (∀ j, j < k → attempt_fails env prompt w j)
       ∧ ollama env (invocations (log w) + k) prompt = inl e
       ∧ retry env prompt n output w
         = (Raise e, logged w (failed prompt k ++ [Invoke prompt])))
  ∨ (∃ last, (∀ j, j < n → attempt_fails env prompt w j)
       ∧ (n = 0 ∧ last = output ∨ 0 < n ∧ attempt_prints env prompt w (n - 1) last)
       ∧ retry env prompt n output w
         = (Ok (PStr (u "ERROR"), PStr last), logged w (failed prompt n))).
Proof.
  induction n as [|n IH]; intros output w.
  { right. right. exists output. split_and!; [lia|by left|]. simpl. by rewrite logged_nil. }
  rewrite retry_unfold.
  destruct (ollama env (invocations (log w)) prompt) as [e|stdout] eqn:Hout.
  { right. left. exists 0, e. rewrite Nat.add_0_r. split_and!; [lia|lia|done|done]. }
  destruct (parse_answer (strip stdout)) as [answer|] eqn:Hparse.
  { left. exists 0, answer. split_and!; [lia|lia| |done].
    exists stdout. by rewrite Nat.add_0_r. }
  assert (attempt_fails env prompt w 0) as H0.
  { exists stdout. by rewrite Nat.add_0_r. }
  destruct (IH (strip stdout) (logged w [Invoke prompt; Sleep]))
    as [(k & answer & Hk & Hfail & Hgive & ->)
       |[(k & e & Hk & Hfail & Hraise & ->)|(last & Hfail & Hlast & ->)]].
  - left. exists (S k), answer. split_and!; [lia|by apply fails_below_S| |].
    + by apply attempt_gives_shift.
    + by rewrite logged_logged.
  - right. left. exists (S k), e. split_and!; [lia|by apply fails_below_S| |].
    + by rewrite <- (attempt_index prompt).
    + by rewrite logged_logged.
  - right. right. exists last. split_and!; [by apply fails_below_S| |].
    + right. split; [lia|]. destruct Hlast as [[-> ->]|[Hn Hlast]].
      * exists stdout. by rewrite Nat.add_0_r.
      * apply attempt_prints_shift in Hlast.
        by replace (S n - 1) with (S (n - 1)) by lia.
    + by rewrite logged_logged.
Qed.

(* What classify_text returns: the answer of the first attempt that
   yields one, or ERROR when none of the MAX_RETRY attempts does. *)
Lemma classify_text_answer text w category reason w1 :
  classify_text env text w = (Ok (category, reason), w1) →
  (∃ k, k < MAX_RETRY
        ∧ (∀ j, j < k → attempt_fails env (build_prompt text) w j)
        ∧ attempt_gives env (build_prompt text) w k (category, reason))
  ∨ (category = PStr (u "ERROR")
     ∧ ∀ j, j < MAX_RETRY → attempt_fails env (build_prompt text) w j).
Proof.
  unfold classify_text. intros Hrun.
  destruct (retry_outcomes (build_prompt text) MAX_RETRY [] w)
    as [(k & answer & Hk & Hfail & Hgive & Heq)
       |[(k & e & _ & _ & _ & Heq)|(last & Hfail & _ & Heq)]];
    rewrite Heq in Hrun; [|done|].
  - left. exists k. split_and!; [done..|]. congruence.
  - right. split; [congruence|done].
Qed.

(* An answer comes from a JSON object found in the output: the try block
   succeeds only on a dict that has both keys. *)
Lemma parse_answer_inv output category reason :
  parse_answer output = Some (category, reason) →
  ∃ obj d, extract_json output = Some obj
           ∧ Json.loads obj = Some (PDict d)
           ∧ Json.dict_get (u "category") d = Some category
           ∧ Json.dict_get (u "reason") d = Some reason.
Proof.
  unfold parse_answer. intros H.
  destruct (extract_json output) as [[|c obj]|]; [done| |done].
  unfold fields_of in H.
  destruct (Json.loads (c :: obj)) as [v|] eqn:Hloads; [|done].
  destruct v as [| | | | | |items|d]; try done.
  cbn [mbind option_bind Json.getitem] in H.
  destruct (Json.dict_get (u "category") d) as [cv|] eqn:Hcat; [|done].
  cbn [mbind option_bind] in H.
  destruct (Json.dict_get (u "reason") d) as [rv|] eqn:Hreason; [|done].
  cbn [mbind option_bind] in H. injection H as <- <-. by exists (c :: obj), d.
Qed.

End Outcomes.

(* ===================================================================== *)
(* 13. Paths and files                                                   *)
(* ===================================================================== *)

Section Paths.

Local Open Scope N_scope.

Lemma split_last_no_slash (name : str) :
  Path.slash ∉ name → Path.split_last name = ([], name).
Proof.
  induction name as [|c name IH]; intros Hno; [done|].
  simpl. rewrite IH by set_solver. simpl.
  assert (c ≠ Path.slash) as Hc by set_solver.
  apply N.eqb_neq in Hc. by rewrite Hc.
Qed.

Lemma split_last_join (head name : str) :
  Path.slash ∉ name →
  Path.split_last (head ++ [Path.slash] ++ name) = (head ++ [Path.slash], name).
Proof.
  intros Hno. induction head as [|c head IH]; simpl.
  - by rewrite split_last_no_slash.
  - simpl in IH. rewrite IH.
    destruct (head ++ [Path.slash]) eqn:E; [by destruct head|].
    rewrite bool_decide_eq_false_2 by done. simpl. by rewrite orb_true_r.
Qed.

Lemma split_last_tail_no_slash (p : str) : Path.slash ∉ (Path.split_last p).2.
Proof.
  induction p as [|c p IH]; simpl; [set_solver|].
  destruct (Path.split_last p) as [head tail]. simpl in *.
  destruct (c =? Path.slash) eqn:Hc; simpl; [done|].
  destruct (bool_decide (head = [])) eqn:Hh; simpl; [|done].
  apply N.eqb_neq in Hc. apply not_elem_of_cons. by split.
Qed.

Lemma basename_no_slash (p : str) : Path.slash ∉ Path.basename p.
Proof. apply split_last_tail_no_slash. Qed.

Lemma join_plain (dir name : str) :
  plain_dir dir → Path.slash ∉ name →
  Path.join dir name = dir ++ [Path.slash] ++ name.
Proof.
  intros (c & r & Hrev & Hc) Hno. unfold Path.join.
  apply N.eqb_neq in Hc.
  destruct name as [|x name]; cbn [startswith].
  - by rewrite Hrev, Hc.
  - assert (Path.slash ≠ x) as Hx by set_solver.
    apply N.eqb_neq in Hx. rewrite Hx. cbn [andb]. by rewrite Hrev, Hc.
Qed.

Lemma basename_join (dir name : str) :
  plain_dir dir → Path.slash ∉ name →
  Path.basename (Path.join dir name) = name.
Proof.
  intros Hd Hno. rewrite join_plain by done.
  unfold Path.basename. by rewrite split_last_join.
Qed.

Lemma dirname_join (dir name : str) :
  plain_dir dir → Path.slash ∉ name →
  Path.dirname (Path.join dir name) = dir.
Proof.
  intros Hd Hno. rewrite join_plain by done.
  unfold Path.dirname. rewrite split_last_join by done. simpl.
  destruct Hd as (c & r & Hrev & Hc).
  rewrite reverse_app. simpl. rewrite Hrev.
  apply N.eqb_neq in Hc. cbn [Path.rstrip_slashes_rev]. rewrite Hc.
  by rewrite <- Hrev, reverse_involutive.
Qed.

Lemma plain_INPUT_DIR : plain_dir INPUT_DIR.
Proof. eexists _, _. split; [vm_compute; reflexivity|done]. Qed.

Lemma plain_OUTPUT_DIR : plain_dir OUTPUT_DIR.
Proof. eexists _, _. split; [vm_compute; reflexivity|done]. Qed.

End Paths.

(* ===================================================================== *)
(* 14. process_file                                                      *)
(* ===================================================================== *)

Section Processing.

Context (env : Env).

Lemma bind_ok {A B} (m : M A) (k : A → M B) w a w' :
  m w = (Ok a, w') → bind m k w = k a w'.
Proof. intros H. unfold bind. by rewrite H. Qed.

Lemma bind_raise {A B} (m : M A) (k : A → M B) w e w' :
  m w = (Raise e, w') → bind m k w = (Raise e, w').
Proof. intros H. unfold bind. by rewrite H. Qed.

Lemma read_csv_table path w df :
  lookup_file path w = Some (Csv df) → read_csv path w = (Ok df, w).
Proof. intros H. unfold read_csv. by rewrite H. Qed.

Lemma read_csv_world path w : (read_csv path w).2 = w.
Proof. unfold read_csv. by repeat case_match. Qed.

Lemma set_column_world name v df w : (set_column env name v df w).2 = w.
Proof. unfold set_column. by destruct (column_cells _ _ _). Qed.

(* What a write can do to the world: nothing, or put some content under
   the name of the path in its directory, which exists. *)
Lemma to_csv_effect df path w :
  log (to_csv df path w).2 = log w ∧
  (fs (to_csv df path w).2 = fs w ∨
   ∃ d f, fs w !! Path.dirname path = Some d ∧ Path.basename path ≠ []
          ∧ fs (to_csv df path w).2
            = <[Path.dirname path := <[Path.basename path := f]> d]> (fs w)).
Proof.
  unfold to_csv. destruct (fs w !! Path.dirname path) as [d|] eqn:Hd; [|by split; [|left]].
  case_bool_decide as Hname; [by split; [|left]|].
  assert (∀ f, fs (write_file path f w)
               = <[Path.dirname path := <[Path.basename path := f]> d]> (fs w)) as Hw.
  { intros f. unfold write_file. simpl. by rewrite Hd. }
  destruct (forallb encodable (columns df)).
  - destruct (_ =? _)%nat; (split; [done|]); right; eauto.
  - split; [done|]. right; eauto.
Qed.

Lemma persist_log filename out df answer w :
  log (persist env filename out df answer w).2 = log w.
Proof.
  unfold persist, bind.
  pose proof (set_column_world (u "Category") answer.1 df w) as H1.
  destruct (set_column env (u "Category") answer.1 df w) as [[df1|e1] w1];
    simpl in H1; subst w1; [|done].
  pose proof (set_column_world (u "Reason") answer.2 df1 w) as H2.
  destruct (set_column env (u "Reason") answer.2 df1 w) as [[df2|e2] w2];
    simpl in H2; subst w2; [|done].
  pose proof (to_csv_effect df2 out w) as [Hlog _].
  by destruct (to_csv df2 out w) as [[[]|e3] w3].
Qed.

(* A failure of persist before the write leaves the files alone *)
Lemma persist_effect filename out df answer w :
  (∃ w', persist env filename out df answer w = (Ok (done_status filename), w')) ∨
  (∃ e, persist env filename out df answer w = (Raise e, w)) ∨
  (∃ e df', to_csv df' out w = (Raise e, (persist env filename out df answer w).2)
            ∧ (persist env filename out df answer w).1 = Raise e).
Proof.
  unfold persist, bind.
  pose proof (set_column_world (u "Category") answer.1 df w) as H1.
  destruct (set_column env (u "Category") answer.1 df w) as [[df1|e1] w1];
    simpl in H1; subst w1; [|right; left; eauto].
  pose proof (set_column_world (u "Reason") answer.2 df1 w) as H2.
  destruct (set_column env (u "Reason") answer.2 df1 w) as [[df2|e2] w2];
    simpl in H2; subst w2; [|right; left; eauto].
  destruct (to_csv df2 out w) as [[[]|e3] w3] eqn:Hcsv.
  - left. eauto.
  - right. right. exists e3, df2. by rewrite Hcsv.
Qed.

Lemma classify_text_trace text w :
  ∃ evs, (classify_text env text w).2 = logged w evs
         ∧ invocations evs ≤ MAX_RETRY
         ∧ Forall (λ e, e = Invoke (build_prompt text) ∨ e = Sleep) evs.
Proof. apply retry_trace. Qed.

(* The course of process_file up to the call of the classifier *)
Lemma process_body_missing path filename out w df :
  lookup_file path w = Some (Csv df) →
  DATA_COLUMN ∉ strip <$> columns df →
  process_body env path filename out w = (Ok (missing_status filename), w).
Proof.
  intros Hfile Hcol. unfold process_body.
  rewrite (bind_ok _ _ _ _ _ (read_csv_table _ _ _ Hfile)).
  unfold has_column. simpl. by rewrite bool_decide_eq_false_2.
Qed.

Lemma process_body_classifies path filename out w df r rest :
  lookup_file path w = Some (Csv df) →
  DATA_COLUMN ∈ strip <$> columns df →
  rows df = r :: rest →
  process_body env path filename out w
  = bind (classify_text env (cell_text env DATA_COLUMN (strip <$> columns df) r))
         (persist env filename out (strip_columns df)) w.
Proof.
  intros Hfile Hcol Hrows. unfold process_body.
  rewrite (bind_ok _ _ _ _ _ (read_csv_table _ _ _ Hfile)).
  unfold has_column. simpl. rewrite bool_decide_eq_true_2 by done. simpl.
  unfold iloc0. simpl. rewrite Hrows.
  unfold bind at 1, ret. unfold bind.
  destruct (classify_text env _ w) as [[[c rs]|e] w1]; done.
Qed.

Lemma process_body_no_rows path filename out w df :
  lookup_file path w = Some (Csv df) →
  DATA_COLUMN ∈ strip <$> columns df →
  rows df = [] →
  process_body env path filename out w = (Raise IndexError, w).
Proof.
  intros Hfile Hcol Hrows. unfold process_body.
  rewrite (bind_ok _ _ _ _ _ (read_csv_table _ _ _ Hfile)).
  unfold has_column. simpl. rewrite bool_decide_eq_true_2 by done. simpl.
  unfold iloc0. simpl. by rewrite Hrows.
Qed.

End Processing.

(* ===================================================================== *)
(* 15. The classifier: retry bound and terminal failure                  *)
(* ===================================================================== *)

(** C3: classify_text starts at most MAX_RETRY = 3 model processes for a
    text, whatever the model does.  When attempt k (counted from 0, so
    k < 3) is the first one whose output yields an answer, classify_text
    returns that answer at once: the trace of the call is the k failed
    passes followed by one more model process and nothing after it, so
    exactly k + 1 processes were started. *)
Theorem C3_retry_bound (env : Env) (text : str) (w : World) :
  invocations (log (classify_text env text w).2) ≤ invocations (log w) + MAX_RETRY
  ∧ ∀ k answer,
      k < MAX_RETRY →
      (∀ j, j < k → attempt_fails env (build_prompt text) w j) →
      attempt_gives env (build_prompt text) w k answer →
      classify_text env text w
      = (Ok answer,
         logged w (failed (build_prompt text) k ++ [Invoke (build_prompt text)]))
      ∧ invocations (log (classify_text env text w).2) = invocations (log w) + S k.
Proof.
  split.
  - destruct (classify_text_trace env text w) as (evs & -> & Hn & _).
    simpl. rewrite invocations_app. lia.
  - intros k answer Hk Hfail Hgive. unfold classify_text.
    rewrite (retry_succeeds env _ MAX_RETRY k [] w answer Hk Hfail Hgive).
    split; [done|]. simpl.
    rewrite !invocations_app, invocations_failed, invocations_cons. simpl.
    change (invocations []) with 0. lia.
Qed.

(** C6: when none of the MAX_RETRY = 3 attempts yields an answer,
    classify_text returns the category ERROR and, as the reason, the
    text call_llama returned for the last attempt (the standard output
    of the third model process, stripped). *)
Theorem C6_terminal_failure (env : Env) (text : str) (w : World) (last : str) :
  (∀ j, j < MAX_RETRY → attempt_fails env (build_prompt text) w j) →
  attempt_prints env (build_prompt text) w (MAX_RETRY - 1) last →
  classify_text env text w
  = (Ok (PStr (u "ERROR"), PStr last), logged w (failed (build_prompt text) MAX_RETRY)).
Proof.
  intros Hfail Hlast. unfold classify_text.
  by apply (retry_exhausted env (build_prompt text) 2 [] w last).
Qed.

(* ===================================================================== *)
(* 16. Frames: columns, cells and what the codec accepts                 *)
(* ===================================================================== *)

Section Frames.

Lemma str_eqb_eq a b : str_eqb a b = true ↔ a = b.
Proof. unfold str_eqb. by rewrite bool_decide_eq_true. Qed.

Lemma str_eqb_refl a : str_eqb a a = true.
Proof. by apply str_eqb_eq. Qed.

Lemma str_eqb_ne a b : a ≠ b → str_eqb a b = false.
Proof. intros H. unfold str_eqb. by rewrite bool_decide_eq_false. Qed.

Lemma forallb_Forall {A} (f : A → bool) l :
  forallb f l = true ↔ Forall (λ x, f x = true) l.
Proof.
  induction l as [|x l IH]; simpl; [by split; [constructor|]|].
  rewrite andb_true_iff, IH, Forall_cons. done.
Qed.

Lemma select_elem name cols row :
  select name cols row ≠ [] → name ∈ cols.
Proof.
  revert row. induction cols as [|c cols IH]; intros [|v row] H; simpl in H; try done.
  destruct (str_eqb c name) eqn:E.
  - apply str_eqb_eq in E as ->. left.
  - right. by apply (IH row).
Qed.

Lemma select_put_same name v cols row :
  Forall (λ x, x = v) (select name cols (put name v cols row)).
Proof.
  revert row. induction cols as [|c cols IH]; intros [|x row]; simpl; try done.
  destruct (str_eqb c name); [constructor|]; auto.
Qed.

Lemma select_put_nonempty name v cols row :
  name ∈ cols → length row = length cols →
  select name cols (put name v cols row) ≠ [].
Proof.
  revert row. induction cols as [|c cols IH]; intros [|x row] Hin Hlen;
    simpl in *; try done; [by apply elem_of_nil in Hin|].
  destruct (str_eqb c name) eqn:E; [done|].
  apply IH; [|lia]. apply elem_of_cons in Hin as [->|]; [|done].
  by rewrite str_eqb_refl in E.
Qed.

Lemma select_put_other name other v cols row :
  name ≠ other → select other cols (put name v cols row) = select other cols row.
Proof.
  intros Hne. revert row. induction cols as [|c cols IH]; intros [|x row]; simpl; try done.
  destruct (str_eqb c other) eqn:E.
  - apply str_eqb_eq in E as ->. rewrite str_eqb_ne by done. by rewrite IH.
  - apply IH.
Qed.

Lemma select_snoc_same name v cols row :
  name ∉ cols → length row = length cols →
  select name (cols ++ [name]) (row ++ [v]) = [v].
Proof.
  revert row. induction cols as [|c cols IH]; intros [|x row] Hin Hlen;
    simpl in *; try done.
  - by rewrite str_eqb_refl.
  - rewrite str_eqb_ne by set_solver. apply IH; [set_solver|lia].
Qed.

Lemma select_snoc_other name other v cols row :
  name ≠ other → length row = length cols →
  select other (cols ++ [name]) (row ++ [v]) = select other cols row.
Proof.
  intros Hne. revert row. induction cols as [|c cols IH]; intros [|x row] Hlen;
    simpl in *; try done.
  - by rewrite str_eqb_ne.
  - destruct (str_eqb c other); [f_equal|]; apply IH; lia.
Qed.

Lemma put_length name v cols row : length (put name v cols row) = length row.
Proof.
  revert row. induction cols as [|c cols IH]; intros [|x row]; simpl; auto.
Qed.

Lemma with_column_rows_length name cells df :
  length (rows (with_column name cells df)) = length (rows df).
Proof. unfold with_column. destruct (has_column name df); simpl; by rewrite length_imap. Qed.

Lemma with_column_rectangular name cells df :
  rectangular df → rectangular (with_column name cells df).
Proof.
  unfold rectangular, with_column. intros Hrect.
  destruct (has_column name df); simpl.
  - apply Forall_lookup. intros i r Hr. apply list_lookup_imap_Some in Hr as (r0 & Hr0 & ->).
    rewrite put_length. by eapply (Forall_lookup_1 _ _ _ _ Hrect).
  - apply Forall_lookup. intros i r Hr. apply list_lookup_imap_Some in Hr as (r0 & Hr0 & ->).
    rewrite !length_app. simpl. f_equal. by eapply (Forall_lookup_1 _ _ _ _ Hrect).
Qed.

(* The column that was set holds, in row i, the cell given for row i, at
   least once. *)
Lemma column_of_with_column_same name cells df i cs :
  rectangular df →
  column_of name (with_column name cells df) !! i = Some cs →
  cs ≠ [] ∧ Forall (λ x, x = cells i) cs.
Proof.
  unfold column_of, with_column, has_column, rectangular. intros Hrect Hcs.
  apply list_lookup_fmap_Some in Hcs as (r & -> & Hr).
  case_bool_decide as Hin; simpl in *;
    apply list_lookup_imap_Some in Hr as (r0 & Hr0 & ->);
    pose proof (Forall_lookup_1 _ _ _ _ Hrect Hr0) as Hlen; simpl in Hlen.
  - split; [by apply select_put_nonempty|apply select_put_same].
  - rewrite select_snoc_same by done. split; [done|by constructor].
Qed.

(* The other columns keep their cells. *)
Lemma column_of_with_column_other name other cells df :
  rectangular df → name ≠ other →
  column_of other (with_column name cells df) = column_of other df.
Proof.
  unfold column_of, with_column, has_column, rectangular. intros Hrect Hne.
  apply list_eq. intros i. rewrite !list_lookup_fmap.
  case_bool_decide as Hin; simpl; rewrite list_lookup_imap;
    destruct (rows df !! i) as [r|] eqn:Hr; simpl; try done; f_equal.
  - by apply select_put_other.
  - apply select_snoc_other; [done|].
    apply (Forall_lookup_1 _ _ _ _ Hrect Hr).
Qed.

Lemma encodable_prefix_all rs :
  Forall (Forall (λ v, cell_encodable v = true)) rs → encodable_prefix rs = rs.
Proof.
  induction 1 as [|r rs Hr _ IH]; [done|]. simpl.
  apply forallb_Forall in Hr. by rewrite Hr, IH.
Qed.

Lemma encodable_prefix_length rs :
  length (encodable_prefix rs) = length rs → encodable_prefix rs = rs.
Proof.
  induction rs as [|r rs IH]; [done|]. simpl.
  destruct (forallb cell_encodable r); simpl; [|done].
  intros H. f_equal. apply IH. lia.
Qed.

Lemma put_encodable name v cols row :
  cell_encodable v = true →
  Forall (λ v, cell_encodable v = true) row →
  Forall (λ v, cell_encodable v = true) (put name v cols row).
Proof.
  intros Hv. revert row. induction cols as [|c cols IH]; intros [|x row] Hrow;
    simpl; try done.
  apply Forall_cons in Hrow as [Hx Hrow].
  constructor; [by destruct (str_eqb c name)|by apply IH].
Qed.

Lemma with_column_encodable name cells df :
  encodable name = true → (∀ i, cell_encodable (cells i) = true) →
  encodable_frame df → encodable_frame (with_column name cells df).
Proof.
  unfold encodable_frame, with_column. intros Hname Hcells [Hcols Hrows].
  destruct (has_column name df); simpl; (split; [try done|]).
  - apply Forall_lookup. intros i r Hr.
    apply list_lookup_imap_Some in Hr as (r0 & Hr0 & ->).
    apply put_encodable; [done|]. apply (Forall_lookup_1 _ _ _ _ Hrows Hr0).
  - apply Forall_app. split; [done|by constructor].
  - apply Forall_lookup. intros i r Hr.
    apply list_lookup_imap_Some in Hr as (r0 & Hr0 & ->).
    apply Forall_app. split; [apply (Forall_lookup_1 _ _ _ _ Hrows Hr0)|].
    by constructor.
Qed.

Lemma lstrip_Forall (P : N → Prop) s : Forall P s → Forall P (lstrip s).
Proof.
  induction 1 as [|c s Hc Hs IH]; simpl; [done|].
  destruct (isspace c); [done|by constructor].
Qed.

Lemma strip_Forall (P : N → Prop) s : Forall P s → Forall P (strip s).
Proof.
  intros H. unfold strip, rstrip.
  apply Forall_reverse, lstrip_Forall, Forall_reverse. by apply lstrip_Forall.
Qed.

Lemma strip_columns_encodable df :
  encodable_frame df → encodable_frame (strip_columns df).
Proof.
  unfold encodable_frame, strip_columns. simpl. intros [Hcols Hrows]. split; [|done].
  apply Forall_fmap. eapply Forall_impl; [exact Hcols|].
  intros c Hc. simpl. unfold encodable in *.
  apply forallb_Forall. apply strip_Forall. by apply forallb_Forall.
Qed.

Lemma strip_columns_rectangular df : rectangular df → rectangular (strip_columns df).
Proof. unfold rectangular, strip_columns. simpl. by rewrite length_fmap. Qed.

End Frames.

(* ===================================================================== *)
(* 17. What process_file does with one unit                              *)
(* ===================================================================== *)

Section Units.

Context (env : Env).

Lemma lookup_file_write_file path f w :
  lookup_file path (write_file path f w) = Some f.
Proof.
  unfold lookup_file, write_file. simpl.
  rewrite lookup_insert_eq. simpl. by rewrite lookup_insert_eq.
Qed.

Lemma to_csv_ok df path w :
  encodable_frame df → is_Some (fs w !! Path.dirname path) → Path.basename path ≠ [] →
  to_csv df path w = (Ok tt, write_file path (Csv df) w).
Proof.
  intros [Hcols Hrows] [d Hd] Hname. unfold to_csv. rewrite Hd.
  rewrite bool_decide_eq_false_2 by done.
  apply forallb_Forall in Hcols. rewrite Hcols.
  rewrite encodable_prefix_all by done. rewrite Nat.eqb_refl. by destruct df.
Qed.

Lemma to_csv_Ok_inv df path w w' :
  to_csv df path w = (Ok tt, w') → w' = write_file path (Csv df) w.
Proof.
  unfold to_csv. intros H. repeat case_match; simplify_eq.
  match goal with H : (_ =? _) = true |- _ => apply Nat.eqb_eq in H; rename H into Hlen end.
  rewrite (encodable_prefix_length _ Hlen). by destruct df.
Qed.

Lemma process_file_world path w :
  (process_file env path w).2
  = (process_body env path (Path.basename path) (output_path path) w).2.
Proof. unfold process_file, output_path. by repeat case_match. Qed.

Lemma persist_Ok_inv filename out df answer status w w' :
  persist env filename out df answer w = (Ok status, w') →
  ∃ category reason,
    column_cells env answer.1 (length (rows df)) = Ok category
    ∧ column_cells env answer.2 (length (rows df)) = Ok reason
    ∧ status = done_status filename
    ∧ w' = write_file out
             (Csv (with_column (u "Reason") reason (with_column (u "Category") category df))) w.
Proof.
  unfold persist, bind, set_column. intros H.
  destruct (column_cells env answer.1 _) as [category|e1] eqn:H1; simpl in H; [|done].
  rewrite with_column_rows_length in H.
  destruct (column_cells env answer.2 _) as [reason|e2] eqn:H2; simpl in H; [|done].
  destruct (to_csv _ out w) as [[[]|e3] w3] eqn:Hcsv; [|done].
  apply to_csv_Ok_inv in Hcsv. exists category, reason. unfold ret in H. by simplify_eq.
Qed.

Lemma persist_ok filename out df answer category reason w :
  column_cells env answer.1 (length (rows df)) = Ok category →
  column_cells env answer.2 (length (rows df)) = Ok reason →
  (∀ i, cell_encodable (category i) = true) →
  (∀ i, cell_encodable (reason i) = true) →
  encodable_frame df →
  is_Some (fs w !! Path.dirname out) → Path.basename out ≠ [] →
  persist env filename out df answer w
  = (Ok (done_status filename),
     write_file out
       (Csv (with_column (u "Reason") reason (with_column (u "Category") category df))) w).
Proof.
  intros H1 H2 Hc Hr Hdf Hdir Hname. unfold persist, bind, set_column.
  rewrite H1. simpl. rewrite with_column_rows_length, H2. simpl.
  rewrite to_csv_ok; [done| |done|done].
  apply with_column_encodable; [by vm_compute|done|].
  apply with_column_encodable; [by vm_compute|done|done].
Qed.

Lemma status_done_not_missing f g : done_status f ≠ missing_status g.
Proof. intros H. apply (f_equal (take 1)) in H. vm_compute in H. discriminate. Qed.

Lemma status_done_not_error f g e : done_status f ≠ error_status g e.
Proof. intros H. apply (f_equal (take 1)) in H. vm_compute in H. discriminate. Qed.

Lemma status_missing_not_error f g e : missing_status f ≠ error_status g e.
Proof. intros H. apply (f_equal (take 1)) in H. vm_compute in H. discriminate. Qed.

(* The log of a unit that reaches the classifier is the log of the
   classifier. *)
Lemma process_file_log path w df r rest :
  lookup_file path w = Some (Csv df) →
  DATA_COLUMN ∈ strip <$> columns df →
  rows df = r :: rest →
  log (process_file env path w).2
  = log (classify_text env (cell_text env DATA_COLUMN (strip <$> columns df) r) w).2.
Proof.
  intros Hfile Hcol Hrows. rewrite process_file_world.
  rewrite (process_body_classifies env _ _ _ _ _ _ _ Hfile Hcol Hrows).
  unfold bind. destruct (classify_text env _ w) as [[answer|e] w1]; [|done].
  apply persist_log.
Qed.

End Units.

(** C7: a unit whose table has no column named data once the column
    names are stripped gets the status line "Column missing: <name>",
    which is neither a done line nor an error line.  process_file returns
    the world as it found it: no model process was started and no file
    was written; so whatever unit is processed next is processed as if
    this one had not been. *)
Theorem C7_missing_column (env : Env) (path : str) (w : World) (df : DataFrame) :
  lookup_file path w = Some (Csv df) →
  DATA_COLUMN ∉ strip <$> columns df →
  process_file env path w = (missing_status (Path.basename path), w)
  ∧ (∀ f, missing_status (Path.basename path) ≠ done_status f)
  ∧ (∀ f e, missing_status (Path.basename path) ≠ error_status f e)
  ∧ (∀ other, process_file env other (process_file env path w).2
              = process_file env other w).
Proof.
  intros Hfile Hcol.
  assert (process_file env path w = (missing_status (Path.basename path), w)) as Hrun.
  { unfold process_file. by rewrite (process_body_missing env _ _ _ _ _ Hfile Hcol). }
  split_and!; [done| | |].
  - intros f H. by apply (status_done_not_missing f (Path.basename path)).
  - intros f e. apply status_missing_not_error.
  - intros other. by rewrite Hrun.
Qed.

(** C8: of a table with several rows only the first is classified.  The
    one text handed to classify_text is str() of the cell of the first
    row under the data column: every model process the call starts gets
    the prompt built from that text, and replacing the rows after the
    first by any others leaves the trace of the call as it is. *)
Theorem C8_first_row_only (env : Env) (path : str) (w : World) (df : DataFrame)
    (r : list pyval) (rest : list (list pyval)) :
  lookup_file path w = Some (Csv df) →
  DATA_COLUMN ∈ strip <$> columns df →
  rows df = r :: rest →
  let text := cell_text env DATA_COLUMN (strip <$> columns df) r in
  log (process_file env path w).2 = log (classify_text env text w).2
  ∧ (∃ evs, log (process_file env path w).2 = log w ++ evs
            ∧ Forall (λ e, e = Invoke (build_prompt text) ∨ e = Sleep) evs)
  ∧ ∀ rest',
      log (process_file env path
             (write_file path (Csv {| columns := columns df; rows := r :: rest' |}) w)).2
      = log (process_file env path w).2.
Proof.
  intros Hfile Hcol Hrows text.
  pose proof (process_file_log env path w df r rest Hfile Hcol Hrows) as Hlog.
  split_and!; [done| |].
  - rewrite Hlog. destruct (classify_text_trace env text w) as (evs & Hev & _ & Hall).
    exists evs. split; [|done]. fold text. by rewrite Hev.
  - intros rest'. rewrite Hlog.
    rewrite (process_file_log env path _ {| columns := columns df; rows := r :: rest' |}
               r rest'); [|apply lookup_file_write_file|done|done].
    simpl. by apply retry_files.
Qed.

Section UnitOutcome.

Context (env : Env).

Lemma column_cells_scalar v n cells :
  is_scalar v → column_cells env v n = Ok cells → ∀ i, cells i = v.
Proof. intros Hs H i. destruct v; simpl in *; try done; by simplify_eq. Qed.

(* Every way through process_file *)
Lemma process_file_cases path w :
  let name := Path.basename path in
  let out := output_path path in
  (∃ e, process_file env path w = (error_status name e, w)
        ∧ ∀ df, lookup_file path w = Some (Csv df) →
                DATA_COLUMN ∈ strip <$> columns df ∧ rows df = [])
  ∨ (∃ df, lookup_file path w = Some (Csv df)
           ∧ (DATA_COLUMN ∉ strip <$> columns df)
           ∧ process_file env path w = (missing_status name, w))
  ∨ (∃ df r rest, lookup_file path w = Some (Csv df)
        ∧ DATA_COLUMN ∈ strip <$> columns df ∧ rows df = r :: rest
        ∧ ((∃ e w1, classify_text env (unit_text env df) w = (Raise e, w1)
                    ∧ process_file env path w = (error_status name e, w1))
           ∨ ∃ answer w1, classify_text env (unit_text env df) w = (Ok answer, w1)
               ∧ (process_file env path w
                  = match persist env name out (strip_columns df) answer w1 with
                    | (Ok status, w') => (status, w')
                    | (Raise e, w') => (error_status name e, w')
                    end))).
Proof.
  intros name out. unfold process_file. fold name. fold (output_path path). fold out.
  destruct (lookup_file path w) as [[df|e]|] eqn:Hfile.
  - destruct (decide (DATA_COLUMN ∈ strip <$> columns df)) as [Hcol|Hcol].
    + destruct (rows df) as [|r rest] eqn:Hrows.
      * left. exists IndexError.
        rewrite (process_body_no_rows env _ _ _ _ _ Hfile Hcol Hrows).
        split; [done|]. intros df' ?. by simplify_eq.
      * right. right. exists df, r, rest. split_and!; [done..|].
        rewrite (process_body_classifies env _ _ _ _ _ _ _ Hfile Hcol Hrows).
        unfold unit_text. rewrite Hrows. unfold bind.
        destruct (classify_text env _ w) as [[answer|e] w1]; [right|left]; eauto.
    + right. left. exists df. split_and!; [done..|].
      by rewrite (process_body_missing env _ _ _ _ _ Hfile Hcol).
  - left. exists e. unfold process_body, bind, read_csv. rewrite Hfile. by split.
  - left. exists (FileNotFoundError path).
    unfold process_body, bind, read_csv. rewrite Hfile. by split.
Qed.

End UnitOutcome.

(** C10: a unit whose data cell in the first row is missing is
    processed like any other.  It is not reported as lacking the column;
    the missing value becomes the text nan, and that text is what the
    classifier is called with.  When the classifier returns two strings
    that can be written (an answer of the model or ERROR with the last
    output) and the output directory is there, the unit gets its output
    file and a done line. *)
Theorem C10_null_cell (env : Env) (path : str) (w : World) (df : DataFrame)
    (r : list pyval) (rest : list (list pyval)) :
  lookup_file path w = Some (Csv df) →
  rows df = r :: rest →
  select DATA_COLUMN (strip <$> columns df) r = [PNaN] →
  unit_text env df = u "nan"
  ∧ (process_file env path w).1 ≠ missing_status (Path.basename path)
  ∧ log (process_file env path w).2 = log (classify_text env (u "nan") w).2
  ∧ ∀ category reason w1,
      classify_text env (u "nan") w = (Ok (PStr category, PStr reason), w1) →
      encodable category = true → encodable reason = true →
      encodable_frame df →
      is_Some (fs w !! OUTPUT_DIR) → Path.basename path ≠ [] →
      process_file env path w
      = (done_status (Path.basename path),
         write_file (output_path path)
           (Csv (output_frame df (λ _, PStr category) (λ _, PStr reason))) w1).
Proof.
  intros Hfile Hrows Hsel.
  assert (DATA_COLUMN ∈ strip <$> columns df) as Hcol.
  { apply (select_elem _ _ r). by rewrite Hsel. }
  assert (unit_text env df = u "nan") as Htext.
  { unfold unit_text, cell_text. by rewrite Hrows, Hsel. }
  pose proof (process_file_log env path w df r rest Hfile Hcol Hrows) as Hlog.
  unfold cell_text in Hlog. rewrite Hsel in Hlog.
  destruct (process_file_cases env path w)
    as [(e & Hrun & Hno)|[(df' & Hfile' & Hcol' & _)|(df' & r' & rest' & Hfile' & _ & _ & Hrun)]].
  { destruct (Hno df Hfile) as [_ Hnil]. congruence. }
  { by simplify_eq. }
  simplify_eq. rewrite Htext in Hrun. split_and!; [done| |done|].
  - destruct Hrun as [(e & w1 & _ & ->)|(answer & w1 & _ & ->)].
    + simpl. intros H. symmetry in H. by apply status_missing_not_error in H.
    + destruct (persist_effect env (Path.basename path) (output_path path)
                  (strip_columns df) answer w1) as [(w' & ->)|[(e & ->)|(e & d & _ & He)]].
      * simpl. apply status_done_not_missing.
      * simpl. intros H. symmetry in H. by apply status_missing_not_error in H.
      * destruct (persist env _ _ _ answer w1) as [[st|e'] w']; simpl in *; [done|].
        intros H. symmetry in H. by apply status_missing_not_error in H.
  - intros category reason w1 Hclass Hc Hr Hdf Hdir Hname.
    destruct Hrun as [(e & w2 & Hc2 & _)|(answer & w2 & Hc2 & ->)]; [congruence|].
    rewrite Hclass in Hc2. simplify_eq.
    destruct (classify_text_trace env (u "nan") w) as (evs & Hw1 & _).
    rewrite Hclass in Hw1. simpl in Hw1.
    rewrite (persist_ok env _ _ _ _ (λ _, PStr category) (λ _, PStr reason));
      [done|done|done|done|done|by apply strip_columns_encodable| |].
    + unfold output_path.
      rewrite dirname_join; [|apply plain_OUTPUT_DIR|apply basename_no_slash].
      by rewrite Hw1.
    + unfold output_path.
      by rewrite basename_join; [|apply plain_OUTPUT_DIR|apply basename_no_slash].
Qed.

(** C4 (as amended): process_file always returns a status line: a done
    line, the missing-column line with the world untouched, or an error
    line for the exception that was caught.  With an error line the file
    system is as it was before the call, unless the exception was raised
    by the write to the output path itself. *)
Theorem C4_errors_caught (env : Env) (path : str) (w : World) :
  (process_file env path w).1 = done_status (Path.basename path)
  ∨ ((process_file env path w).1 = missing_status (Path.basename path)
     ∧ (process_file env path w).2 = w)
  ∨ ∃ e, (process_file env path w).1 = error_status (Path.basename path) e
         ∧ (fs (process_file env path w).2 = fs w
            ∨ ∃ df w1, fs w1 = fs w
                ∧ to_csv df (output_path path) w1 = (Raise e, (process_file env path w).2)).
Proof.
  destruct (process_file_cases env path w)
    as [(e & -> & _)|[(df & _ & _ & ->)|(df & r & rest & _ & _ & _ & Hrun)]].
  - right. right. exists e. split; [done|by left].
  - right. left. done.
  - destruct Hrun as [(e & w1 & Hclass & ->)|(answer & w1 & Hclass & ->)].
    + right. right. exists e. split; [done|left]. simpl.
      destruct (classify_text_trace env (unit_text env df) w) as (evs & Hw1 & _).
      rewrite Hclass in Hw1. simpl in Hw1. by rewrite Hw1.
    + destruct (classify_text_trace env (unit_text env df) w) as (evs & Hw1 & _).
      rewrite Hclass in Hw1. simpl in Hw1.
      destruct (persist_effect env (Path.basename path) (output_path path)
                  (strip_columns df) answer w1) as [(w' & ->)|[(e & ->)|(e & d & Hcsv & He)]].
      * by left.
      * right. right. exists e. split; [done|left]. simpl. by rewrite Hw1.
      * destruct (persist env _ _ _ answer w1) as [[st|e'] w'] eqn:Hp;
          simpl in *; [done|]. simplify_eq.
        right. right. exists e. split; [done|right].
        by exists d, (logged w evs).
Qed.

(** C1 (as amended): in every output unit process_file produces, each
    cell of the Category column holds what pandas makes of the category
    classify_text returned for the text of the unit, and for a string or
    other scalar that is the value itself.  That category is the value
    under the key category in the JSON object extracted from the output
    of the first of the (at most three) attempts that yields an answer,
    or the string ERROR when none of the three attempts yields one.
    Nothing compares it with the seven labels. *)
Theorem C1_category_written (env : Env) (path : str) (w : World) (df : DataFrame) :
  lookup_file path w = Some (Csv df) →
  rectangular df →
  (process_file env path w).1 = done_status (Path.basename path) →
  ∃ category reason w1 cells out,
    classify_text env (unit_text env df) w = (Ok (category, reason), w1)
    ∧ ((∃ k stdout obj d,
          k < MAX_RETRY
          ∧ (∀ j, j < k → attempt_fails env (build_prompt (unit_text env df)) w j)
          ∧ attempt_gives env (build_prompt (unit_text env df)) w k (category, reason)
          ∧ ollama env (invocations (log w) + k) (build_prompt (unit_text env df))
            = inr stdout
          ∧ extract_json (strip stdout) = Some obj
          ∧ Json.loads obj = Some (PDict d)
          ∧ Json.dict_get (u "category") d = Some category)
       ∨ (category = PStr (u "ERROR")
          ∧ ∀ j, j < MAX_RETRY →
                 attempt_fails env (build_prompt (unit_text env df)) w j))
    ∧ column_cells env category (length (rows df)) = Ok cells
    ∧ (is_scalar category → ∀ i, cells i = category)
    ∧ lookup_file (output_path path) (process_file env path w).2 = Some (Csv out)
    ∧ length (rows out) = length (rows df)
    ∧ ∀ i cs, column_of (u "Category") out !! i = Some cs →
              cs ≠ [] ∧ Forall (λ x, x = cells i) cs.
Proof.
  intros Hfile Hrect Hdone.
  destruct (process_file_cases env path w)
    as [(e & Hrun & _)|[(df' & _ & _ & Hrun)|(df' & r & rest & Hfile' & _ & _ & Hrun)]].
  { rewrite Hrun in Hdone. simpl in Hdone. symmetry in Hdone.
    by apply status_done_not_error in Hdone. }
  { rewrite Hrun in Hdone. simpl in Hdone. symmetry in Hdone.
    by apply status_done_not_missing in Hdone. }
  simplify_eq.
  destruct Hrun as [(e & w1 & _ & Hrun)|([category reason] & w1 & Hclass & Hrun)].
  { rewrite Hrun in Hdone. simpl in Hdone. symmetry in Hdone.
    by apply status_done_not_error in Hdone. }
  rewrite Hrun in Hdone |- *. clear Hrun.
  destruct (persist env _ _ _ _ w1) as [[st|e] w'] eqn:Hp; simpl in Hdone; cycle 1.
  { symmetry in Hdone. by apply status_done_not_error in Hdone. }
  apply persist_Ok_inv in Hp as (cc & rc & Hcc & Hrc & _ & ->). simpl in Hcc, Hrc.
  exists category, reason, w1, cc,
    (with_column (u "Reason") rc (with_column (u "Category") cc (strip_columns df))).
  split_and!.
  - done.
  - destruct (classify_text_answer env _ _ _ _ _ Hclass)
      as [(k & Hk & Hfail & Hgive)|[-> Hfail]]; [left|by right].
    pose proof Hgive as (stdout & Hout & Hparse).
    apply parse_answer_inv in Hparse as (obj & d & Hobj & Hloads & Hcat & _).
    by exists k, stdout, obj, d.
  - done.
  - intros Hs. by apply (column_cells_scalar env category (length (rows df)) cc).
  - simpl. apply lookup_file_write_file.
  - by rewrite !with_column_rows_length.
  - intros i cs Hcs.
    rewrite column_of_with_column_other in Hcs;
      [|by apply with_column_rectangular, strip_columns_rectangular
       |by intros H; vm_compute in H].
    eapply column_of_with_column_same; [|done].
    by apply strip_columns_rectangular.
Qed.

(* ===================================================================== *)
(* 18. Directories                                                       *)
(* ===================================================================== *)

Section Directories.

Lemma lookup_file_entries path w :
  lookup_file path w = entries (fs w) (Path.dirname path) !! Path.basename path.
Proof. unfold lookup_file, entries. by destruct (fs w !! Path.dirname path). Qed.

Lemma listdir_entries dir w : listdir dir w = (map_to_list (entries (fs w) dir)).*1.
Proof.
  unfold listdir, entries. destruct (fs w !! dir); simpl; [done|].
  by rewrite map_to_list_empty.
Qed.

Lemma elem_of_listdir dir w n : n ∈ listdir dir w ↔ is_Some (entries (fs w) dir !! n).
Proof.
  rewrite listdir_entries, list_elem_of_fmap. split.
  - intros ([n' f] & -> & Hin). apply elem_of_map_to_list in Hin. by exists f.
  - intros [f Hf]. exists (n, f). split; [done|]. by apply elem_of_map_to_list.
Qed.

Lemma changed_only_refl A m : changed_only A m m.
Proof. by intros dir n _. Qed.

Lemma changed_only_trans A B m1 m2 m3 :
  changed_only A m1 m2 → changed_only B m2 m3 →
  changed_only (λ dir n, A dir n ∨ B dir n) m1 m3.
Proof.
  intros H1 H2 dir n Hn. rewrite H2, H1; [done|..]; intros ?; apply Hn; auto.
Qed.

Lemma changed_only_weaken (A B : str → str → Prop) m m' :
  (∀ dir n, A dir n → B dir n) → changed_only A m m' → changed_only B m m'.
Proof. intros HAB H dir n Hn. apply H. intros ?. apply Hn. auto. Qed.

Lemma entries_insert m dir d dir' :
  entries (<[dir := d]> m) dir' = if decide (dir = dir') then d else entries m dir'.
Proof. unfold entries. rewrite lookup_insert. by case_decide. Qed.

Lemma to_csv_changes df path w :
  changed_only (λ dir n, dir = Path.dirname path ∧ n = Path.basename path)
    (fs w) (fs (to_csv df path w).2).
Proof.
  destruct (to_csv_effect df path w) as [_ [->|(d & f & Hd & _ & ->)]];
    [apply changed_only_refl|].
  intros dir n Hn. rewrite entries_insert. case_decide as Hdir; [|done].
  subst dir. unfold entries. rewrite Hd. simpl.
  apply lookup_insert_ne. intros <-. by apply Hn.
Qed.

Lemma glob_csv_run dir w : glob_csv dir w = (Ok (csv_files dir w), w).
Proof. done. Qed.

(* what is written is written under OUTPUT_DIR *)
Lemma output_path_split path :
  Path.dirname (output_path path) = OUTPUT_DIR
  ∧ Path.basename (output_path path) = Path.basename path.
Proof.
  unfold output_path. split.
  - apply dirname_join; [apply plain_OUTPUT_DIR|apply basename_no_slash].
  - apply basename_join; [apply plain_OUTPUT_DIR|apply basename_no_slash].
Qed.

End Directories.

(* ===================================================================== *)
(* 19. merge_outputs                                                     *)
(* ===================================================================== *)

Section Merge.

Lemma read_all_world files w : (read_all files w).2 = w.
Proof.
  induction files as [|f files IH]; [done|]. simpl. unfold bind at 1.
  pose proof (read_csv_world f w) as Hw.
  destruct (read_csv f w) as [[df|e] w1]; simpl in Hw; subst w1; [|done].
  unfold bind. destruct (read_all files w) as [[dfs|e] w2]; simpl in IH; by subst.
Qed.

Lemma read_all_Ok files : ∀ w dfs w',
  read_all files w = (Ok dfs, w') →
  Forall2 (λ f df, lookup_file f w = Some (Csv df)) files dfs.
Proof.
  induction files as [|f files IH]; intros w dfs w' H.
  - simpl in H. unfold ret in H. simplify_eq. constructor.
  - simpl in H. unfold bind at 1, read_csv in H.
    destruct (lookup_file f w) as [[df|e]|] eqn:Hf; [|done..].
    unfold bind in H. destruct (read_all files w) as [[dfs'|e] w2] eqn:Hall; [|done].
    unfold ret in H. simplify_eq. constructor; [done|]. by eapply IH.
Qed.

Lemma read_all_tables files : ∀ w dfs,
  Forall2 (λ f df, lookup_file f w = Some (Csv df)) files dfs →
  read_all files w = (Ok dfs, w).
Proof.
  intros w dfs H. induction H as [|f df files dfs Hf _ IH]; [done|].
  simpl. unfold bind at 1. rewrite (read_csv_table _ _ _ Hf).
  unfold bind. by rewrite IH.
Qed.

Lemma length_bind_sum {A B} (f : A → list B) l :
  length (l ≫= f) = sum_list ((λ x, length (f x)) <$> l).
Proof.
  induction l as [|x l IH]; [done|].
  change ((x :: l) ≫= f) with (f x ++ (l ≫= f)).
  rewrite length_app, IH. done.
Qed.

(* Concatenation keeps every row of every frame. *)
Lemma concat_rows_length dfs :
  length (rows (concat dfs)) = sum_list ((λ df, length (rows df)) <$> dfs).
Proof.
  unfold concat. simpl. rewrite length_bind_sum. f_equal.
  apply list_fmap_ext. intros i df _. by rewrite length_fmap.
Qed.

Lemma row_count_tables w files dfs :
  Forall2 (λ f df, lookup_file f w = Some (Csv df)) files dfs →
  sum_list (row_count w <$> files) = sum_list ((λ df, length (rows df)) <$> dfs).
Proof.
  induction 1 as [|f df files dfs Hf _ IH]; [done|].
  rewrite !fmap_cons. cbn [sum_list sum_list_with]. rewrite <- IH.
  unfold row_count at 1. by rewrite Hf.
Qed.

Lemma add_new_Forall (P : str → Prop) cols : ∀ seen,
  Forall P seen → Forall P cols → Forall P (add_new seen cols).
Proof.
  induction cols as [|c cols IH]; intros seen Hseen Hcols; [done|].
  apply Forall_cons in Hcols as [Hc Hcols]. simpl.
  case_bool_decide; apply IH; try done.
  apply Forall_app. split; [done|by constructor].
Qed.

Lemma union_columns_Forall (P : str → Prop) dfs : ∀ seen,
  Forall P seen → Forall (λ df, Forall P (columns df)) dfs →
  Forall P (foldl (λ seen df, add_new seen (columns df)) seen dfs).
Proof.
  induction dfs as [|df dfs IH]; intros seen Hseen Hdfs; [done|].
  apply Forall_cons in Hdfs as [Hdf Hdfs]. simpl.
  apply IH; [|done]. by apply add_new_Forall.
Qed.

Lemma cell_of_Forall (P : pyval → Prop) name cols : ∀ row,
  P PNaN → Forall P row → P (cell_of name cols row).
Proof.
  induction cols as [|c cols IH]; intros [|v row] Hnan Hrow; simpl; try done.
  apply Forall_cons in Hrow as [Hv Hrow]. destruct (str_eqb c name); auto.
Qed.

Lemma concat_encodable dfs :
  Forall encodable_frame dfs → encodable_frame (concat dfs).
Proof.
  intros Hdfs. unfold encodable_frame, concat. simpl. split.
  - apply union_columns_Forall; [done|].
    eapply Forall_impl; [exact Hdfs|]. by intros df [].
  - apply Forall_bind. eapply Forall_impl; [exact Hdfs|].
    intros df [_ Hrows]. simpl. apply Forall_fmap.
    eapply Forall_impl; [exact Hrows|]. intros r Hr. simpl.
    apply Forall_fmap, Forall_forall. intros c _. simpl.
    by apply cell_of_Forall.
Qed.

Lemma merge_outputs_unfold w :
  merge_outputs w
  = match csv_files OUTPUT_DIR w with
    | [] => (Ok tt, logged w [Print no_outputs_line])
    | _ :: _ =>
        match read_all (csv_files OUTPUT_DIR w) w with
        | (Ok dfs, _) =>
            match to_csv (concat dfs) FINAL_OUTPUT w with
            | (Ok _, w1) => (Ok tt, logged w1 [Print merged_line])
            | (Raise e, w1) => (Raise e, w1)
            end
        | (Raise e, _) => (Raise e, w)
        end
    end.
Proof.
  unfold merge_outputs. unfold bind at 1. rewrite glob_csv_run.
  destruct (csv_files OUTPUT_DIR w) as [|f files] eqn:Hfiles; [done|].
  unfold bind at 1. pose proof (read_all_world (f :: files) w) as Hw.
  destruct (read_all (f :: files) w) as [[dfs|e] w1]; simpl in Hw; subst w1; [|done].
  unfold bind. by destruct (to_csv (concat dfs) FINAL_OUTPUT w) as [[[]|e] w1].
Qed.

Lemma FINAL_OUTPUT_split :
  Path.dirname FINAL_OUTPUT = BASE_DIR
  ∧ Path.basename FINAL_OUTPUT = u "classified_natcomm_2023_by_gemma_all.csv".
Proof. split; vm_compute; reflexivity. Qed.

End Merge.

(** C9: when the output directory has no entries, merge_outputs prints
    "No classified files found." and leaves the files as they are, so no
    final file is written.  When glob finds output files and
    merge_outputs returns, the final file holds a table whose number of
    rows is the sum of the numbers of rows of the output files at that
    time; and it does return when each of those files is a table that
    can be written and the base directory is there. *)
Theorem C9_merge_row_count (w : World) :
  (listdir OUTPUT_DIR w = [] →
     merge_outputs w = (Ok tt, logged w [Print no_outputs_line]))
  ∧ (csv_files OUTPUT_DIR w ≠ [] →
     ∀ w', merge_outputs w = (Ok tt, w') →
       ∃ merged, lookup_file FINAL_OUTPUT w' = Some (Csv merged)
                 ∧ length (rows merged)
                   = sum_list (row_count w <$> csv_files OUTPUT_DIR w))
  ∧ (csv_files OUTPUT_DIR w ≠ [] →
     (∀ f, f ∈ csv_files OUTPUT_DIR w →
           ∃ df, lookup_file f w = Some (Csv df) ∧ encodable_frame df) →
     is_Some (fs w !! BASE_DIR) →
     ∃ w', merge_outputs w = (Ok tt, w')).
Proof.
  split_and!.
  - intros Hdir. rewrite merge_outputs_unfold. unfold csv_files. by rewrite Hdir.
  - intros Hfiles w' Hrun. rewrite merge_outputs_unfold in Hrun.
    destruct (csv_files OUTPUT_DIR w) as [|f files] eqn:Hcsv; [done|].
    destruct (read_all (f :: files) w) as [[dfs|e] w1] eqn:Hread; [|done].
    apply read_all_Ok in Hread.
    destruct (to_csv (concat dfs) FINAL_OUTPUT w) as [[[]|e] w2] eqn:Hwrite; [|done].
    apply to_csv_Ok_inv in Hwrite. simplify_eq.
    exists (concat dfs). split.
    + unfold lookup_file, logged. simpl.
      rewrite lookup_insert_eq. simpl. by rewrite lookup_insert_eq.
    + by rewrite concat_rows_length, (row_count_tables _ _ _ Hread).
  - intros Hfiles Htables Hbase. rewrite merge_outputs_unfold.
    destruct (csv_files OUTPUT_DIR w) as [|f files] eqn:Hcsv; [done|].
    assert (∃ dfs, Forall2 (λ f df, lookup_file f w = Some (Csv df)) (f :: files) dfs
                   ∧ Forall encodable_frame dfs) as (dfs & Hread & Henc).
    { clear Hfiles Hcsv. induction (f :: files) as [|g gs IH].
      - exists []. split; constructor.
      - destruct IH as (dfs & H1 & H2); [intros; apply Htables; by right|].
        destruct (Htables g) as (df & Hg & Hdf); [by left|].
        exists (df :: dfs). split; by constructor. }
    rewrite (read_all_tables _ _ _ Hread).
    rewrite to_csv_ok; [by eexists|by apply concat_encodable| |].
    + by rewrite (proj1 FINAL_OUTPUT_split).
    + rewrite (proj2 FINAL_OUTPUT_split). by vm_compute.
Qed.

(* ===================================================================== *)
(* 20. main: what a run dispatches and what it can write                 *)
(* ===================================================================== *)

Arguments u : simpl never.

Section Pipeline.

Context (env : Env).

Lemma submitted_app l1 l2 : submitted (l1 ++ l2) = submitted l1 ++ submitted l2.
Proof. apply omap_app. Qed.

Lemma submitted_fmap files : submitted (Submit <$> files) = files.
Proof.
  induction files as [|f files IH]; [done|].
  rewrite fmap_cons. change (submitted (Submit f :: (Submit <$> files)))
    with (f :: submitted (Submit <$> files)). by rewrite IH.
Qed.

Lemma submitted_classifier prompt evs :
  Forall (λ e, e = Invoke prompt ∨ e = Sleep) evs → submitted evs = [].
Proof.
  induction 1 as [|e evs [->| ->] _ IH]; [done|..]; exact IH.
Qed.

Lemma persist_changes filename out df answer w :
  changed_only (λ dir n, dir = Path.dirname out ∧ n = Path.basename out)
    (fs w) (fs (persist env filename out df answer w).2).
Proof.
  unfold persist, bind.
  pose proof (set_column_world env (u "Category") answer.1 df w) as H1.
  destruct (set_column env (u "Category") answer.1 df w) as [[df1|e1] w1];
    simpl in H1; subst w1; [|apply changed_only_refl].
  pose proof (set_column_world env (u "Reason") answer.2 df1 w) as H2.
  destruct (set_column env (u "Reason") answer.2 df1 w) as [[df2|e2] w2];
    simpl in H2; subst w2; [|apply changed_only_refl].
  pose proof (to_csv_changes df2 out w) as H3.
  by destruct (to_csv df2 out w) as [[[]|e3] w3].
Qed.

(* A worker adds model processes and pauses to the log and writes, if
   anything, the entry of its unit in the output directory. *)
Lemma process_file_effect path w :
  (∃ evs, log (process_file env path w).2 = log w ++ evs ∧ submitted evs = [])
  ∧ changed_only (λ dir n, dir = OUTPUT_DIR ∧ n = Path.basename path)
      (fs w) (fs (process_file env path w).2).
Proof.
  destruct (process_file_cases env path w)
    as [(e & -> & _)|[(df & _ & _ & ->)|(df & r & rest & _ & _ & _ & Hrun)]].
  - split; [exists []; by rewrite app_nil_r|apply changed_only_refl].
  - split; [exists []; by rewrite app_nil_r|apply changed_only_refl].
  - destruct (classify_text_trace env (unit_text env df) w) as (evs & Hw1 & _ & Hall).
    apply submitted_classifier in Hall.
    destruct Hrun as [(e & w1 & Hclass & ->)|(answer & w1 & Hclass & ->)];
      rewrite Hclass in Hw1; simpl in Hw1; subst w1.
    + split; [by exists evs|apply changed_only_refl].
    + pose proof (persist_log env (Path.basename path) (output_path path)
                    (strip_columns df) answer (logged w evs)) as Hlog.
      pose proof (persist_changes (Path.basename path) (output_path path)
                    (strip_columns df) answer (logged w evs)) as Hfs.
      destruct (output_path_split path) as [Hdir Hname]. rewrite Hdir, Hname in Hfs.
      destruct (persist env _ _ _ answer (logged w evs)) as [[st|e] w']; simpl in *;
        (split; [exists evs; by rewrite Hlog|done]).
Qed.

Lemma run_workers_cons f files w :
  run_workers env (f :: files) w
  = run_workers env files
      (logged (process_file env f w).2 [Print (process_file env f w).1]).
Proof.
  simpl. unfold bind, print, emit. by destruct (process_file env f w).
Qed.

Lemma run_workers_effect files : ∀ w,
  (run_workers env files w).1 = Ok tt
  ∧ (∃ evs, log (run_workers env files w).2 = log w ++ evs ∧ submitted evs = [])
  ∧ changed_only (λ dir n, dir = OUTPUT_DIR ∧ n ∈ Path.basename <$> files)
      (fs w) (fs (run_workers env files w).2).
Proof.
  induction files as [|f files IH]; intros w.
  - simpl. split_and!; [done|exists []; by rewrite app_nil_r|apply changed_only_refl].
  - rewrite run_workers_cons.
    destruct (process_file_effect f w) as [(evs1 & Hlog1 & Hsub1) Hfs1].
    destruct (process_file env f w) as [status w1]. simpl in *.
    destruct (IH (logged w1 [Print status])) as (Hok & (evs2 & Hlog2 & Hsub2) & Hfs2).
    simpl in *. split_and!; [done| |].
    + exists (evs1 ++ [Print status] ++ evs2). rewrite Hlog2, Hlog1.
      rewrite <- !app_assoc. split; [done|].
      rewrite !submitted_app, Hsub1, Hsub2. done.
    + eapply changed_only_weaken; [|exact (changed_only_trans _ _ _ _ _ Hfs1 Hfs2)].
      intros dir n [[-> ->]|[-> Hn]]; (split; [done|]).
      * left.
      * by right.
Qed.

Lemma submit_all_run files : ∀ w,
  submit_all files w = (Ok tt, logged w (Submit <$> files)).
Proof.
  induction files as [|f files IH]; intros w.
  - simpl. unfold ret. by rewrite logged_nil.
  - simpl. unfold bind, emit. simpl. rewrite IH. unfold logged. simpl.
    by rewrite <- app_assoc.
Qed.

Lemma merge_outputs_effect w :
  (∃ evs, log (merge_outputs w).2 = log w ++ evs ∧ submitted evs = [])
  ∧ changed_only (λ dir n, dir = BASE_DIR ∧ n = final_name)
      (fs w) (fs (merge_outputs w).2).
Proof.
  rewrite merge_outputs_unfold.
  destruct (csv_files OUTPUT_DIR w) as [|f files].
  { split; [by exists [Print no_outputs_line]|apply changed_only_refl]. }
  destruct (read_all (f :: files) w) as [[dfs|e] w1];
    [|split; [exists []; by rewrite app_nil_r|apply changed_only_refl]].
  pose proof (to_csv_changes (concat dfs) FINAL_OUTPUT w) as Hfs.
  destruct (to_csv_effect (concat dfs) FINAL_OUTPUT w) as [Hlog _].
  destruct FINAL_OUTPUT_split as [Hdir Hname]. rewrite Hdir, Hname in Hfs.
  destruct (to_csv (concat dfs) FINAL_OUTPUT w) as [[[]|e] w2]; simpl in *.
  - split; [|done]. exists [Print merged_line]. by rewrite Hlog.
  - split; [|done]. exists []. by rewrite app_nil_r.
Qed.

Lemma dispatch_no_inputs w : csv_files INPUT_DIR w = [] → dispatch w = [].
Proof. unfold dispatch, remaining_files. by intros ->. Qed.

Lemma bind_emit {B} e (k : unit → M B) w : bind (emit e) k w = k tt (logged w [e]).
Proof. done. Qed.

Lemma bind_print {B} l (k : unit → M B) w :
  bind (print l) k w = k tt (logged w [Print l]).
Proof. done. Qed.

Lemma bind_glob {B} dir (k : list str → M B) w :
  bind (glob_csv dir) k w = k (csv_files dir w) w.
Proof. done. Qed.

Lemma bind_submit_all {B} files (k : unit → M B) w :
  bind (submit_all files) k w = k tt (logged w (Submit <$> files)).
Proof. unfold bind. by rewrite submit_all_run. Qed.

Lemma bind_run_workers {B} files (k : unit → M B) w :
  bind (run_workers env files) k w = k tt (run_workers env files w).2.
Proof.
  destruct (run_workers_effect files w) as (Hok & _). unfold bind.
  destruct (run_workers env files w) as [r w']. simpl in *. by subst r.
Qed.

(* The pool and what follows it in main *)
Lemma pool_effect files w :
  let run := bind (submit_all files)
               (λ _, bind (run_workers env files)
                       (λ _, bind merge_outputs (λ _, emit PrintElapsed))) in
  (∃ evs, log (run w).2 = log w ++ evs ∧ submitted evs = files)
  ∧ changed_only (may_write files) (fs w) (fs (run w).2).
Proof.
  intros run. unfold run. rewrite bind_submit_all, bind_run_workers.
  set (w1 := logged w (Submit <$> files)).
  destruct (run_workers_effect files w1) as (_ & (evs2 & Hlog2 & Hsub2) & Hfs2).
  set (w2 := (run_workers env files w1).2) in *.
  destruct (merge_outputs_effect w2) as [(evs3 & Hlog3 & Hsub3) Hfs3].
  assert (changed_only (may_write files) (fs w) (fs (merge_outputs w2).2)) as Hfs.
  { eapply changed_only_weaken; [|exact (changed_only_trans _ _ _ _ _ Hfs2 Hfs3)].
    intros dir n [?|?]; [by left|by right]. }
  assert (submitted ((Submit <$> files) ++ evs2 ++ evs3) = files) as Hsub.
  { by rewrite !submitted_app, Hsub2, Hsub3, submitted_fmap, !app_nil_r. }
  assert (log (merge_outputs w2).2 = log w ++ (Submit <$> files) ++ evs2 ++ evs3) as Hlog.
  { rewrite Hlog3, Hlog2. unfold w1. simpl. by rewrite <- !app_assoc. }
  unfold bind. destruct (merge_outputs w2) as [[[]|e] w3]; simpl in *.
  - split; [|done]. exists (((Submit <$> files) ++ evs2 ++ evs3) ++ [PrintElapsed]).
    rewrite Hlog, <- !app_assoc. split; [done|].
    rewrite !app_assoc, submitted_app, <- !app_assoc, Hsub. by rewrite app_nil_r.
  - split; [|done]. eauto.
Qed.

(* One call of main *)
Lemma main_effect w :
  (∃ evs, log (main env w).2 = log w ++ evs ∧ submitted evs = dispatch w)
  ∧ changed_only (may_write (dispatch w)) (fs w) (fs (main env w).2).
Proof.
  unfold main.
  set (found := bool_decide (is_Some (fs w !! INPUT_DIR))
                || bool_decide (is_Some (lookup_file INPUT_DIR w))).
  rewrite (bind_ok (path_exists INPUT_DIR) _ w found w eq_refl).
  destruct found eqn:Hfound; cbn [negb]; cycle 1.
  { apply orb_false_iff in Hfound as [Hdir _].
    apply bool_decide_eq_false in Hdir.
    rewrite dispatch_no_inputs.
    - rewrite bind_print. split; [|apply changed_only_refl]. unfold raise. simpl. eauto.
    - unfold csv_files, listdir. destruct (fs w !! INPUT_DIR); [|done].
      exfalso. apply Hdir. eauto. }
  rewrite bind_glob.
  destruct (csv_files INPUT_DIR w) as [|f files] eqn:Hin.
  { rewrite dispatch_no_inputs by done. rewrite bind_print.
    split; [|apply changed_only_refl]. unfold raise. simpl. eauto. }
  rewrite bind_glob.
  assert (remaining_files (f :: files) (csv_files OUTPUT_DIR w) = dispatch w) as ->.
  { unfold dispatch. by rewrite Hin. }
  rewrite !bind_print. rewrite !logged_logged.
  match goal with |- context [logged w ?l] => set (prints := l) end.
  destruct (pool_effect (dispatch w) (logged w prints)) as [(evs & Hlog & Hsub) Hfs].
  simpl in Hlog, Hfs. split; [|done].
  exists (prints ++ evs). rewrite Hlog, <- app_assoc. split; [done|].
  by rewrite submitted_app, Hsub.
Qed.

End Pipeline.

(* ===================================================================== *)
(* 21. Running the script again                                          *)
(* ===================================================================== *)

Section Resume.

Context (env : Env).

Lemma entries_mkdir (m : gmap str (gmap str file)) d dir :
  entries (match m !! d with Some _ => m | None => <[d := ∅]> m end) dir = entries m dir.
Proof.
  destruct (m !! d) eqn:Hd; [done|]. rewrite entries_insert.
  case_decide; [|done]. subst. unfold entries. by rewrite Hd.
Qed.

Lemma makedirs_output_effect w :
  (lookup_file OUTPUT_DIR w = None
   ∧ ∃ w', makedirs_output w = (Ok tt, w') ∧ log w' = log w
           ∧ ∀ dir, entries (fs w') dir = entries (fs w) dir)
  ∨ (is_Some (lookup_file OUTPUT_DIR w) ∧ ∃ e, makedirs_output w = (Raise e, w)).
Proof.
  unfold makedirs_output. destruct (lookup_file OUTPUT_DIR w) eqn:Hfile.
  - right. eauto.
  - left. split; [done|]. eexists. split_and!; [done..|].
    intros dir. simpl. by rewrite !entries_mkdir.
Qed.

Lemma csv_files_entries dir w w' :
  entries (fs w') dir = entries (fs w) dir → csv_files dir w' = csv_files dir w.
Proof. intros H. unfold csv_files. by rewrite !listdir_entries, H. Qed.

Lemma dispatch_entries w w' :
  (∀ dir, entries (fs w') dir = entries (fs w) dir) → dispatch w' = dispatch w.
Proof.
  intros H. unfold dispatch.
  by rewrite (csv_files_entries INPUT_DIR w w'), (csv_files_entries OUTPUT_DIR w w').
Qed.

(* One run of the script from a world in which the module level does not
   fail *)
Lemma script_effect w :
  lookup_file OUTPUT_DIR w = None →
  (∃ evs, log (script env w).2 = log w ++ evs ∧ submitted evs = dispatch w)
  ∧ changed_only (may_write (dispatch w)) (fs w) (fs (script env w).2).
Proof.
  intros Hfile.
  destruct (makedirs_output_effect w) as [(_ & w' & Hrun & Hlog & Hent)|([f Hf] & _)];
    [|congruence].
  unfold script. rewrite (bind_ok _ _ _ _ _ Hrun).
  destruct (main_effect env w') as [(evs & Hlog' & Hsub) Hfs].
  rewrite (dispatch_entries w w' Hent) in Hsub, Hfs. split.
  - exists evs. by rewrite Hlog', Hlog.
  - intros dir n Hn. rewrite (Hfs dir n Hn). by rewrite Hent.
Qed.

Lemma script_Ok_inv w w' :
  script env w = (Ok tt, w') → lookup_file OUTPUT_DIR w = None.
Proof.
  intros Hrun.
  destruct (makedirs_output_effect w) as [(H & _)|(_ & e & Hmk)]; [done|].
  unfold script in Hrun. by rewrite (bind_raise _ _ _ _ _ Hmk) in Hrun.
Qed.

Lemma wf_names_spec w :
  wf_names w ↔
  ∀ dir n, dir = INPUT_DIR ∨ dir = OUTPUT_DIR →
           is_Some (entries (fs w) dir !! n) → Path.slash ∉ n.
Proof.
  unfold wf_names. rewrite forallb_Forall, Forall_app, !Forall_forall. split.
  - intros [Hin Hout] dir n [->| ->] Hn; apply elem_of_listdir in Hn.
    + specialize (Hin n Hn). apply negb_true_iff, bool_decide_eq_false in Hin. done.
    + specialize (Hout n Hn). apply negb_true_iff, bool_decide_eq_false in Hout. done.
  - intros H. split; intros n Hn; apply elem_of_listdir in Hn;
      apply negb_true_iff, bool_decide_eq_false.
    + by apply (H INPUT_DIR); [left|].
    + by apply (H OUTPUT_DIR); [right|].
Qed.

Lemma filter_ext_in {A} (P Q : A → Prop)
    `{!∀ x, Decision (P x), !∀ x, Decision (Q x)} (l : list A) :
  (∀ x, x ∈ l → P x ↔ Q x) → filter P l = filter Q l.
Proof.
  induction l as [|x l IH]; intros Hext; [done|].
  rewrite !filter_cons. rewrite IH by (intros; apply Hext; by right).
  assert (P x ↔ Q x) as Hx by (apply Hext; left).
  destruct (decide (P x)) as [HP|HP], (decide (Q x)) as [HQ|HQ]; tauto.
Qed.

(* main leaves out exactly the inputs that have an output file. *)
Lemma dispatch_pending w : wf_names w → dispatch w = pending w.
Proof.
  intros Hwf. rewrite wf_names_spec in Hwf.
  unfold dispatch, pending, remaining_files. apply filter_ext_in.
  intros f Hf. unfold csv_files in Hf.
  apply list_elem_of_fmap in Hf as (n0 & -> & Hn0).
  apply list_elem_of_filter in Hn0 as [Hcsv Hn0].
  assert (Path.slash ∉ n0) as Hslash.
  { apply (Hwf INPUT_DIR); [by left|]. by apply elem_of_listdir. }
  rewrite lookup_file_entries.
  destruct (output_path_split (Path.join INPUT_DIR n0)) as [-> ->].
  rewrite basename_join by (done || apply plain_INPUT_DIR).
  rewrite elem_of_list_to_set, list_elem_of_fmap.
  split.
  - intros Hnot. apply eq_None_not_Some. intros Hsome. apply Hnot.
    exists (Path.join OUTPUT_DIR n0). split.
    + rewrite basename_join; [done|apply plain_OUTPUT_DIR|done].
    + unfold csv_files. apply list_elem_of_fmap_2, list_elem_of_filter.
      split; [done|]. by apply elem_of_listdir.
  - intros Hnone (g & Hg & Hin). unfold csv_files in Hin.
    apply list_elem_of_fmap in Hin as (n & -> & Hn).
    apply list_elem_of_filter in Hn as [_ Hn].
    apply elem_of_listdir in Hn.
    rewrite basename_join in Hg; [|apply plain_OUTPUT_DIR|].
    + subst n. rewrite Hnone in Hn. by destruct Hn.
    + apply (Hwf OUTPUT_DIR); [by right|done].
Qed.

Lemma INPUT_DIR_apart : INPUT_DIR ≠ OUTPUT_DIR ∧ INPUT_DIR ≠ BASE_DIR ∧ OUTPUT_DIR ≠ BASE_DIR.
Proof. split_and!; intros H; vm_compute in H; discriminate. Qed.

Lemma OUTPUT_DIR_split :
  Path.dirname OUTPUT_DIR = BASE_DIR
  ∧ Path.basename OUTPUT_DIR = u "classified_natcomm_2023_by_gemma".
Proof. split; vm_compute; reflexivity. Qed.

(* What a run leaves true for the next one *)
Lemma script_keeps w w' :
  wf_names w → script env w = (Ok tt, w') →
  wf_names w' ∧ lookup_file OUTPUT_DIR w' = None.
Proof.
  intros Hwf Hrun. pose proof (script_Ok_inv w w' Hrun) as Hfile.
  destruct (script_effect w Hfile) as [_ Hfs]. rewrite Hrun in Hfs. simpl in Hfs.
  destruct INPUT_DIR_apart as (Hio & Hib & Hob). split.
  - rewrite wf_names_spec in Hwf |- *. intros dir n Hdir Hn.
    destruct (decide (dir = OUTPUT_DIR ∧ n ∈ Path.basename <$> dispatch w))
      as [[_ Hin]|Hnot].
    + apply list_elem_of_fmap in Hin as (g & -> & _). apply basename_no_slash.
    + rewrite Hfs in Hn; [by apply (Hwf dir)|].
      intros [?|[-> _]]; [done|]. destruct Hdir; congruence.
  - rewrite lookup_file_entries in Hfile |- *.
    destruct OUTPUT_DIR_split as [Hd Hb]. rewrite Hd, Hb in *.
    rewrite Hfs; [done|]. intros [[? _]|[_ Hn]]; [congruence|].
    vm_compute in Hn. discriminate.
Qed.

End Resume.

(* ===================================================================== *)
(* 21a. What a run leaves for each unit it dispatched                    *)
(* ===================================================================== *)

Section RunUnits.

Context (env : Env).

Lemma listdir_NoDup dir w : NoDup (listdir dir w).
Proof.
  unfold listdir. destruct (fs w !! dir) as [d|]; [|constructor].
  apply NoDup_fst_map_to_list.
Qed.

(* The inputs main dispatches have different names. *)
Lemma dispatch_NoDup w : wf_names w → NoDup (Path.basename <$> dispatch w).
Proof.
  intros Hwf. rewrite wf_names_spec in Hwf.
  assert (Path.basename <$> csv_files INPUT_DIR w
          = filter (λ n, matches_csv n) (listdir INPUT_DIR w)) as Hnames.
  { unfold csv_files. rewrite <- list_fmap_compose.
    rewrite <- (list_fmap_id (filter _ _)) at 2.
    apply Forall_fmap_ext, Forall_forall. intros n Hn.
    apply list_elem_of_filter in Hn as [_ Hn]. apply elem_of_listdir in Hn.
    simpl. apply basename_join; [apply plain_INPUT_DIR|].
    by apply (Hwf INPUT_DIR); [left|]. }
  apply (sublist_NoDup _ (Path.basename <$> csv_files INPUT_DIR w)).
  - rewrite Hnames. apply NoDup_filter, listdir_NoDup.
  - apply (fmap_sublist Path.basename). unfold dispatch, remaining_files.
    apply sublist_filter.
Qed.

Lemma process_file_missing path w :
  (process_file env path w).1 = missing_status (Path.basename path) →
  (process_file env path w).2 = w.
Proof.
  intros Hst.
  destruct (process_file_cases env path w)
    as [(e & Hrun & _)|[(df & _ & _ & Hrun)|(df & r & rest & _ & _ & _ & Hrun)]].
  - rewrite Hrun in Hst. simpl in Hst. symmetry in Hst.
    by apply status_missing_not_error in Hst.
  - by rewrite Hrun.
  - destruct Hrun as [(e & w1 & _ & Hrun)|(answer & w1 & _ & Hrun)];
      rewrite Hrun in Hst.
    + simpl in Hst. symmetry in Hst. by apply status_missing_not_error in Hst.
    + destruct (persist env _ _ _ answer w1) as [[st|e] w'] eqn:Hp; simpl in Hst.
      * apply persist_Ok_inv in Hp as (_ & _ & _ & _ & -> & _).
        by apply status_done_not_missing in Hst.
      * symmetry in Hst. by apply status_missing_not_error in Hst.
Qed.

(* The pool, seen from one of its files: the file is processed once, in
   a world in which the entry of its name in the output directory is
   what it was when the pool started; its status line is printed; and
   what that call left under the name is there when the pool ends. *)
Lemma run_workers_unit files : ∀ w f,
  NoDup (Path.basename <$> files) → f ∈ files →
  ∃ wf evs,
    entries (fs wf) OUTPUT_DIR !! Path.basename f
    = entries (fs w) OUTPUT_DIR !! Path.basename f
    ∧ log (run_workers env files w).2 = log w ++ evs
    ∧ Print (process_file env f wf).1 ∈ evs
    ∧ entries (fs (run_workers env files w).2) OUTPUT_DIR !! Path.basename f
      = entries (fs (process_file env f wf).2) OUTPUT_DIR !! Path.basename f.
Proof.
  induction files as [|g files IH]; intros w f Hnd Hf; [by apply elem_of_nil in Hf|].
  rewrite fmap_cons in Hnd. apply NoDup_cons in Hnd as [Hg Hnd].
  rewrite run_workers_cons.
  destruct (process_file_effect env g w) as [(evs1 & Hlog1 & _) Hfs1].
  set (w' := logged (process_file env g w).2 [Print (process_file env g w).1]).
  apply elem_of_cons in Hf as [->|Hf].
  - destruct (run_workers_effect env files w') as (_ & (evs2 & Hlog2 & _) & Hfs2).
    exists w, (evs1 ++ [Print (process_file env g w).1] ++ evs2). split_and!.
    + done.
    + rewrite Hlog2. unfold w'. cbn [logged log]. rewrite Hlog1.
      by rewrite <- !app_assoc.
    + apply elem_of_app. right. by left.
    + rewrite Hfs2; [done|]. by intros [_ ?].
  - assert (Path.basename f ≠ Path.basename g) as Hne.
    { intros Heq. apply Hg. rewrite <- Heq. by apply list_elem_of_fmap_2. }
    destruct (IH w' f Hnd Hf) as (wf & evs2 & Hbefore & Hlog2 & Hprint & Hafter).
    exists wf, (evs1 ++ [Print (process_file env g w).1] ++ evs2). split_and!.
    + rewrite Hbefore. unfold w'. cbn [logged fs]. apply Hfs1. by intros [_ ?].
    + rewrite Hlog2. unfold w'. cbn [logged log]. rewrite Hlog1.
      by rewrite <- !app_assoc.
    + apply elem_of_app. right. by right.
    + done.
Qed.

(* The same for a call of main *)
Lemma main_unit w f :
  wf_names w → f ∈ dispatch w →
  ∃ wf evs,
    lookup_file (output_path f) wf = None
    ∧ log (main env w).2 = log w ++ evs
    ∧ Print (process_file env f wf).1 ∈ evs
    ∧ lookup_file (output_path f) (main env w).2
      = lookup_file (output_path f) (process_file env f wf).2.
Proof.
  intros Hwf Hf.
  assert (lookup_file (output_path f) w = None) as Hnone.
  { rewrite (dispatch_pending w Hwf) in Hf.
    by apply list_elem_of_filter in Hf as [? _]. }
  pose proof (dispatch_NoDup w Hwf) as Hnd.
  destruct (csv_files INPUT_DIR w) as [|f0 files] eqn:Hin.
  { rewrite dispatch_no_inputs in Hf by done. by apply elem_of_nil in Hf. }
  assert (bool_decide (is_Some (fs w !! INPUT_DIR))
          || bool_decide (is_Some (lookup_file INPUT_DIR w)) = true) as Hfound.
  { apply orb_true_iff. left. apply bool_decide_eq_true.
    unfold csv_files, listdir in Hin. destruct (fs w !! INPUT_DIR); [eauto|done]. }
  unfold main.
  rewrite (bind_ok (path_exists INPUT_DIR) _ w true w)
    by (unfold path_exists; by rewrite Hfound).
  cbn [negb]. rewrite bind_glob, Hin, bind_glob.
  assert (remaining_files (f0 :: files) (csv_files OUTPUT_DIR w) = dispatch w) as ->.
  { unfold dispatch. by rewrite Hin. }
  rewrite !bind_print. rewrite !logged_logged.
  match goal with |- context [logged w ?l] => set (prints := l) end.
  rewrite bind_submit_all, (bind_run_workers env), logged_logged.
  set (w1 := logged w (prints ++ (Submit <$> dispatch w))).
  destruct (run_workers_unit (dispatch w) w1 f Hnd Hf)
    as (wf & evs2 & Hbefore & Hlog2 & Hprint & Hafter).
  set (w2 := (run_workers env (dispatch w) w1).2) in *.
  destruct (merge_outputs_effect w2) as [(evs3 & Hlog3 & _) Hfs3].
  destruct INPUT_DIR_apart as (_ & _ & Hob).
  assert (∀ w', lookup_file (output_path f) w'
                = entries (fs w') OUTPUT_DIR !! Path.basename f) as Hlook.
  { intros w'. rewrite lookup_file_entries.
    by destruct (output_path_split f) as [-> ->]. }
  assert (lookup_file (output_path f) (merge_outputs w2).2
          = lookup_file (output_path f) (process_file env f wf).2) as Hend.
  { rewrite !Hlook, <- Hafter. apply Hfs3. by intros [? _]. }
  assert (log (merge_outputs w2).2
          = log w ++ prints ++ (Submit <$> dispatch w) ++ evs2 ++ evs3) as Hlog.
  { rewrite Hlog3, Hlog2. unfold w1. cbn [logged log]. by rewrite <- !app_assoc. }
  assert (Print (process_file env f wf).1
          ∈ prints ++ (Submit <$> dispatch w) ++ evs2 ++ evs3) as Hin2.
  { apply elem_of_app. right. apply elem_of_app. right. apply elem_of_app. by left. }
  exists wf. unfold bind.
  destruct (merge_outputs w2) as [[[]|e] w3]; cbn [snd] in *.
  - exists ((prints ++ (Submit <$> dispatch w) ++ evs2 ++ evs3) ++ [PrintElapsed]).
    split_and!.
    + rewrite Hlook, Hbefore. unfold w1. cbn [logged fs]. by rewrite <- Hlook.
    + cbn [emit snd log]. rewrite Hlog. by rewrite <- !app_assoc.
    + apply elem_of_app. by left.
    + done.
  - exists (prints ++ (Submit <$> dispatch w) ++ evs2 ++ evs3). split_and!.
    + rewrite Hlook, Hbefore. unfold w1. cbn [logged fs]. by rewrite <- Hlook.
    + done.
    + done.
    + done.
Qed.

(* What a run leaves true for the next one, however it ends *)
Lemma script_keeps_any w :
  wf_names w → lookup_file OUTPUT_DIR w = None →
  wf_names (script env w).2
  ∧ lookup_file OUTPUT_DIR (script env w).2 = None
  ∧ csv_files INPUT_DIR (script env w).2 = csv_files INPUT_DIR w.
Proof.
  intros Hwf Hfile.
  destruct (script_effect env w Hfile) as [_ Hfs].
  destruct INPUT_DIR_apart as (Hio & Hib & Hob). split_and!.
  - rewrite wf_names_spec in Hwf |- *. intros dir n Hdir Hn.
    destruct (decide (dir = OUTPUT_DIR ∧ n ∈ Path.basename <$> dispatch w))
      as [[_ Hin]|Hnot].
    + apply list_elem_of_fmap in Hin as (g & -> & _). apply basename_no_slash.
    + rewrite Hfs in Hn; [by apply (Hwf dir)|].
      intros [?|[-> _]]; [done|]. destruct Hdir; congruence.
  - rewrite lookup_file_entries in Hfile |- *.
    destruct OUTPUT_DIR_split as [Hd Hb]. rewrite Hd, Hb in *.
    rewrite Hfs; [done|]. intros [[? _]|[_ Hn]]; [congruence|].
    vm_compute in Hn. discriminate.
  - apply csv_files_entries, map_eq. intros n. apply Hfs.
    by intros [[? _]|[? _]].
Qed.

(* The same as main_unit for a run of the script *)
Lemma script_unit w f :
  wf_names w → lookup_file OUTPUT_DIR w = None → f ∈ pending w →
  ∃ wf evs,
    lookup_file (output_path f) wf = None
    ∧ log (script env w).2 = log w ++ evs
    ∧ Print (process_file env f wf).1 ∈ evs
    ∧ lookup_file (output_path f) (script env w).2
      = lookup_file (output_path f) (process_file env f wf).2.
Proof.
  intros Hwf Hfile Hf. rewrite <- (dispatch_pending w Hwf) in Hf.
  destruct (makedirs_output_effect w) as [(_ & w' & Hrun & Hlog & Hent)|([g Hg] & _)];
    [|congruence].
  assert (wf_names w') as Hwf'.
  { rewrite wf_names_spec in Hwf |- *. intros dir n Hdir Hn.
    rewrite Hent in Hn. by apply (Hwf dir). }
  rewrite <- (dispatch_entries w w' Hent) in Hf.
  destruct (main_unit w' f Hwf' Hf) as (wf & evs & Hnone & Hlog' & Hprint & Hend).
  exists wf, evs. unfold script. rewrite (bind_ok _ _ _ _ _ Hrun).
  split_and!; [done|by rewrite Hlog', Hlog|done|done].
Qed.

End RunUnits.

(** C5 (as amended): main leaves out of the work set every input whose
    basename is that of a file in the output directory, whatever that
    file holds.  So when the script is run twice in succession (the path
    of the output directory not being taken by a regular file), however
    the first run ends, the second run dispatches exactly the inputs for
    which the first left no file at their output path; it leaves every
    file the first run left in the output directory as it found it; and
    when the first run left a file for every input, the second
    dispatches none and the output directory holds the same files as
    after one run.  A unit the first run dispatched was processed once,
    with no file at its output path, and what that call of process_file
    left at the output path is what the second run finds there: the unit
    is dispatched again exactly when the call left no file.  So a unit
    that ended with the missing-column line, or with an error that left
    the files as they were, is dispatched again; a unit whose write
    failed after creating the file is not, although it ended with an
    error line. *)
Theorem C5_second_run (env : Env) (w0 w1 w2 : World) (r1 r2 : result unit) :
  wf_names w0 →
  lookup_file OUTPUT_DIR w0 = None →
  script env w0 = (r1, w1) →
  script env w1 = (r2, w2) →
  (∃ evs, log w2 = log w1 ++ evs ∧ submitted evs = pending w1)
  ∧ (∀ n f, entries (fs w1) OUTPUT_DIR !! n = Some f →
            entries (fs w2) OUTPUT_DIR !! n = Some f)
  ∧ (pending w1 = [] → entries (fs w2) OUTPUT_DIR = entries (fs w1) OUTPUT_DIR)
  ∧ ∀ f, f ∈ pending w0 →
      ∃ wf evs,
        lookup_file (output_path f) wf = None
        ∧ log w1 = log w0 ++ evs
        ∧ Print (process_file env f wf).1 ∈ evs
        ∧ lookup_file (output_path f) w1
          = lookup_file (output_path f) (process_file env f wf).2
        ∧ (f ∈ pending w1
           ↔ lookup_file (output_path f) (process_file env f wf).2 = None)
        ∧ ((process_file env f wf).1 = missing_status (Path.basename f) →
           f ∈ pending w1)
        ∧ (fs (process_file env f wf).2 = fs wf → f ∈ pending w1)
        ∧ (is_Some (lookup_file (output_path f) (process_file env f wf).2) →
           f ∉ pending w1).
Proof.
  intros Hwf0 Hfile0 Hrun1 Hrun2.
  destruct (script_keeps_any env w0 Hwf0 Hfile0) as (Hwf1 & Hfile1 & Hin1).
  rewrite Hrun1 in Hwf1, Hfile1, Hin1. cbn [snd] in Hwf1, Hfile1, Hin1.
  destruct (script_effect env w1 Hfile1) as [(evs & Hlog & Hsub) Hfs].
  rewrite Hrun2 in Hlog, Hfs. simpl in Hlog, Hfs.
  rewrite (dispatch_pending w1 Hwf1) in Hsub, Hfs.
  destruct INPUT_DIR_apart as (Hio & Hib & Hob).
  split_and!.
  - by exists evs.
  - intros n f Hn. rewrite Hfs; [done|].
    intros [[_ Hin]|[? _]]; [|done].
    apply list_elem_of_fmap in Hin as (g & -> & Hg).
    apply list_elem_of_filter in Hg as [Hnone _].
    rewrite lookup_file_entries in Hnone.
    destruct (output_path_split g) as [Hd Hb]. rewrite Hd, Hb in Hnone. congruence.
  - intros Hnone. apply map_eq. intros n. apply Hfs. rewrite Hnone.
    intros [[_ Hin]|[? _]]; [|done]. by apply elem_of_nil in Hin.
  - intros f Hf.
    destruct (script_unit env w0 f Hwf0 Hfile0 Hf)
      as (wf & evs1 & Hnone & Hlog1 & Hprint & Hend).
    rewrite Hrun1 in Hlog1, Hend. cbn [snd] in Hlog1, Hend.
    assert (f ∈ csv_files INPUT_DIR w1) as Hfin.
    { rewrite Hin1. by apply list_elem_of_filter in Hf as [_ ?]. }
    assert (f ∈ pending w1
            ↔ lookup_file (output_path f) (process_file env f wf).2 = None) as Hiff.
    { unfold pending. rewrite list_elem_of_filter, Hend. tauto. }
    exists wf, evs1. split_and!; [done..| | |].
    + intros Hst. apply Hiff.
      by rewrite (process_file_missing env f wf Hst).
    + intros Hsame. apply Hiff. rewrite lookup_file_entries in Hnone |- *.
      by rewrite Hsame.
    + intros [x Hx] Hp. apply Hiff in Hp. congruence.
Qed.

(* ===================================================================== *)
(* 22. extract_json                                                      *)
(* ===================================================================== *)

Section Extraction.

Local Open Scope N_scope.

Lemma startswith_prefix old s : startswith old s = true → ∃ b, s = old ++ b.
Proof.
  revert s. induction old as [|o old IH]; intros s H; [by exists s|].
  destruct s as [|x s]; [done|]. simpl in H.
  apply andb_true_iff in H as [Hx H]. apply N.eqb_eq in Hx as ->.
  destruct (IH s H) as [b ->]. by exists b.
Qed.

Lemma startswith_length old s : startswith old s = true → (length old ≤ length s)%nat.
Proof.
  intros H. destruct (startswith_prefix old s H) as [b ->].
  rewrite length_app. lia.
Qed.

Lemma startswith_sep old a c b :
  c ∉ old → old ≠ [] → startswith old (a ++ c :: b) = startswith old a.
Proof.
  revert a. induction old as [|o old IH]; intros a Hc Hne; [done|].
  apply not_elem_of_cons in Hc as [Hco Hc].
  destruct a as [|x a]; simpl.
  - assert ((o =? c) = false) as -> by (apply N.eqb_neq; congruence). done.
  - destruct old as [|o' old]; [done|]. by rewrite IH.
Qed.

(* A character that is not part of old cuts the text in two for replace. *)
Lemma replace_from_sep old new c b :
  c ∉ old → old ≠ [] →
  ∀ a skip, (skip ≤ length a)%nat →
    replace_from old new skip (a ++ c :: b)
    = replace_from old new skip a ++ c :: replace_from old new 0 b.
Proof.
  intros Hc Hne. induction a as [|x a IH]; intros skip Hskip.
  - assert (skip = 0%nat) as -> by (simpl in Hskip; lia).
    change ([] ++ c :: b) with (c :: b). cbn [replace_from].
    rewrite <- (app_nil_l (c :: b)) at 1. rewrite startswith_sep by done.
    destruct old; done.
  - change ((x :: a) ++ c :: b) with (x :: (a ++ c :: b)). cbn [replace_from].
    destruct skip as [|k]; [|apply IH; simpl in Hskip; lia].
    change (x :: (a ++ c :: b)) with ((x :: a) ++ c :: b).
    rewrite startswith_sep by done.
    destruct (startswith old (x :: a)) eqn:Hsw.
    + apply startswith_length in Hsw. simpl in Hsw.
      rewrite IH by lia. by rewrite app_assoc.
    + rewrite IH by lia. done.
Qed.

Lemma replace_sep old new a c b :
  c ∉ old → old ≠ [] →
  replace old new (a ++ c :: b) = replace old new a ++ c :: replace old new b.
Proof. intros Hc Hne. unfold replace. apply replace_from_sep; [done..|lia]. Qed.

Lemma replace_from_sublist old s : ∀ skip, replace_from old [] skip s `sublist_of` s.
Proof.
  induction s as [|c s IH]; intros skip; [done|]. cbn [replace_from].
  destruct skip as [|k]; [|apply sublist_cons, IH].
  destruct (startswith old (c :: s)).
  - rewrite app_nil_l. apply sublist_cons, IH.
  - apply sublist_skip, IH.
Qed.

Lemma replace_no_occurrence old new s :
  old ≠ [] → ¬ occurs old s → replace old new s = s.
Proof.
  intros Hne. unfold replace. induction s as [|c s IH]; intros Hocc; [done|].
  cbn [replace_from]. destruct (startswith old (c :: s)) eqn:Hsw.
  - exfalso. apply Hocc. destruct (startswith_prefix _ _ Hsw) as [b Hb].
    exists [], b. by rewrite Hb.
  - rewrite IH; [done|]. intros (a & b & ->). apply Hocc. by exists (c :: a), b.
Qed.

Lemma brace_not_in_fences :
  (lbrace ∉ fence_json) ∧ (lbrace ∉ fence) ∧ (rbrace ∉ fence_json) ∧ (rbrace ∉ fence).
Proof. split_and!; apply (bool_decide_unpack _); by vm_compute. Qed.

Lemma strip_fences_sep a c b :
  c ∉ fence_json → c ∉ fence →
  strip_fences (a ++ c :: b) = strip_fences a ++ c :: strip_fences b.
Proof.
  intros H1 H2. unfold strip_fences.
  rewrite (replace_sep fence_json) by done. by rewrite (replace_sep fence).
Qed.

Lemma strip_fences_sublist s : strip_fences s `sublist_of` s.
Proof.
  unfold strip_fences, replace.
  etrans; [apply replace_from_sublist|apply replace_from_sublist].
Qed.

Lemma strip_fences_no_fence s : ¬ occurs fence s → strip_fences s = s.
Proof.
  intros Hocc. unfold strip_fences.
  rewrite (replace_no_occurrence fence_json); [by apply replace_no_occurrence|done|].
  intros (a & b & ->). apply Hocc. exists a, (u "json" ++ b).
  change fence_json with (fence ++ u "json"). by rewrite <- !app_assoc.
Qed.

Lemma through_last_None s : rbrace ∉ s → through_last_rbrace s = None.
Proof.
  induction s as [|c s IH]; intros H; [done|].
  apply not_elem_of_cons in H as [Hc H]. simpl. rewrite IH by done.
  by assert ((c =? rbrace) = false) as -> by (apply N.eqb_neq; congruence).
Qed.

Lemma through_last_span m s :
  rbrace ∉ s → through_last_rbrace (m ++ rbrace :: s) = Some (m ++ [rbrace]).
Proof.
  intros H. induction m as [|x m IH]; simpl.
  - by rewrite through_last_None.
  - by rewrite IH.
Qed.

Lemma through_last_Some s m :
  through_last_rbrace s = Some m → ∃ b c, s = b ++ rbrace :: c.
Proof.
  revert m. induction s as [|x s IH]; intros m H; [done|]. simpl in H.
  destruct (through_last_rbrace s) as [m'|].
  - destruct (IH m' eq_refl) as (b & c & ->). by exists (x :: b), c.
  - destruct (x =? rbrace) eqn:Hx; [|done]. apply N.eqb_eq in Hx as ->. by exists [], s.
Qed.

Lemma search_braces_cons x s :
  search_braces (x :: s)
  = match match_braces (x :: s) with Some m => Some m | None => search_braces s end.
Proof. done. Qed.

Lemma search_braces_span p m s :
  lbrace ∉ p → rbrace ∉ s →
  search_braces (p ++ lbrace :: m ++ rbrace :: s) = Some (lbrace :: m ++ [rbrace]).
Proof.
  intros Hp Hs. induction p as [|x p IH].
  - change ([] ++ lbrace :: m ++ rbrace :: s) with (lbrace :: (m ++ rbrace :: s)).
    rewrite search_braces_cons. unfold match_braces.
    rewrite N.eqb_refl, through_last_span by done. done.
  - apply not_elem_of_cons in Hp as [Hx Hp].
    change ((x :: p) ++ lbrace :: m ++ rbrace :: s)
      with (x :: (p ++ lbrace :: m ++ rbrace :: s)).
    rewrite search_braces_cons. unfold match_braces.
    assert ((x =? lbrace) = false) as -> by (apply N.eqb_neq; congruence).
    by apply IH.
Qed.

Lemma search_braces_Some t m : search_braces t = Some m → has_span t.
Proof.
  induction t as [|x t IH]; intros H; [done|].
  rewrite search_braces_cons in H. unfold match_braces in H.
  destruct (x =? lbrace) eqn:Hx.
  - apply N.eqb_eq in Hx as ->.
    destruct (through_last_rbrace t) as [m'|] eqn:Hm; simpl in H.
    + destruct (through_last_Some _ _ Hm) as (b & c & ->). by exists [], b, c.
    + destruct (IH H) as (a & b & c & ->). by exists (lbrace :: a), b, c.
  - destruct (IH H) as (a & b & c & ->). by exists (x :: a), b, c.
Qed.

Lemma has_span_sublist s t : s `sublist_of` t → has_span s → has_span t.
Proof.
  intros Hsub (a & b & c & ->).
  apply sublist_app_l in Hsub as (a' & t1 & -> & _ & Hsub).
  apply sublist_cons_l in Hsub as (a2 & t2 & -> & Hsub).
  apply sublist_app_l in Hsub as (b' & t3 & -> & _ & Hsub).
  apply sublist_cons_l in Hsub as (b2 & c' & -> & _).
  exists (a' ++ a2), (b' ++ b2), c'. by rewrite <- !app_assoc.
Qed.

(* The span is the object when the text before it has no opening brace
   and the text after it no closing brace. *)
Lemma extract_json_object before inside after :
  lbrace ∉ before → rbrace ∉ after →
  extract_json (before ++ (lbrace :: inside ++ [rbrace]) ++ after)
  = Some (lbrace :: strip_fences inside ++ [rbrace]).
Proof.
  intros Hb Ha. destruct brace_not_in_fences as (Hl1 & Hl2 & Hr1 & Hr2).
  unfold extract_json.
  fold (strip_fences (before ++ (lbrace :: inside ++ [rbrace]) ++ after)).
  change ((lbrace :: inside ++ [rbrace]) ++ after)
    with (lbrace :: ((inside ++ [rbrace]) ++ after)).
  rewrite <- (app_assoc inside). simpl.
  rewrite strip_fences_sep by done. rewrite strip_fences_sep by done.
  apply search_braces_span.
  - intros H. apply Hb. eapply elem_of_sublist; [done|apply strip_fences_sublist].
  - intros H. apply Ha. eapply elem_of_sublist; [done|apply strip_fences_sublist].
Qed.

Lemma parse_answer_object before inside after :
  lbrace ∉ before → rbrace ∉ after → ¬ occurs fence inside →
  extract_json (before ++ (lbrace :: inside ++ [rbrace]) ++ after)
  = Some (lbrace :: inside ++ [rbrace])
  ∧ parse_answer (before ++ (lbrace :: inside ++ [rbrace]) ++ after)
    = fields_of (lbrace :: inside ++ [rbrace]).
Proof.
  intros Hb Ha Hocc.
  pose proof (extract_json_object before inside after Hb Ha) as Hext.
  rewrite strip_fences_no_fence in Hext by done.
  split; [done|]. unfold parse_answer. by rewrite Hext.
Qed.

End Extraction.

(* ===================================================================== *)
(* 23. The answer the prompt asks for                                    *)
(* ===================================================================== *)

Section Answer.

Import Json.

Lemma scanstring_plain s rest :
  plain s → scanstring (s ++ dquote :: rest) = Some (s, rest).
Proof.
  induction 1 as [|c s (Hq & Hb & Hc) _ IH]; [done|].
  change ((c :: s) ++ dquote :: rest) with (c :: (s ++ dquote :: rest)).
  cbn [scanstring]. rewrite IH.
  apply N.eqb_neq in Hq, Hb. rewrite Hq, Hb.
  assert ((c <? 32)%N = false) as -> by (apply N.ltb_ge; done). done.
Qed.

Lemma plain_category : plain (u "category").
Proof. repeat constructor; try (intros H; discriminate H); by vm_compute. Qed.

Lemma plain_reason : plain (u "reason").
Proof. repeat constructor; try (intros H; discriminate H); by vm_compute. Qed.

Lemma scan_answer_json c r f :
  plain c → plain r →
  scan_once (S (S (S (S f)))) (answer_json c r)
  = Some (PDict [(u "category", PStr c); (u "reason", PStr r)], []).
Proof.
  intros Hc Hr. unfold answer_json, q.
  repeat rewrite <- app_assoc.
  change (u "{" ++ [dquote] ++ u "category" ++ [dquote] ++ u ": " ++ [dquote] ++ c
          ++ [dquote] ++ u ", " ++ [dquote] ++ u "reason" ++ [dquote] ++ u ": "
          ++ [dquote] ++ r ++ [dquote] ++ u "}")
    with (lbrace :: dquote :: (u "category" ++ dquote :: (colon :: 32%N :: dquote ::
            (c ++ dquote :: (comma :: 32%N :: dquote :: (u "reason" ++ dquote ::
               (colon :: 32%N :: dquote :: (r ++ dquote :: [rbrace])))))))).
  cbn -[u]. rewrite (scanstring_plain _ _ plain_category).
  cbn -[u]. rewrite (scanstring_plain _ _ Hc).
  cbn -[u]. rewrite (scanstring_plain _ _ plain_reason).
  cbn -[u]. rewrite (scanstring_plain _ _ Hr).
  cbn -[u]. by replace (str_eqb (u "category") (u "reason")) with false by (by vm_compute).
Qed.

(* The answer the prompt asks for is parsed into its two fields. *)
Lemma fields_of_answer_json c r :
  plain c → plain r → fields_of (answer_json c r) = Some (PStr c, PStr r).
Proof.
  intros Hc Hr. unfold fields_of, loads.
  assert (∃ rest, answer_json c r = lbrace :: rest) as [rest Hrest].
  { unfold answer_json. by eexists. }
  assert (startswith [65279%N] (answer_json c r) = false) as -> by (by rewrite Hrest).
  assert (skip_ws (answer_json c r) = answer_json c r) as -> by (by rewrite Hrest).
  destruct (fuel_for (answer_json c r)) as [|[|[|[|f]]]] eqn:Hfuel;
    [unfold fuel_for in Hfuel; rewrite Hrest in Hfuel; cbn [length] in Hfuel; lia..|].
  rewrite scan_answer_json by done. vm_compute. reflexivity.
Qed.

Lemma no_backtick_no_fence s : backtick ∉ s → ¬ occurs fence s.
Proof.
  intros Hs (a & b & ->). apply Hs.
  apply elem_of_app. right. apply elem_of_app. left. by left.
Qed.

Lemma answer_json_object c r :
  answer_json c r
  = lbrace :: (q (u "category") ++ u ": " ++ q c ++ u ", "
               ++ q (u "reason") ++ u ": " ++ q r) ++ [rbrace].
Proof. unfold answer_json. by rewrite <- !app_assoc. Qed.

Lemma answer_json_no_fence c r :
  backtick ∉ c → backtick ∉ r →
  ¬ occurs fence (q (u "category") ++ u ": " ++ q c ++ u ", "
                  ++ q (u "reason") ++ u ": " ++ q r).
Proof.
  intros Hc Hr. apply no_backtick_no_fence. unfold q.
  rewrite !not_elem_of_app.
  split_and!; try done; apply (bool_decide_unpack _); by vm_compute.
Qed.

End Answer.

(** C2 (as amended): extract_json returns the text from the first
    opening brace to the last closing brace of the output, with the code
    fence markers removed.  So when the output is an object, some text
    before it without an opening brace and some text after it without a
    closing brace (code fences and prose otherwise as they come), the
    result is the object with the fence markers inside it removed; when
    the object contains no fence marker it is the object itself, and the
    try block then yields exactly what json.loads and the two subscripts
    give for the object: for the object the prompt asks for, with a
    category and a reason that need no escaping and hold no backtick,
    these two strings.  For a text with no opening brace followed by a
    closing brace the result is None. *)
Theorem C2_extraction (before inside after : str) :
  lbrace ∉ before → rbrace ∉ after →
  let object := lbrace :: inside ++ [rbrace] in
  extract_json (before ++ object ++ after) = Some (lbrace :: strip_fences inside ++ [rbrace])
  ∧ (¬ occurs fence inside →
       extract_json (before ++ object ++ after) = Some object
       ∧ parse_answer (before ++ object ++ after) = fields_of object)
  ∧ (∀ category reason,
       plain category → plain reason → backtick ∉ category → backtick ∉ reason →
       parse_answer (before ++ answer_json category reason ++ after)
       = Some (PStr category, PStr reason))
  ∧ ∀ text, ¬ has_span text → extract_json text = None ∧ parse_answer text = None.
Proof.
  intros Hb Ha object. split_and!.
  - by apply extract_json_object.
  - intros Hocc. by apply parse_answer_object.
  - intros category reason Hc Hr Hbc Hbr. rewrite answer_json_object.
    rewrite (proj2 (parse_answer_object _ _ _ Hb Ha (answer_json_no_fence _ _ Hbc Hbr))).
    rewrite <- answer_json_object. by apply fields_of_answer_json.
  - intros text Hspan.
    assert (extract_json text = None) as Hnone.
    { destruct (extract_json text) as [m|] eqn:Hm; [|done].
      exfalso. apply Hspan. unfold extract_json in Hm.
      apply search_braces_Some in Hm.
      by apply (has_span_sublist _ _ (strip_fences_sublist text)). }
    split; [done|]. unfold parse_answer. by rewrite Hnone.
Qed.

(* ===================================================================== *)
(* 24. The statements at concrete inputs                                 *)
(* ===================================================================== *)

(* C3 at a model whose second output is the first usable one *)
Lemma C3_witness :
  let env := scripted [u "I cannot answer.";
                       answer_json (u "Author Upon Request Only") (u "on request")] in
  invocations (log (classify_text env (u "Data on request.") (world_of [] [])).2) = 2.
Proof.
  intros env.
  destruct (C3_retry_bound env (u "Data on request.") (world_of [] [])) as [_ H].
  destruct (H 1 (PStr (u "Author Upon Request Only"), PStr (u "on request"))) as [_ Hn].
  - unfold MAX_RETRY. lia.
  - intros j Hj. assert (j = 0) as -> by lia.
    exists (u "I cannot answer."). split; vm_compute; reflexivity.
  - exists (answer_json (u "Author Upon Request Only") (u "on request")).
    split; vm_compute; reflexivity.
  - exact Hn.
Defined.

(* C6 at a model that never prints an object *)
Lemma C6_witness :
  let env := scripted [u "Sorry."; u "{not json}"; u "  Still nothing. "] in
  (classify_text env (u "Data on request.") (world_of [] [])).1
  = Ok (PStr (u "ERROR"), PStr (u "Still nothing.")).
Proof.
  intros env.
  rewrite (C6_terminal_failure env (u "Data on request.") (world_of [] [])
             (u "Still nothing.")); [done| |].
  - intros j Hj. unfold MAX_RETRY in Hj.
    destruct j as [|[|[|j]]]; [| | |lia].
    + exists (u "Sorry."). split; vm_compute; reflexivity.
    + exists (u "{not json}"). split; vm_compute; reflexivity.
    + exists (u "  Still nothing. "). split; vm_compute; reflexivity.
  - exists (u "  Still nothing. "). split; vm_compute; reflexivity.
Defined.

(* C7 at a unit whose text column has another name *)
Lemma C7_witness :
  let w := world_of [(u "a.csv", Csv other_unit)] [] in
  process_file (scripted []) a_csv w = (u "Column missing: a.csv", w).
Proof.
  intros w.
  destruct (C7_missing_column (scripted []) a_csv w other_unit) as [H _].
  - vm_compute. reflexivity.
  - apply (bool_decide_unpack _). vm_compute. reflexivity.
  - exact H.
Defined.

(* C8 at a unit of two rows *)
Lemma C8_witness :
  let env := scripted [answer_json (u "Author Upon Request Only") (u "on request")] in
  let w := world_of [(u "a.csv", Csv two_row_unit)] [] in
  log (process_file env a_csv w).2
  = [Invoke (build_prompt (u "Data are available on request."))].
Proof.
  intros env w.
  destruct (C8_first_row_only env a_csv w two_row_unit
              [PStr (u "10.1000/2"); PStr (u "Data are available on request.")]
              [[PStr (u "10.1000/3"); PStr (u "No data were generated.")]]) as [H _].
  - vm_compute. reflexivity.
  - apply (bool_decide_unpack _). vm_compute. reflexivity.
  - reflexivity.
  - rewrite H. vm_compute. reflexivity.
Defined.

(* C10 at a unit whose data cell is empty *)
Lemma C10_witness :
  let env := scripted [answer_json (u "No Data Generated / Not Applicable") (u "empty")] in
  let w := world_of [(u "a.csv", Csv null_unit)] [] in
  (process_file env a_csv w).1 = u "Done: a.csv"
  ∧ log (process_file env a_csv w).2 = [Invoke (build_prompt (u "nan"))].
Proof.
  intros env w.
  destruct (C10_null_cell env a_csv w null_unit [PStr (u "10.1000/4"); PNaN] [])
    as (_ & _ & Hlog & Hdone); [vm_compute; reflexivity|reflexivity|vm_compute; reflexivity|].
  split.
  - rewrite (Hdone (u "No Data Generated / Not Applicable") (u "empty")
               (logged w [Invoke (build_prompt (u "nan"))])).
    + vm_compute. reflexivity.
    + vm_compute. reflexivity.
    + vm_compute. reflexivity.
    + vm_compute. reflexivity.
    + split; repeat constructor.
    + eexists. vm_compute. reflexivity.
    + intros H. vm_compute in H. discriminate.
  - rewrite Hlog. vm_compute. reflexivity.
Defined.

(* C9 at an output directory of two files, of one and of two rows *)
Lemma C9_witness :
  let w := world_of [] [(u "a.csv", Csv statement_unit); (u "b.csv", Csv two_row_unit)] in
  ∃ merged, lookup_file FINAL_OUTPUT (merge_outputs w).2 = Some (Csv merged)
            ∧ length (rows merged) = 3.
Proof.
  intros w.
  destruct (C9_merge_row_count w) as (_ & H & _).
  destruct (H ltac:(intros E; vm_compute in E; discriminate) (merge_outputs w).2)
    as (merged & Hfile & Hrows).
  - vm_compute. reflexivity.
  - exists merged. split; [exact Hfile|]. rewrite Hrows. vm_compute. reflexivity.
Defined.

(* C1 at a model that answers with one of the seven labels *)
Lemma C1_witness :
  let env := scripted [answer_json (u "Fully Public Repository Deposition") (u "Zenodo")] in
  let w := world_of [(u "a.csv", Csv statement_unit)] [] in
  ∃ category reason w1 cells out,
    classify_text env (unit_text env statement_unit) w = (Ok (category, reason), w1)
    ∧ ((∃ k stdout obj d,
          k < MAX_RETRY
          ∧ (∀ j, j < k →
                  attempt_fails env (build_prompt (unit_text env statement_unit)) w j)
          ∧ attempt_gives env (build_prompt (unit_text env statement_unit)) w k
              (category, reason)
          ∧ ollama env (invocations (log w) + k)
              (build_prompt (unit_text env statement_unit))
            = inr stdout
          ∧ extract_json (strip stdout) = Some obj
          ∧ Json.loads obj = Some (PDict d)
          ∧ Json.dict_get (u "category") d = Some category)
       ∨ (category = PStr (u "ERROR")
          ∧ ∀ j, j < MAX_RETRY →
                 attempt_fails env (build_prompt (unit_text env statement_unit)) w j))
    ∧ column_cells env category (length (rows statement_unit)) = Ok cells
    ∧ (is_scalar category → ∀ i, cells i = category)
    ∧ lookup_file (output_path a_csv) (process_file env a_csv w).2 = Some (Csv out)
    ∧ length (rows out) = length (rows statement_unit)
    ∧ ∀ i cs, column_of (u "Category") out !! i = Some cs →
              cs ≠ [] ∧ Forall (λ x, x = cells i) cs.
Proof.
  intros env w. apply (C1_category_written env a_csv w statement_unit).
  - vm_compute. reflexivity.
  - repeat constructor.
  - vm_compute. reflexivity.
Defined.

(* C2 at an answer wrapped in a code fence with prose around it *)
Lemma C2_witness :
  let before := u "Here is the classification:" ++ [newline] ++ u "```json" ++ [newline] in
  let inside := q (u "category") ++ u ": " ++ q (u "Author Upon Request Only") ++ u ", "
                ++ q (u "reason") ++ u ": " ++ q (u "on request") in
  let after := [newline] ++ u "```" ++ [newline] ++ u "I hope this helps." in
  parse_answer (before ++ (lbrace :: inside ++ [rbrace]) ++ after)
  = Some (PStr (u "Author Upon Request Only"), PStr (u "on request")).
Proof.
  intros before inside after.
  destruct (C2_extraction before inside after) as (_ & H & _ & _).
  - apply (bool_decide_unpack _). vm_compute. reflexivity.
  - apply (bool_decide_unpack _). vm_compute. reflexivity.
  - destruct H as [_ ->].
    + intros (a & b & Hocc).
      assert (96%N ∈ inside) as Hin.
      { rewrite Hocc. apply elem_of_app. right. apply elem_of_app. left. left. }
      revert Hin. apply (bool_decide_unpack _). vm_compute. reflexivity.
    + vm_compute. reflexivity.
Defined.

(* C5 at a directory of one unit that the first run classifies *)
Lemma C5_witness :
  let env := scripted [answer_json (u "Fully Public Repository Deposition") (u "Zenodo")] in
  let w0 := world_of [(u "a.csv", Csv statement_unit)] [] in
  let w1 := (script env w0).2 in
  let w2 := (script env w1).2 in
  (∃ evs, log w2 = log w1 ++ evs ∧ submitted evs = pending w1)
  ∧ (∀ n f, entries (fs w1) OUTPUT_DIR !! n = Some f →
            entries (fs w2) OUTPUT_DIR !! n = Some f)
  ∧ (pending w1 = [] → entries (fs w2) OUTPUT_DIR = entries (fs w1) OUTPUT_DIR)
  ∧ ∀ f, f ∈ pending w0 →
      ∃ wf evs,
        lookup_file (output_path f) wf = None
        ∧ log w1 = log w0 ++ evs
        ∧ Print (process_file env f wf).1 ∈ evs
        ∧ lookup_file (output_path f) w1
          = lookup_file (output_path f) (process_file env f wf).2
        ∧ (f ∈ pending w1
           ↔ lookup_file (output_path f) (process_file env f wf).2 = None)
        ∧ ((process_file env f wf).1 = missing_status (Path.basename f) →
           f ∈ pending w1)
        ∧ (fs (process_file env f wf).2 = fs wf → f ∈ pending w1)
        ∧ (is_Some (lookup_file (output_path f) (process_file env f wf).2) →
           f ∉ pending w1).
Proof.
  intros env w0 w1 w2.
  apply (C5_second_run env w0 w1 w2 (script env w0).1 (script env w1).1).
  - vm_compute. reflexivity.
  - vm_compute. reflexivity.
  - unfold w1. by destruct (script env w0).
  - unfold w2. by destruct (script env w1).
Defined.

(* A unit whose write fails after the file was created: the first run
   reports the error for it and returns, the file is there, and the
   second run dispatches nothing. *)
Example failed_write_not_retried :
  let env := scripted [answer_json (u "\ud83d") (u "emoji")] in
  let w0 := world_of [(u "a.csv", Csv statement_unit)] [] in
  let w1 := (script env w0).2 in
  let w2 := (script env w1).2 in
  (script env w0).1 = Ok tt
  ∧ error_status (u "a.csv") UnicodeEncodeError ∈ printed (log w1)
  ∧ is_Some (lookup_file (output_path a_csv) w1)
  ∧ pending w1 = []
  ∧ submitted (drop (length (log w1)) (log w2)) = [].
Proof.
  intros env w0 w1 w2. split_and!.
  - vm_compute. reflexivity.
  - apply (bool_decide_unpack _). vm_compute. reflexivity.
  - eexists. vm_compute. reflexivity.
  - vm_compute. reflexivity.
  - vm_compute. reflexivity.
Qed.

(* A run over three units: the first one dispatched is answered at once,
   the second at the third attempt, the third never.  All three are in
   the final file, the last with the category ERROR; seven model
   processes were started. *)
Example three_units_run :
  let w := (script three_units_model three_units).2 in
  (script three_units_model three_units).1 = Ok tt
  ∧ column_of (u "Category") <$> final_table w
    = Some [[PStr (u "Fully Public Repository Deposition")];
            [PStr (u "Author Upon Request Only")];
            [PStr (u "ERROR")]]
  ∧ invocations (log w) = 7.
Proof. intros w. split_and!; vm_compute; reflexivity. Qed.

(* ===================================================================== *)
(* 25. Inputs on which the stronger statements fail                      *)
(* ===================================================================== *)

(* C1: the model answers with a category of its own; the unit is done
   and the Category column holds that string, which is none of the seven
   labels and not ERROR. *)
Lemma C1_counterexample :
  let env := scripted [answer_json (u "Open access") (u "It is all online.")] in
  let w := world_of [(u "a.csv", Csv statement_unit)] [] in
  (process_file env a_csv w).1 = u "Done: a.csv"
  ∧ (∃ out, lookup_file (output_path a_csv) (process_file env a_csv w).2 = Some (Csv out)
            ∧ column_of (u "Category") out = [[PStr (u "Open access")]])
  ∧ (u "Open access" ∉ TAXONOMY)
  ∧ u "Open access" ≠ u "ERROR".
Proof.
  intros env w. split_and!.
  - vm_compute. reflexivity.
  - eexists. split; vm_compute; reflexivity.
  - apply (bool_decide_unpack _). vm_compute. reflexivity.
  - intros H. vm_compute in H. discriminate.
Qed.

(* C2: a valid two-field object in a code fence, and prose before it
   that has braces of its own.  The span runs from the first opening
   brace of the prose, so parsing fails. *)
Lemma C2_counterexample :
  let object := answer_json (u "Author Upon Request Only") (u "on request") in
  let text := u "Result {final}:" ++ [newline] ++ u "```json" ++ [newline]
              ++ object ++ [newline] ++ u "```" in
  fields_of object = Some (PStr (u "Author Upon Request Only"), PStr (u "on request"))
  ∧ extract_json text = Some (u "{final}:" ++ [newline; newline] ++ object)
  ∧ parse_answer text = None.
Proof. intros object text. split_and!; vm_compute; reflexivity. Qed.

(* C4: the model answers with a lone surrogate, which json.loads
   accepts and the utf-8 codec does not.  The write fails after the file
   was created: process_file returns an error line and leaves, where
   there was no file, one that holds the header and no row. *)
Lemma C4_counterexample :
  let env := scripted [answer_json (u "\ud83d") (u "emoji")] in
  let w := world_of [(u "a.csv", Csv statement_unit)] [] in
  (process_file env a_csv w).1 = error_status (u "a.csv") UnicodeEncodeError
  ∧ lookup_file (output_path a_csv) w = None
  ∧ lookup_file (output_path a_csv) (process_file env a_csv w).2
    = Some (Csv {| columns := [u "doi"; u "data"; u "Category"; u "Reason"];
                   rows := [] |}).
Proof. intros env w. split_and!; vm_compute; reflexivity. Qed.

(* C5: a unit without the data column gets no output file, so the
   second run dispatches it again. *)
Lemma C5_counterexample :
  let env := scripted [] in
  let w0 := world_of [(u "a.csv", Csv other_unit)] [] in
  let w1 := (script env w0).2 in
  let w2 := (script env w1).2 in
  (script env w0).1 = Ok tt
  ∧ submitted (drop (length (log w1)) (log w2)) = [a_csv].
Proof. intros env w0 w1 w2. split; vm_compute; reflexivity. Qed.

(* ===================================================================== *)
(* 26. classify_text: every way through the loop, and the prompt         *)
(* ===================================================================== *)


(** X1: a call of classify_text ends in one of three ways, and the trace
    tells which.  Either attempt k < 3 is the first whose output yields
    an answer, and that answer is returned after k failed passes and one
    more model process; or the model process of attempt k < 3 cannot be
    run after k failed passes, and its exception leaves classify_text at
    once, with no pause and no further attempt; or all three outputs
    yield nothing, and the result is ERROR with the text of the third
    output, after three passes each followed by its pause. *)
Theorem X1_classify_outcomes (env : Env) (text : str) (w : World) :
  let prompt := build_prompt text in
  (∃ k answer, k < MAX_RETRY
     ∧ (∀ j, j < k → attempt_fails env prompt w j)
     ∧ attempt_gives env prompt w k answer
     ∧ classify_text env text w
       = (Ok answer, logged w (failed prompt k ++ [Invoke prompt])))
  ∨ (∃ k e, k < MAX_RETRY
       ∧ (∀ j, j < k → attempt_fails env prompt w j)
       ∧ ollama env (invocations (log w) + k) prompt = inl e
       ∧ classify_text env text w
         = (Raise e, logged w (failed prompt k ++ [Invoke prompt])))
  ∨ (∃ last, (∀ j, j < MAX_RETRY → attempt_fails env prompt w j)
       ∧ attempt_prints env prompt w (MAX_RETRY - 1) last
       ∧ classify_text env text w
         = (Ok (PStr (u "ERROR"), PStr last), logged w (failed prompt MAX_RETRY))).
Proof.
  intros prompt. unfold classify_text. fold prompt.
  destruct (retry_outcomes env prompt MAX_RETRY [] w)
    as [H|[H|(last & Hfail & [[Hn _]|[_ Hlast]] & Hrun)]]; [by left|by right; left|done|].
  right. right. by exists last.
Qed.

Section Prompt.

(* The f-string: a fixed head, the text as it is, a fixed foot *)
Lemma build_prompt_split text :
  build_prompt text
  = (unlines [[]; CATEGORY_PROMPT; []; u "Data Availability Statement:"] ++ triple_quote)
    ++ text ++ (triple_quote ++ [newline] ++ unlines [[]; u "Classify now."]).
Proof.
  unfold build_prompt, unlines. rewrite !bind_cons.
  change (([] : list str) ≫= (λ l : str, l ++ [newline])) with ([] : str).
  by rewrite <- !app_assoc.
Qed.

End Prompt.

(** X2: the prompt embeds the statement text as it is, between a head
    and a foot that do not depend on it; so two different texts never
    get the same prompt. *)
Theorem X2_prompt_embeds_text (text1 text2 : str) :
  text1 ≠ text2 → build_prompt text1 ≠ build_prompt text2.
Proof.
  intros Hne H. apply Hne. rewrite !build_prompt_split in H.
  apply app_inv_head in H. by apply app_inv_tail in H.
Qed.

Lemma X2_witness :
  build_prompt (u "Data are available on request.")
  ≠ build_prompt (u "Data are available upon request.").
Proof.
  apply X2_prompt_embeds_text. intros H. vm_compute in H. discriminate.
Defined.

(* ===================================================================== *)
(* 27. process_file: the edges, and what a done line stands for          *)
(* ===================================================================== *)

Section UnitEdges.

Context (env : Env).

(* What a call that ended with a done line has done *)
Lemma process_file_done path w df :
  lookup_file path w = Some (Csv df) →
  (process_file env path w).1 = done_status (Path.basename path) →
  ∃ category reason w1 cc rc,
    classify_text env (unit_text env df) w = (Ok (category, reason), w1)
    ∧ column_cells env category (length (rows df)) = Ok cc
    ∧ column_cells env reason (length (rows df)) = Ok rc
    ∧ (process_file env path w).2
      = write_file (output_path path) (Csv (output_frame df cc rc)) w1.
Proof.
  intros Hfile Hdone.
  destruct (process_file_cases env path w)
    as [(e & Hrun & _)|[(df' & _ & _ & Hrun)|(df' & r & rest & Hfile' & _ & _ & Hrun)]].
  { rewrite Hrun in Hdone. simpl in Hdone. symmetry in Hdone.
    by apply status_done_not_error in Hdone. }
  { rewrite Hrun in Hdone. simpl in Hdone. symmetry in Hdone.
    by apply status_done_not_missing in Hdone. }
  simplify_eq.
  destruct Hrun as [(e & w1 & _ & Hrun)|([category reason] & w1 & Hclass & Hrun)].
  { rewrite Hrun in Hdone. simpl in Hdone. symmetry in Hdone.
    by apply status_done_not_error in Hdone. }
  rewrite Hrun in Hdone |- *. clear Hrun.
  destruct (persist env _ _ _ _ w1) as [[st|e] w'] eqn:Hp; simpl in Hdone; cycle 1.
  { symmetry in Hdone. by apply status_done_not_error in Hdone. }
  apply persist_Ok_inv in Hp as (cc & rc & Hcc & Hrc & _ & ->). simpl in Hcc, Hrc.
  by exists category, reason, w1, cc, rc.
Qed.

Lemma with_column_columns name cells df :
  columns (with_column name cells df)
  = columns df ++ filter (λ c, c ∉ columns df) [name].
Proof.
  unfold with_column, has_column. case_bool_decide as Hin; simpl.
  - rewrite filter_cons_False by (by intros H; apply H). by rewrite filter_nil, app_nil_r.
  - by rewrite filter_cons_True.
Qed.

Lemma filter_two (cols : list str) (a b : str) :
  a ≠ b →
  filter (λ c, c ∉ cols) [a] ++ filter (λ c, c ∉ cols ++ filter (λ c, c ∉ cols) [a]) [b]
  = filter (λ c, c ∉ cols) [a; b].
Proof.
  intros Hab. rewrite !filter_cons, !filter_nil.
  destruct (decide (a ∉ cols)) as [Ha|Ha]; simpl.
  - destruct (decide (b ∉ cols)) as [Hb|Hb].
    + rewrite decide_True; [done|].
      intros [H|H]%elem_of_app; [done|]. by apply list_elem_of_singleton in H.
    + rewrite decide_False; [done|]. intros H. apply Hb. intros Hin. apply H.
      apply elem_of_app. by left.
  - rewrite app_nil_r. by destruct (decide (b ∉ cols)).
Qed.

(* A unit adds model processes and pauses to the log and nothing else. *)
Lemma process_file_trace path w :
  ∃ evs, log (process_file env path w).2 = log w ++ evs
         ∧ invocations evs ≤ MAX_RETRY
         ∧ Forall (λ e, (∃ prompt, e = Invoke prompt) ∨ e = Sleep) evs.
Proof.
  assert (∃ evs, log w = log w ++ evs ∧ invocations evs ≤ MAX_RETRY
                 ∧ Forall (λ e, (∃ prompt, e = Invoke prompt) ∨ e = Sleep) evs) as Hnil.
  { exists []. rewrite app_nil_r.
    split_and!; [done|unfold invocations, MAX_RETRY; simpl; lia|done]. }
  destruct (process_file_cases env path w)
    as [(e & -> & _)|[(df & _ & _ & ->)|(df & r & rest & _ & _ & _ & Hrun)]]; [done..|].
  destruct (classify_text_trace env (unit_text env df) w) as (evs & Hw1 & Hn & Hall).
  exists evs. split_and!; [|done|].
  - destruct Hrun as [(e & w1 & Hclass & ->)|(answer & w1 & Hclass & ->)];
      rewrite Hclass in Hw1; simpl in Hw1; subst w1; [done|].
    pose proof (persist_log env (Path.basename path) (output_path path)
                  (strip_columns df) answer (logged w evs)) as Hlog.
    by destruct (persist env _ _ _ answer _) as [[st|e'] w'].
  - eapply Forall_impl; [done|]. intros e [He|He]; rewrite He; eauto.
Qed.

End UnitEdges.

(** X3: when the model process of a unit cannot be run (subprocess.run
    raises, as it does when the program ollama is not installed), the
    exception passes through classify_text, which catches nothing around
    call_llama, and process_file reports it: the status line is
    "Error in <name>: <message>", no further attempt is made after the
    failing one, and no file is written. *)
Theorem X3_model_failure (env : Env) (path : str) (w : World) (df : DataFrame)
    (r : list pyval) (rest : list (list pyval)) (k : nat) (e : exn) :
  lookup_file path w = Some (Csv df) →
  DATA_COLUMN ∈ strip <$> columns df →
  rows df = r :: rest →
  k < MAX_RETRY →
  (∀ j, j < k → attempt_fails env (build_prompt (unit_text env df)) w j) →
  ollama env (invocations (log w) + k) (build_prompt (unit_text env df)) = inl e →
  process_file env path w
  = (error_status (Path.basename path) e,
     logged w (failed (build_prompt (unit_text env df)) k
               ++ [Invoke (build_prompt (unit_text env df))])).
Proof.
  intros Hfile Hcol Hrows Hk Hfail Hraise. unfold process_file.
  rewrite (process_body_classifies env _ _ _ _ _ _ _ Hfile Hcol Hrows).
  assert (unit_text env df = cell_text env DATA_COLUMN (strip <$> columns df) r) as <-.
  { unfold unit_text. by rewrite Hrows. }
  unfold classify_text.
  by rewrite (bind_raise _ _ _ _ _ (retry_raises env _ _ k [] w e Hk Hfail Hraise)).
Qed.

Lemma X3_witness :
  let w := world_of [(u "a.csv", Csv statement_unit)] [] in
  process_file no_ollama a_csv w
  = (u "Error in a.csv: [Errno 2] No such file or directory: 'ollama'",
     logged w [Invoke (build_prompt (u "All data are deposited in Zenodo."))]).
Proof.
  intros w.
  rewrite (X3_model_failure no_ollama a_csv w statement_unit
             [PStr (u "10.1000/1"); PStr (u "All data are deposited in Zenodo.")] [] 0
             (Exn (u "FileNotFoundError") (u "[Errno 2] No such file or directory: 'ollama'"))).
  - vm_compute. reflexivity.
  - vm_compute. reflexivity.
  - apply (bool_decide_unpack _). vm_compute. reflexivity.
  - reflexivity.
  - unfold MAX_RETRY. lia.
  - intros j Hj. lia.
  - reflexivity.
Defined.

(** X4: a unit that has no first row to classify never reaches the
    model.  When the input cannot be read (it is not there, or pandas
    refuses it), or its table has the data column but no row, process_file
    returns the error line for that exception (for the empty table the
    IndexError of df.iloc[0], "single positional indexer is
    out-of-bounds") and the world as it found it: nothing was logged
    and nothing written. *)
Theorem X4_no_first_row (env : Env) (path : str) (w : World) :
  (∀ df, lookup_file path w = Some (Csv df) →
         DATA_COLUMN ∈ strip <$> columns df ∧ rows df = []) →
  process_file env path w
  = (error_status (Path.basename path)
       match lookup_file path w with
       | None => FileNotFoundError path
       | Some (Opaque e) => e
       | Some (Csv _) => IndexError
       end, w).
Proof.
  intros Hno. unfold process_file.
  destruct (lookup_file path w) as [[df|e]|] eqn:Hfile.
  - destruct (Hno df eq_refl) as [Hcol Hrows].
    by rewrite (process_body_no_rows env _ _ _ _ _ Hfile Hcol Hrows).
  - unfold process_body, bind, read_csv. by rewrite Hfile.
  - unfold process_body, bind, read_csv. by rewrite Hfile.
Qed.

Lemma X4_witness :
  let w := world_of [(u "a.csv", Csv header_only)] [] in
  process_file (scripted []) a_csv w
  = (u "Error in a.csv: single positional indexer is out-of-bounds", w).
Proof.
  intros w. rewrite (X4_no_first_row (scripted []) a_csv w).
  - vm_compute. reflexivity.
  - intros df Hdf. assert (df = header_only) as ->.
    { vm_compute in Hdf. by injection Hdf as <-. }
    split; [|reflexivity]. apply (bool_decide_unpack _). vm_compute. reflexivity.
Defined.

(** X5: the output file of a unit carries the input over.  After a done
    line the table process_file wrote to the output path has as many
    rows as the table read from the input; its columns are the input's
    column names, stripped, in their order, followed by those of Category
    and Reason the input did not have; and under every column name other
    than these two each row holds the cells it held in the table read. *)
Theorem X5_input_carried_over (env : Env) (path : str) (w : World) (df : DataFrame) :
  lookup_file path w = Some (Csv df) →
  rectangular df →
  (process_file env path w).1 = done_status (Path.basename path) →
  ∃ out,
    lookup_file (output_path path) (process_file env path w).2 = Some (Csv out)
    ∧ columns out
      = (strip <$> columns df)
        ++ filter (λ c, c ∉ strip <$> columns df) [u "Category"; u "Reason"]
    ∧ rectangular out
    ∧ length (rows out) = length (rows df)
    ∧ ∀ other, other ≠ u "Category" → other ≠ u "Reason" →
        column_of other out = column_of other (strip_columns df).
Proof.
  intros Hfile Hrect Hdone.
  destruct (process_file_done env path w df Hfile Hdone)
    as (category & reason & w1 & cc & rc & _ & _ & _ & ->).
  exists (output_frame df cc rc). unfold output_frame. split_and!.
  - apply lookup_file_write_file.
  - rewrite !with_column_columns. cbn [columns strip_columns].
    rewrite <- app_assoc. f_equal. apply filter_two. by vm_compute.
  - by apply with_column_rectangular, with_column_rectangular, strip_columns_rectangular.
  - by rewrite !with_column_rows_length.
  - intros other Hoc Hor.
    rewrite column_of_with_column_other;
      [|by apply with_column_rectangular, strip_columns_rectangular|done].
    rewrite column_of_with_column_other; [done|by apply strip_columns_rectangular|done].
Qed.

Lemma X5_witness :
  let env := scripted [answer_json (u "Fully Public Repository Deposition") (u "Zenodo")] in
  let w := world_of [(u "a.csv", Csv statement_unit)] [] in
  ∃ out,
    lookup_file (output_path a_csv) (process_file env a_csv w).2 = Some (Csv out)
    ∧ columns out = [u "doi"; u "data"; u "Category"; u "Reason"]
    ∧ column_of (u "doi") out = [[PStr (u "10.1000/1")]].
Proof.
  intros env w.
  destruct (X5_input_carried_over env a_csv w statement_unit)
    as (out & Hfile & Hcols & _ & _ & Hother).
  - vm_compute. reflexivity.
  - repeat constructor.
  - vm_compute. reflexivity.
  - exists out. split; [exact Hfile|]. split.
    + rewrite Hcols. vm_compute. reflexivity.
    + rewrite Hother; [vm_compute; reflexivity|..];
        intros H; vm_compute in H; discriminate.
Defined.

(** X6: in the table process_file writes for a unit, every cell of the
    Reason column holds what pandas makes of the reason classify_text
    returned for the text of the unit (for a string or other scalar, the
    value itself).  That reason is the value under the key reason of the
    answer of the first of the three attempts that yields one, next to
    the category of the same answer; or, when no attempt yields an answer
    and the category is ERROR, the text the third model process printed,
    stripped. *)
Theorem X6_reason_written (env : Env) (path : str) (w : World) (df : DataFrame) :
  lookup_file path w = Some (Csv df) →
  rectangular df →
  (process_file env path w).1 = done_status (Path.basename path) →
  ∃ category reason w1 cells out,
    classify_text env (unit_text env df) w = (Ok (category, reason), w1)
    ∧ ((∃ k, k < MAX_RETRY
             ∧ (∀ j, j < k → attempt_fails env (build_prompt (unit_text env df)) w j)
             ∧ attempt_gives env (build_prompt (unit_text env df)) w k (category, reason))
       ∨ (category = PStr (u "ERROR")
          ∧ (∀ j, j < MAX_RETRY →
                  attempt_fails env (build_prompt (unit_text env df)) w j)
          ∧ ∃ last, reason = PStr last
              ∧ attempt_prints env (build_prompt (unit_text env df)) w
                  (MAX_RETRY - 1) last))
    ∧ column_cells env reason (length (rows df)) = Ok cells
    ∧ (is_scalar reason → ∀ i, cells i = reason)
    ∧ lookup_file (output_path path) (process_file env path w).2 = Some (Csv out)
    ∧ ∀ i cs, column_of (u "Reason") out !! i = Some cs →
              cs ≠ [] ∧ Forall (λ x, x = cells i) cs.
Proof.
  intros Hfile Hrect Hdone.
  destruct (process_file_done env path w df Hfile Hdone)
    as (category & reason & w1 & cc & rc & Hclass & _ & Hrc & ->).
  exists category, reason, w1, rc, (output_frame df cc rc). split_and!.
  - done.
  - unfold classify_text in Hclass.
    destruct (retry_outcomes env (build_prompt (unit_text env df)) MAX_RETRY [] w)
      as [(k & answer & Hk & Hfail & Hgive & Hrun)
         |[(k & e & _ & _ & _ & Hrun)|(last & Hfail & [[Hn _]|[_ Hlast]] & Hrun)]];
      rewrite Hrun in Hclass; [|done|done|].
    + left. exists k. split_and!; [done..|]. congruence.
    + right. split_and!; [congruence|done|]. exists last. split; [congruence|done].
  - done.
  - intros Hs. by apply (column_cells_scalar env reason (length (rows df)) rc).
  - apply lookup_file_write_file.
  - intros i cs Hcs. unfold output_frame in Hcs.
    eapply column_of_with_column_same; [|done].
    by apply with_column_rectangular, strip_columns_rectangular.
Qed.

Lemma X6_witness :
  let env := scripted [answer_json (u "Author Upon Request Only") (u "on request")] in
  let w := world_of [(u "a.csv", Csv two_row_unit)] [] in
  ∃ out,
    lookup_file (output_path a_csv) (process_file env a_csv w).2 = Some (Csv out)
    ∧ column_of (u "Reason") out = [[PStr (u "on request")]; [PStr (u "on request")]].
Proof.
  intros env w.
  destruct (X6_reason_written env a_csv w two_row_unit)
    as (category & reason & w1 & cells & out & _ & _ & _ & _ & Hfile & _).
  - vm_compute. reflexivity.
  - repeat constructor.
  - vm_compute. reflexivity.
  - exists out. split; [exact Hfile|].
    assert (Some (Csv out)
            = Some (Csv (output_frame two_row_unit
                           (λ _, PStr (u "Author Upon Request Only"))
                           (λ _, PStr (u "on request"))))) as H.
    { rewrite <- Hfile. vm_compute. reflexivity. }
    injection H as ->. vm_compute. reflexivity.
Defined.

(** X7: a unit none of whose three attempts gives an answer is reported
    as done, not as an error.  When the three model processes print text
    from which no answer is obtained, the last of these texts, the column
    names and the cells can be written, the output directory is there and
    the output path is not a directory, process_file returns
    "Done: <name>" and writes the output file with ERROR in the Category
    column and the last text in the Reason column of every row. *)
Theorem X7_failure_is_done (env : Env) (path : str) (w : World) (df : DataFrame)
    (r : list pyval) (rest : list (list pyval)) (last : str) :
  lookup_file path w = Some (Csv df) →
  DATA_COLUMN ∈ strip <$> columns df →
  rows df = r :: rest →
  (∀ j, j < MAX_RETRY → attempt_fails env (build_prompt (unit_text env df)) w j) →
  attempt_prints env (build_prompt (unit_text env df)) w (MAX_RETRY - 1) last →
  encodable last = true →
  encodable_frame df →
  is_Some (fs w !! OUTPUT_DIR) → Path.basename path ≠ [] →
  fs w !! output_path path = None →
  process_file env path w
  = (done_status (Path.basename path),
     write_file (output_path path)
       (Csv (output_frame df (λ _, PStr (u "ERROR")) (λ _, PStr last)))
       (logged w (failed (build_prompt (unit_text env df)) MAX_RETRY))).
Proof.
  intros Hfile Hcol Hrows Hfail Hlast Henc Hdf Hdir Hname _. unfold process_file.
  rewrite (process_body_classifies env _ _ _ _ _ _ _ Hfile Hcol Hrows).
  assert (unit_text env df = cell_text env DATA_COLUMN (strip <$> columns df) r) as <-.
  { unfold unit_text. by rewrite Hrows. }
  unfold classify_text.
  rewrite (bind_ok _ _ _ _ _
             (retry_exhausted env _ (MAX_RETRY - 1) [] w last Hfail Hlast)).
  fold (output_path path).
  rewrite (persist_ok env _ _ _ _ (λ _, PStr (u "ERROR")) (λ _, PStr last));
    [done|done|done|by intros; vm_compute|done|by apply strip_columns_encodable| |].
  - destruct (output_path_split path) as [-> _]. done.
  - destruct (output_path_split path) as [_ ->]. done.
Qed.

Lemma X7_witness :
  let env := scripted [u "Sorry."; u "{not json}"; u "  Still nothing. "] in
  let w := world_of [(u "a.csv", Csv statement_unit)] [] in
  (process_file env a_csv w).1 = u "Done: a.csv"
  ∧ lookup_file (output_path a_csv) (process_file env a_csv w).2
    = Some (Csv {| columns := [u "doi"; u "data"; u "Category"; u "Reason"];
                   rows := [[PStr (u "10.1000/1");
                             PStr (u "All data are deposited in Zenodo.");
                             PStr (u "ERROR"); PStr (u "Still nothing.")]] |}).
Proof.
  intros env w.
  rewrite (X7_failure_is_done env a_csv w statement_unit
             [PStr (u "10.1000/1"); PStr (u "All data are deposited in Zenodo.")] []
             (u "Still nothing.")).
  - split; vm_compute; reflexivity.
  - vm_compute. reflexivity.
  - apply (bool_decide_unpack _). vm_compute. reflexivity.
  - reflexivity.
  - intros j Hj. unfold MAX_RETRY in Hj.
    destruct j as [|[|[|j]]]; [| | |lia].
    + exists (u "Sorry."). split; vm_compute; reflexivity.
    + exists (u "{not json}"). split; vm_compute; reflexivity.
    + exists (u "  Still nothing. "). split; vm_compute; reflexivity.
  - exists (u "  Still nothing. "). split; vm_compute; reflexivity.
  - vm_compute. reflexivity.
  - split; repeat constructor.
  - eexists. vm_compute. reflexivity.
  - intros H. vm_compute in H. discriminate.
  - vm_compute. reflexivity.
Defined.

(** X8: what process_file can touch.  Whatever the input and the model
    do, a call changes at most the one entry of the output directory
    named like its input; so an input that lies elsewhere is still what
    it was.  To the log it adds model processes and pauses only, at most
    MAX_RETRY = 3 processes, and it prints nothing. *)
Theorem X8_unit_footprint (env : Env) (path : str) (w : World) :
  changed_only (λ dir n, dir = OUTPUT_DIR ∧ n = Path.basename path)
    (fs w) (fs (process_file env path w).2)
  ∧ (Path.dirname path ≠ OUTPUT_DIR →
     lookup_file path (process_file env path w).2 = lookup_file path w)
  ∧ ∃ evs, log (process_file env path w).2 = log w ++ evs
           ∧ invocations evs ≤ MAX_RETRY
           ∧ Forall (λ e, (∃ prompt, e = Invoke prompt) ∨ e = Sleep) evs.
Proof.
  destruct (process_file_effect env path w) as [_ Hfs]. split_and!.
  - done.
  - intros Hdir. rewrite !lookup_file_entries. apply Hfs. by intros [? _].
  - apply process_file_trace.
Qed.

(* ===================================================================== *)
(* 28. merge_outputs: twice, on an unreadable file, on like tables       *)
(* ===================================================================== *)

Section MergeAgain.

(* The list comprehension reads every file before anything is written. *)
Lemma read_all_raises files : ∀ w f,
  f ∈ files → (∀ df, lookup_file f w ≠ Some (Csv df)) →
  ∃ e, read_all files w = (Raise e, w).
Proof.
  induction files as [|f0 files IH]; intros w f Hin Hbad; [by apply elem_of_nil in Hin|].
  cbn [read_all]. unfold bind at 1, read_csv.
  destruct (lookup_file f0 w) as [[df|e]|] eqn:Hf0; [|eauto..].
  apply elem_of_cons in Hin as [->|Hin]; [by destruct (Hbad df)|].
  destruct (IH w f Hin Hbad) as (e & He). exists e. unfold bind. by rewrite He.
Qed.

Lemma read_all_ext files : ∀ w w',
  (∀ f, f ∈ files → lookup_file f w' = lookup_file f w) →
  ∀ dfs, read_all files w = (Ok dfs, w) → read_all files w' = (Ok dfs, w').
Proof.
  intros w w' Hext dfs Hread. apply read_all_tables.
  apply read_all_Ok in Hread. revert Hext.
  induction Hread as [|f df files dfs Hf _ IH]; intros Hext; constructor.
  - rewrite Hext; [done|by left].
  - apply IH. intros g Hg. apply Hext. by right.
Qed.

(* A frame that was written once can be written again wherever the
   directory is there. *)
Lemma to_csv_again df path w w' w2 :
  to_csv df path w = (Ok tt, w') → is_Some (fs w2 !! Path.dirname path) →
  to_csv df path w2 = (Ok tt, write_file path (Csv df) w2).
Proof.
  intros H [d2 Hd2]. unfold to_csv in *. rewrite Hd2.
  destruct (fs w !! Path.dirname path); [|done].
  case_bool_decide; [done|].
  destruct (forallb encodable (columns df)); [|done].
  destruct (_ =? _)%nat eqn:Hlen; [|done].
  apply Nat.eqb_eq in Hlen. rewrite (encodable_prefix_length _ Hlen). by destruct df.
Qed.

Lemma write_file_twice path f w :
  fs (write_file path f (write_file path f w)) = fs (write_file path f w).
Proof.
  unfold write_file. simpl. rewrite lookup_insert_eq. simpl.
  by rewrite !insert_insert_eq.
Qed.

Lemma output_file_split w f :
  wf_names w → f ∈ csv_files OUTPUT_DIR w → Path.dirname f = OUTPUT_DIR.
Proof.
  intros Hwf Hf. rewrite wf_names_spec in Hwf. unfold csv_files in Hf.
  apply list_elem_of_fmap in Hf as (n & -> & Hn).
  apply list_elem_of_filter in Hn as [_ Hn]. apply elem_of_listdir in Hn.
  apply dirname_join; [apply plain_OUTPUT_DIR|]. apply (Hwf OUTPUT_DIR); [by right|done].
Qed.







End MergeAgain.

(** X9: merging twice is merging once.  The final file lies beside the
    output directory, not in it, so glob does not find it among the
    output files: when merge_outputs has returned, a second call right
    after it returns as well and leaves every file, the final file
    included, as the first call left it. *)
Theorem X9_merge_idempotent (w w1 : World) :
  wf_names w →
  merge_outputs w = (Ok tt, w1) →
  ∃ w2, merge_outputs w1 = (Ok tt, w2) ∧ fs w2 = fs w1.
Proof.
  intros Hwf Hrun. rewrite merge_outputs_unfold in Hrun.
  destruct (csv_files OUTPUT_DIR w) as [|f files] eqn:Hfiles.
  { simplify_eq. eexists. rewrite merge_outputs_unfold.
    rewrite (csv_files_entries OUTPUT_DIR w (logged w _) eq_refl), Hfiles. done. }
  destruct (read_all (f :: files) w) as [[dfs|e] w'] eqn:Hread; [|done].
  pose proof (read_all_world (f :: files) w) as Hw'. rewrite Hread in Hw'.
  simpl in Hw'. subst w'.
  destruct (to_csv (concat dfs) FINAL_OUTPUT w) as [[[]|e] w3] eqn:Hcsv; [|done].
  simplify_eq. pose proof (to_csv_Ok_inv _ _ _ _ Hcsv) as ->.
  destruct FINAL_OUTPUT_split as [Hdir Hname].
  destruct INPUT_DIR_apart as (_ & _ & Hob).
  set (w1 := logged (write_file FINAL_OUTPUT (Csv (concat dfs)) w) [Print merged_line]).
  assert (∀ n, entries (fs w1) OUTPUT_DIR !! n = entries (fs w) OUTPUT_DIR !! n) as Hout.
  { intros n. unfold w1, write_file. simpl. rewrite Hdir, entries_insert.
    by rewrite decide_False by done. }
  assert (csv_files OUTPUT_DIR w1 = f :: files) as Hfiles1.
  { rewrite <- Hfiles. apply csv_files_entries. apply map_eq, Hout. }
  assert (read_all (f :: files) w1 = (Ok dfs, w1)) as Hread1.
  { apply (read_all_ext _ w); [|done]. intros g Hg. rewrite !lookup_file_entries.
    rewrite (output_file_split w g Hwf) by (by rewrite Hfiles). apply Hout. }
  assert (to_csv (concat dfs) FINAL_OUTPUT w1
          = (Ok tt, write_file FINAL_OUTPUT (Csv (concat dfs)) w1)) as Hcsv1.
  { apply (to_csv_again _ _ _ _ _ Hcsv). unfold w1, write_file. simpl.
    rewrite lookup_insert_eq. eauto. }
  eexists. rewrite merge_outputs_unfold, Hfiles1, Hread1, Hcsv1. split; [done|].
  exact (write_file_twice FINAL_OUTPUT (Csv (concat dfs)) w).
Qed.

Lemma X9_witness :
  let w := world_of [] [(u "a.csv", Csv statement_unit); (u "b.csv", Csv two_row_unit)] in
  ∃ w2, merge_outputs (merge_outputs w).2 = (Ok tt, w2) ∧ fs w2 = fs (merge_outputs w).2.
Proof.
  intros w. apply (X9_merge_idempotent w (merge_outputs w).2).
  - vm_compute. reflexivity.
  - vm_compute. reflexivity.
Defined.

(** X10: one unreadable output file stops the merge before anything is
    written.  When glob finds in the output directory a file that pandas
    cannot read as a table, merge_outputs raises and leaves the world as
    it found it: the final file is neither created nor changed, and
    nothing is printed. *)
Theorem X10_merge_all_or_nothing (w : World) (f : str) :
  f ∈ csv_files OUTPUT_DIR w →
  (∀ df, lookup_file f w ≠ Some (Csv df)) →
  ∃ e, merge_outputs w = (Raise e, w).
Proof.
  intros Hf Hbad. rewrite merge_outputs_unfold.
  destruct (csv_files OUTPUT_DIR w) as [|f0 files] eqn:Hfiles;
    [by apply elem_of_nil in Hf|].
  destruct (read_all_raises (f0 :: files) w f Hf Hbad) as (e & ->). eauto.
Qed.

Lemma X10_witness :
  let w := world_of [] [(u "a.csv", Csv statement_unit);
                        (u "b.csv", Opaque EmptyDataError)] in
  ∃ e, merge_outputs w = (Raise e, w).
Proof.
  intros w. apply (X10_merge_all_or_nothing w (Path.join OUTPUT_DIR (u "b.csv"))).
  - apply (bool_decide_unpack _). vm_compute. reflexivity.
  - intros df H. vm_compute in H. discriminate.
Defined.



(* ===================================================================== *)
(* 29. main: the ways out, the status lines, the cost of a run           *)
(* ===================================================================== *)

Section Pool.

Context (env : Env).

Lemma printed_app l1 l2 : printed (l1 ++ l2) = printed l1 ++ printed l2.
Proof. unfold printed. by rewrite omap_app. Qed.

Lemma printed_classifier evs :
  Forall (λ e, (∃ prompt, e = Invoke prompt) ∨ e = Sleep) evs → printed evs = [].
Proof. induction 1 as [|e evs [[p ->]| ->] _ IH]; done. Qed.

Lemma invocations_none evs :
  Forall (λ e, is_invoke e = false) evs → invocations evs = 0.
Proof.
  induction 1 as [|e evs He _ IH]; [done|]. by rewrite invocations_cons, He, IH.
Qed.

Lemma process_file_status path w : is_status path (process_file env path w).1.
Proof.
  unfold is_status.
  destruct (process_file_cases env path w)
    as [(e & -> & _)|[(df & _ & _ & ->)|(df & r & rest & _ & _ & _ & Hrun)]];
    [right; right; eauto|right; by left|].
  destruct Hrun as [(e & w1 & _ & ->)|(answer & w1 & _ & ->)]; [right; right; eauto|].
  destruct (persist env _ _ _ answer w1) as [[st|e] w'] eqn:Hp; [|right; right; eauto].
  apply persist_Ok_inv in Hp as (_ & _ & _ & _ & -> & _). by left.
Qed.

(* The pool: one status line per file, in the order of the files *)
Lemma run_workers_trace files : ∀ w,
  ∃ evs, log (run_workers env files w).2 = log w ++ evs
         ∧ Forall2 (λ f line, is_status f line
                              ∧ ∃ wf, line = (process_file env f wf).1)
             files (printed evs)
         ∧ invocations evs ≤ MAX_RETRY * length files.
Proof.
  induction files as [|f files IH]; intros w.
  { exists []. rewrite app_nil_r. split_and!; [done|constructor|done]. }
  rewrite run_workers_cons.
  destruct (process_file_trace env f w) as (evs1 & Hlog1 & Hn1 & Hall1).
  destruct (IH (logged (process_file env f w).2 [Print (process_file env f w).1]))
    as (evs2 & Hlog2 & Hst2 & Hn2).
  exists (evs1 ++ [Print (process_file env f w).1] ++ evs2). split_and!.
  - rewrite Hlog2. cbn [logged log]. rewrite Hlog1. by rewrite <- !app_assoc.
  - rewrite !printed_app, (printed_classifier _ Hall1). cbn [app].
    change (printed [Print (process_file env f w).1]) with [(process_file env f w).1].
    cbn [app]. constructor; [|done]. split; [apply process_file_status|by exists w].
  - rewrite !invocations_app, invocations_cons. cbn [is_invoke length].
    change (invocations []) with 0. unfold MAX_RETRY in *. lia.
Qed.

Lemma merge_outputs_prints w :
  ∃ evs, log (merge_outputs w).2 = log w ++ evs ∧ invocations evs = 0.
Proof.
  rewrite merge_outputs_unfold.
  destruct (csv_files OUTPUT_DIR w) as [|f files].
  { by exists [Print no_outputs_line]. }
  destruct (read_all (f :: files) w) as [[dfs|e] w1]; [|exists []; by rewrite app_nil_r].
  destruct (to_csv_effect (concat dfs) FINAL_OUTPUT w) as [Hlog _].
  destruct (to_csv (concat dfs) FINAL_OUTPUT w) as [[[]|e] w2]; simpl in *.
  - exists [Print merged_line]. by rewrite Hlog.
  - exists []. by rewrite app_nil_r.
Qed.

(* The two ways out of main before the pool *)
Lemma main_no_inputs w :
  csv_files INPUT_DIR w = [] →
  main env w
  = (Raise (SystemExit 1),
     logged w [Print (if bool_decide (is_Some (fs w !! INPUT_DIR))
                         || bool_decide (is_Some (lookup_file INPUT_DIR w))
                      then u "No CSV files found."
                      else u "Input directory not found: " ++ INPUT_DIR)]).
Proof.
  intros Hin. unfold main.
  set (found := bool_decide (is_Some (fs w !! INPUT_DIR))
                || bool_decide (is_Some (lookup_file INPUT_DIR w))).
  rewrite (bind_ok (path_exists INPUT_DIR) _ w found w eq_refl).
  destruct found; cbn [negb].
  - by rewrite bind_glob, Hin, bind_print.
  - by rewrite bind_print.
Qed.

Lemma main_invocations w :
  ∃ evs, log (main env w).2 = log w ++ evs
         ∧ invocations evs ≤ MAX_RETRY * length (dispatch w).
Proof.
  destruct (csv_files INPUT_DIR w) as [|f files] eqn:Hin.
  { rewrite main_no_inputs by done. eexists. split; [done|].
    rewrite invocations_cons. cbn [is_invoke]. change (invocations []) with 0. lia. }
  unfold main.
  set (found := bool_decide (is_Some (fs w !! INPUT_DIR))
                || bool_decide (is_Some (lookup_file INPUT_DIR w))).
  rewrite (bind_ok (path_exists INPUT_DIR) _ w found w eq_refl).
  destruct found; cbn [negb]; cycle 1.
  { rewrite bind_print. eexists. split; [done|].
    rewrite invocations_cons. cbn [is_invoke]. change (invocations []) with 0. lia. }
  rewrite bind_glob, Hin, bind_glob.
  assert (remaining_files (f :: files) (csv_files OUTPUT_DIR w) = dispatch w) as ->.
  { unfold dispatch. by rewrite Hin. }
  rewrite !bind_print. rewrite !logged_logged.
  match goal with |- context [logged w ?l] => set (prints := l) end.
  assert (invocations prints = 0) as Hprints.
  { apply invocations_none. unfold prints. repeat constructor. }
  rewrite bind_submit_all, (bind_run_workers env), logged_logged.
  set (w1 := logged w (prints ++ (Submit <$> dispatch w))).
  destruct (run_workers_trace (dispatch w) w1) as (evs2 & Hlog2 & _ & Hn2).
  set (w2 := (run_workers env (dispatch w) w1).2) in *.
  destruct (merge_outputs_prints w2) as (evs3 & Hlog3 & Hn3).
  assert (invocations (Submit <$> dispatch w) = 0) as Hsub.
  { apply invocations_none, Forall_fmap, Forall_forall. done. }
  unfold bind. destruct (merge_outputs w2) as [[[]|e] w3]; cbn [snd] in Hlog3.
  - exists (prints ++ (Submit <$> dispatch w) ++ evs2 ++ evs3 ++ [PrintElapsed]).
    split.
    + cbn [emit snd log]. rewrite Hlog3, Hlog2. unfold w1. cbn [logged log].
      by rewrite <- !app_assoc.
    + rewrite !invocations_app, Hprints, Hsub, Hn3, invocations_cons.
      cbn [is_invoke]. change (invocations []) with 0. lia.
  - exists (prints ++ (Submit <$> dispatch w) ++ evs2 ++ evs3). split.
    + cbn [snd]. rewrite Hlog3, Hlog2. unfold w1. cbn [logged log].
      by rewrite <- !app_assoc.
    + rewrite !invocations_app, Hprints, Hsub, Hn3. lia.
Qed.

End Pool.

(** X12: with nothing to classify main stops at once.  When glob finds no
    *.csv entry in the input directory (the directory is not there, or
    it holds none), main prints one line, "Input directory not found:
    <dir>" or "No CSV files found.", and exits with status 1; no unit is
    submitted, no model process is started, merge_outputs is not called
    and no file is touched, whatever the output directory holds. *)
Theorem X12_nothing_to_do (env : Env) (w : World) :
  csv_files INPUT_DIR w = [] →
  main env w
  = (Raise (SystemExit 1),
     logged w [Print (if bool_decide (is_Some (fs w !! INPUT_DIR))
                         || bool_decide (is_Some (lookup_file INPUT_DIR w))
                      then u "No CSV files found."
                      else u "Input directory not found: " ++ INPUT_DIR)]).
Proof. apply main_no_inputs. Qed.

Lemma X12_witness :
  let w := world_of [(u "notes.txt", Opaque EmptyDataError)]
                    [(u "old.csv", Csv statement_unit)] in
  main (scripted []) w = (Raise (SystemExit 1), logged w [Print (u "No CSV files found.")]).
Proof.
  intros w. rewrite (X12_nothing_to_do (scripted []) w).
  - vm_compute. reflexivity.
  - vm_compute. reflexivity.
Defined.


(** X14: a call of main starts at most MAX_RETRY = 3 model processes for
    each input it dispatches, whatever the model and the files do; in
    particular none when every input has its output file already. *)
Theorem X14_run_bound (env : Env) (w : World) :
  invocations (log (main env w).2)
  ≤ invocations (log w) + MAX_RETRY * length (dispatch w).
Proof.
  destruct (main_invocations env w) as (evs & -> & Hn).
  rewrite invocations_app. lia.
Qed.

Section Skipped.

Context (env : Env).

Lemma process_file_wf path w : wf_names w → wf_names (process_file env path w).2.
Proof.
  intros Hwf. destruct (process_file_effect env path w) as [_ Hfs].
  rewrite wf_names_spec in Hwf |- *. intros dir n Hdir Hn.
  destruct (decide (dir = OUTPUT_DIR ∧ n = Path.basename path)) as [[_ ->]|Hnot].
  - apply basename_no_slash.
  - rewrite Hfs in Hn by done. by apply (Hwf dir).
Qed.

Lemma process_file_inputs path w :
  csv_files INPUT_DIR (process_file env path w).2 = csv_files INPUT_DIR w.
Proof.
  destruct (process_file_effect env path w) as [_ Hfs].
  apply csv_files_entries, map_eq. intros n. apply Hfs.
  destruct INPUT_DIR_apart as (Hio & _). by intros [? _].
Qed.

End Skipped.

(** X15: the test main makes before dispatching looks at the name of the
    output file only.  Once process_file has left a file at the output
    path of a unit, main does not dispatch the unit again, whatever the
    status line was: also after an error line, when the write failed
    after the file had been created.  What main does with the other
    inputs is not affected. *)
Theorem X15_written_is_skipped (env : Env) (path : str) (w : World) :
  wf_names w →
  is_Some (lookup_file (output_path path) (process_file env path w).2) →
  (path ∉ dispatch (process_file env path w).2)
  ∧ ∀ other, Path.basename other ≠ Path.basename path →
      (other ∈ dispatch (process_file env path w).2 ↔ other ∈ dispatch w).
Proof.
  intros Hwf Hsome.
  pose proof (process_file_wf env path w Hwf) as Hwf'.
  rewrite (dispatch_pending _ Hwf'), (dispatch_pending _ Hwf). unfold pending.
  rewrite process_file_inputs. split.
  - intros [Hnone _]%list_elem_of_filter. rewrite Hnone in Hsome. by destruct Hsome.
  - intros other Hother. rewrite !list_elem_of_filter.
    destruct (process_file_effect env path w) as [_ Hfs].
    rewrite !(lookup_file_entries (output_path other)).
    destruct (output_path_split other) as [-> ->].
    rewrite Hfs; [done|]. by intros [_ ?].
Qed.

Lemma X15_witness :
  let env := scripted [answer_json (u "\ud83d") (u "emoji")] in
  let w := world_of [(u "a.csv", Csv statement_unit)] [] in
  (process_file env a_csv w).1 = error_status (u "a.csv") UnicodeEncodeError
  ∧ a_csv ∈ dispatch w
  ∧ a_csv ∉ dispatch (process_file env a_csv w).2.
Proof.
  intros env w. split_and!.
  - vm_compute. reflexivity.
  - apply (bool_decide_unpack _). vm_compute. reflexivity.
  - apply (X15_written_is_skipped env a_csv w).
    + vm_compute. reflexivity.
    + eexists. vm_compute. reflexivity.
Defined.

(** X16: what a run of the script can touch.  Whatever the model and the
    files do, and whether the run returns or raises, it changes at most
    the output files of the inputs it dispatches and the final file; the
    entries of the input directory are after the run what they were
    before it. *)
Theorem X16_run_footprint (env : Env) (w : World) :
  changed_only (may_write (dispatch w)) (fs w) (fs (script env w).2)
  ∧ entries (fs (script env w).2) INPUT_DIR = entries (fs w) INPUT_DIR.
Proof.
  assert (changed_only (may_write (dispatch w)) (fs w) (fs (script env w).2)) as Hfs.
  { destruct (makedirs_output_effect w) as [(Hnone & _)|(_ & e & Hmk)].
    - by apply script_effect.
    - unfold script. rewrite (bind_raise _ _ _ _ _ Hmk). apply changed_only_refl. }
  split; [done|]. apply map_eq. intros n. apply Hfs.
  destruct INPUT_DIR_apart as (Hio & Hib & _). by intros [[? _]|[? _]].
Qed.

(* ===================================================================== *)
(* 30. extract_json: the span it returns                                 *)
(* ===================================================================== *)

Section Span.

Local Open Scope N_scope.

Lemma fence_backticks : fence = [backtick; backtick; backtick].
Proof. vm_compute. reflexivity. Qed.

Lemma startswith_fence s :
  startswith fence s = true → ∃ s', s = backtick :: backtick :: backtick :: s'.
Proof.
  intros H. apply startswith_prefix in H as (b & ->). rewrite fence_backticks. eauto.
Qed.

Lemma replace_fence_match s :
  replace fence [] (backtick :: backtick :: backtick :: s) = replace fence [] s.
Proof. reflexivity. Qed.

Lemma replace_fence_other c s :
  startswith fence (c :: s) = false →
  replace fence [] (c :: s) = c :: replace fence [] s.
Proof. intros H. unfold replace. cbn [replace_from]. by rewrite H. Qed.

Lemma not_occurs_nil old : old ≠ [] → ¬ occurs old [].
Proof.
  intros Hne (a & b & H). symmetry in H.
  apply app_eq_nil in H as [_ H]. by apply app_eq_nil in H as [? _].
Qed.

(* After str.replace of the three backticks no three backticks in a row
   are left: a backtick that is kept is followed by at most one more
   before a character that is not one. *)
Lemma replace_fence_clean n : ∀ s,
  (length s ≤ n)%nat → ¬ occurs fence (replace fence [] s).
Proof.
  induction n as [|n IH]; intros s Hn.
  { destruct s; [|simpl in Hn; lia]. by apply not_occurs_nil. }
  destruct (startswith fence s) eqn:Hsw.
  { apply startswith_fence in Hsw as (s' & ->). rewrite replace_fence_match.
    apply IH. simpl in Hn. lia. }
  destruct s as [|c s]; [by apply not_occurs_nil|].
  rewrite (replace_fence_other _ _ Hsw). intros (a & y & H).
  destruct a as [|x a]; cycle 1.
  { injection H as -> H. apply (IH s); [simpl in Hn; lia|]. by exists a, y. }
  change ([] ++ fence ++ y) with (backtick :: backtick :: backtick :: y) in H.
  injection H as -> H.
  destruct s as [|d s2]; [discriminate H|].
  destruct (startswith fence (d :: s2)) eqn:Hsw2.
  { apply startswith_fence in Hsw2 as (s3 & E). injection E as -> ->. discriminate Hsw. }
  rewrite (replace_fence_other _ _ Hsw2) in H. injection H as -> H.
  destruct s2 as [|e s3]; [discriminate H|].
  destruct (startswith fence (e :: s3)) eqn:Hsw3.
  { apply startswith_fence in Hsw3 as (s4 & E). injection E as -> ->. discriminate Hsw. }
  rewrite (replace_fence_other _ _ Hsw3) in H. injection H as -> H. discriminate Hsw.
Qed.

Lemma strip_fences_clean s : ¬ occurs fence (strip_fences s).
Proof.
  unfold strip_fences.
  by apply (replace_fence_clean (length (replace fence_json [] s))).
Qed.

Lemma occurs_inside old a m c : occurs old m → occurs old (a ++ m ++ c).
Proof.
  intros (x & y & ->). exists (a ++ x), (y ++ c). by rewrite <- !app_assoc.
Qed.

Lemma through_last_None_inv s : through_last_rbrace s = None → rbrace ∉ s.
Proof.
  induction s as [|c s IH]; intros H; [apply not_elem_of_nil|].
  cbn [through_last_rbrace] in H.
  destruct (through_last_rbrace s) as [m|]; [done|].
  destruct (c =? rbrace) eqn:Hc; [done|].
  apply N.eqb_neq in Hc. apply not_elem_of_cons. split; [done|by apply IH].
Qed.

(* The greedy match ends at the last closing brace. *)
Lemma through_last_shape s : ∀ m,
  through_last_rbrace s = Some m →
  ∃ inside c, m = inside ++ [rbrace] ∧ s = m ++ c ∧ rbrace ∉ c.
Proof.
  induction s as [|x s IH]; intros m H; [done|].
  cbn [through_last_rbrace] in H.
  destruct (through_last_rbrace s) as [m'|] eqn:Hs.
  - injection H as <-. destruct (IH m' eq_refl) as (inside & c & -> & Hsc & Hc).
    exists (x :: inside), c. split_and!; [done| |done].
    rewrite Hsc at 1. done.
  - destruct (x =? rbrace) eqn:Hx; [|done]. apply N.eqb_eq in Hx as ->.
    injection H as <-. exists [], s. split_and!; [done..|].
    by apply through_last_None_inv.
Qed.

(* re.search finds the text from the first opening brace to the last
   closing brace. *)
Lemma search_braces_shape t : ∀ m,
  search_braces t = Some m →
  ∃ a inside c, t = a ++ m ++ c ∧ m = lbrace :: inside ++ [rbrace]
                ∧ (lbrace ∉ a) ∧ rbrace ∉ c.
Proof.
  induction t as [|x t IH]; intros m H; [done|].
  rewrite search_braces_cons in H. cbn [match_braces] in H.
  destruct (x =? lbrace) eqn:Hx.
  - apply N.eqb_eq in Hx as ->.
    destruct (through_last_rbrace t) as [m'|] eqn:Hm'; cbn [fmap option_fmap option_map] in H.
    + injection H as <-.
      destruct (through_last_shape t m' Hm') as (inside & c & -> & Ht & Hc).
      exists [], inside, c. split_and!; [|done|apply not_elem_of_nil|done].
      cbn [app]. by rewrite Ht at 1.
    + destruct (IH m H) as (a & inside & c & Ht & -> & _ & _).
      apply through_last_None_inv in Hm'. exfalso. apply Hm'. rewrite Ht.
      apply elem_of_app. right. apply elem_of_app. left.
      apply elem_of_cons. right. apply elem_of_app. right. by left.
  - apply N.eqb_neq in Hx.
    destruct (IH m H) as (a & inside & c & -> & -> & Ha & Hc).
    exists (x :: a), inside, c. split_and!; [done|done| |done].
    apply not_elem_of_cons. split; [by intros <-|done].
Qed.

End Span.

(** X17: whatever text it is given, a result of extract_json is the part
    of the text with the fence markers removed that runs from its first
    opening brace to its last closing brace: it begins with an opening
    brace and ends with a closing brace, no opening brace comes before
    it and no closing brace after it.  It contains no run of three
    backticks, and extract_json applied to it returns it unchanged. *)
Theorem X17_extracted_span (text m : str) :
  extract_json text = Some m →
  (∃ a inside c, strip_fences text = a ++ m ++ c
                 ∧ m = lbrace :: inside ++ [rbrace]
                 ∧ (lbrace ∉ a) ∧ rbrace ∉ c)
  ∧ ¬ occurs fence m
  ∧ extract_json m = Some m.
Proof.
  intros H. unfold extract_json in H. fold (strip_fences text) in H.
  destruct (search_braces_shape _ _ H) as (a & inside & c & Ht & Hm & Ha & Hc).
  assert (¬ occurs fence m) as Hclean.
  { intros Hocc. apply (strip_fences_clean text). rewrite Ht. by apply occurs_inside. }
  split_and!; [by exists a, inside, c|done|].
  unfold extract_json. fold (strip_fences m). rewrite (strip_fences_no_fence _ Hclean).
  rewrite Hm. apply (search_braces_span [] inside []); apply not_elem_of_nil.
Qed.

Lemma X17_witness :
  let text := u "Sure! ```json" ++ [newline] ++ u "{" ++ q (u "category") ++ u ": {}}"
              ++ [newline] ++ u "``` Done." in
  let m := u "{" ++ q (u "category") ++ u ": {}}" in
  extract_json text = Some m ∧ ¬ occurs fence m ∧ extract_json m = Some m.
Proof.
  intros text m.
  assert (extract_json text = Some m) as H by (vm_compute; reflexivity).
  destruct (X17_extracted_span text m H) as (_ & Hclean & Hagain). done.
Defined.
